(** * CV parser of the mock-interview application

    A shallow embedding of [src/utils/cv_parser.py] (class [CVParser]) and
    the properties of its documented behaviour.

    The parser is a chain of regular-expression searches over the text of a
    document.  Python's [str] is modelled as a list of Unicode code points,
    the [re] module as a backtracking matcher with the priorities of
    CPython's engine (ordered alternation, greedy and lazy repetition,
    groups, look-around), and exceptions as an error monad. *)

From Stdlib Require Import String Ascii.
From Stdlib Require Import List NArith Arith Bool Lia.
From Stdlib Require Import Permutation Sorted.
From Stdlib Require Import ZArith DecimalString.
Import ListNotations.

(** * Python strings *)

Module Py.

(** A character is a Unicode code point, a string a sequence of them. *)
Definition char := N.
Definition str := list char.

Definition LF : char := 10%N.
Definition bullet : char := 8226%N.      (* U+2022 *)

(** Literals.  [py] turns a source literal (UTF-8 bytes, with the escape
    [\n] of Python) into the string it denotes. *)
Fixpoint utf8_decode (bs : list N) : str :=
  match bs with
  | [] => []
  | b0 :: t =>
    if (b0 <? 128)%N then b0 :: utf8_decode t
    else if (b0 <? 224)%N then
      match t with
      | b1 :: t1 => ((b0 - 192) * 64 + (b1 - 128))%N :: utf8_decode t1
      | _ => []
      end
    else if (b0 <? 240)%N then
      match t with
      | b1 :: b2 :: t2 =>
        ((b0 - 224) * 4096 + (b1 - 128) * 64 + (b2 - 128))%N :: utf8_decode t2
      | _ => []
      end
    else
      match t with
      | b1 :: b2 :: b3 :: t3 =>
        ((b0 - 240) * 262144 + (b1 - 128) * 4096 + (b2 - 128) * 64 + (b3 - 128))%N
          :: utf8_decode t3
      | _ => []
      end
  end.

Fixpoint unescape (s : str) : str :=
  match s with
  | 92%N :: 110%N :: t => LF :: unescape t
  | c :: t => c :: unescape t
  | [] => []
  end.

Definition py (s : string) : str :=
  unescape (utf8_decode (map N_of_ascii (list_ascii_of_string s))).

Definition str_eqb (a b : str) : bool :=
  if list_eq_dec N.eq_dec a b then true else false.

(** [c in range(lo, hi + 1)]. *)
Definition between (lo hi : N) (c : char) : bool :=
  ((lo <=? c) && (c <=? hi))%N.

(** [str.isspace] on one character: the white space of the Unicode
    database, which is also what [str.strip] removes and what [\s] matches
    in a [str] pattern. *)
Definition isspace (c : char) : bool :=
  between 9 13 c || between 28 32 c || (c =? 133)%N || (c =? 160)%N
  || (c =? 5760)%N || between 8192 8202 c || between 8232 8233 c
  || (c =? 8239)%N || (c =? 8287)%N || (c =? 12288)%N.

(** The zero of each run of decimal digits of Unicode 14 (category Nd),
    the characters [str.isdecimal] accepts and [\d] matches. *)
Definition decimal_zeros : list N :=
  [48; 1632; 1776; 1984; 2406; 2534; 2662; 2790; 2918; 3046; 3174; 3302;
   3430; 3558; 3664; 3792; 3872; 4160; 4240; 6112; 6160; 6470; 6608; 6784;
   6800; 6992; 7088; 7232; 7248; 42528; 43216; 43264; 43472; 43504; 43600;
   44016; 65296; 66720; 68912; 69734; 69872; 69942; 70096; 70384; 70736;
   70864; 71248; 71360; 71472; 71904; 72016; 72784; 73040; 73120; 92768;
   92864; 93008; 120782; 120792; 120802; 120812; 120822; 123200; 123632;
   125264; 130032]%N.

Definition isdecimal (c : char) : bool :=
  existsb (fun z => between z (z + 9) c) decimal_zeros.

Definition ascii_upper (c : char) : bool := between 65 90 c.
Definition ascii_lower (c : char) : bool := between 97 122 c.
Definition ascii_alpha (c : char) : bool := ascii_upper c || ascii_lower c.

(** The ranges of alphanumeric characters of Unicode 14 (what
    [str.isalnum] accepts): the word characters of [\w] and [\b] are these
    and the underscore. *)
Definition alnum_ranges : list (N * N) :=
  [(48, 57); (65, 90); (97, 122); (170, 170); (178, 179); (181, 181);
   (185, 186); (188, 190); (192, 214); (216, 246); (248, 705); (710, 721);
   (736, 740); (748, 748); (750, 750); (880, 884); (886, 887); (890, 893);
   (895, 895); (902, 902); (904, 906); (908, 908); (910, 929); (931, 1013);
   (1015, 1153); (1162, 1327); (1329, 1366); (1369, 1369); (1376, 1416);
   (1488, 1514); (1519, 1522); (1568, 1610); (1632, 1641); (1646, 1647);
   (1649, 1747); (1749, 1749); (1765, 1766); (1774, 1788); (1791, 1791);
   (1808, 1808); (1810, 1839); (1869, 1957); (1969, 1969); (1984, 2026);
   (2036, 2037); (2042, 2042); (2048, 2069); (2074, 2074); (2084, 2084);
   (2088, 2088); (2112, 2136); (2144, 2154); (2160, 2183); (2185, 2190);
   (2208, 2249); (2308, 2361); (2365, 2365); (2384, 2384); (2392, 2401);
   (2406, 2415); (2417, 2432); (2437, 2444); (2447, 2448); (2451, 2472);
   (2474, 2480); (2482, 2482); (2486, 2489); (2493, 2493); (2510, 2510);
   (2524, 2525); (2527, 2529); (2534, 2545); (2548, 2553); (2556, 2556);
   (2565, 2570); (2575, 2576); (2579, 2600); (2602, 2608); (2610, 2611);
   (2613, 2614); (2616, 2617); (2649, 2652); (2654, 2654); (2662, 2671);
   (2674, 2676); (2693, 2701); (2703, 2705); (2707, 2728); (2730, 2736);
   (2738, 2739); (2741, 2745); (2749, 2749); (2768, 2768); (2784, 2785);
   (2790, 2799); (2809, 2809); (2821, 2828); (2831, 2832); (2835, 2856);
   (2858, 2864); (2866, 2867); (2869, 2873); (2877, 2877); (2908, 2909);
   (2911, 2913); (2918, 2927); (2929, 2935); (2947, 2947); (2949, 2954);
   (2958, 2960); (2962, 2965); (2969, 2970); (2972, 2972); (2974, 2975);
   (2979, 2980); (2984, 2986); (2990, 3001); (3024, 3024); (3046, 3058);
   (3077, 3084); (3086, 3088); (3090, 3112); (3114, 3129); (3133, 3133);
   (3160, 3162); (3165, 3165); (3168, 3169); (3174, 3183); (3192, 3198);
   (3200, 3200); (3205, 3212); (3214, 3216); (3218, 3240); (3242, 3251);
   (3253, 3257); (3261, 3261); (3293, 3294); (3296, 3297); (3302, 3311);
   (3313, 3314); (3332, 3340); (3342, 3344); (3346, 3386); (3389, 3389);
   (3406, 3406); (3412, 3414); (3416, 3425); (3430, 3448); (3450, 3455);
   (3461, 3478); (3482, 3505); (3507, 3515); (3517, 3517); (3520, 3526);
   (3558, 3567); (3585, 3632); (3634, 3635); (3648, 3654); (3664, 3673);
   (3713, 3714); (3716, 3716); (3718, 3722); (3724, 3747); (3749, 3749);
   (3751, 3760); (3762, 3763); (3773, 3773); (3776, 3780); (3782, 3782);
   (3792, 3801); (3804, 3807); (3840, 3840); (3872, 3891); (3904, 3911);
   (3913, 3948); (3976, 3980); (4096, 4138); (4159, 4169); (4176, 4181);
   (4186, 4189); (4193, 4193); (4197, 4198); (4206, 4208); (4213, 4225);
   (4238, 4238); (4240, 4249); (4256, 4293); (4295, 4295); (4301, 4301);
   (4304, 4346); (4348, 4680); (4682, 4685); (4688, 4694); (4696, 4696);
   (4698, 4701); (4704, 4744); (4746, 4749); (4752, 4784); (4786, 4789);
   (4792, 4798); (4800, 4800); (4802, 4805); (4808, 4822); (4824, 4880);
   (4882, 4885); (4888, 4954); (4969, 4988); (4992, 5007); (5024, 5109);
   (5112, 5117); (5121, 5740); (5743, 5759); (5761, 5786); (5792, 5866);
   (5870, 5880); (5888, 5905); (5919, 5937); (5952, 5969); (5984, 5996);
   (5998, 6000); (6016, 6067); (6103, 6103); (6108, 6108); (6112, 6121);
   (6128, 6137); (6160, 6169); (6176, 6264); (6272, 6276); (6279, 6312);
   (6314, 6314); (6320, 6389); (6400, 6430); (6470, 6509); (6512, 6516);
   (6528, 6571); (6576, 6601); (6608, 6618); (6656, 6678); (6688, 6740);
   (6784, 6793); (6800, 6809); (6823, 6823); (6917, 6963); (6981, 6988);
   (6992, 7001); (7043, 7072); (7086, 7141); (7168, 7203); (7232, 7241);
   (7245, 7293); (7296, 7304); (7312, 7354); (7357, 7359); (7401, 7404);
   (7406, 7411); (7413, 7414); (7418, 7418); (7424, 7615); (7680, 7957);
   (7960, 7965); (7968, 8005); (8008, 8013); (8016, 8023); (8025, 8025);
   (8027, 8027); (8029, 8029); (8031, 8061); (8064, 8116); (8118, 8124);
   (8126, 8126); (8130, 8132); (8134, 8140); (8144, 8147); (8150, 8155);
   (8160, 8172); (8178, 8180); (8182, 8188); (8304, 8305); (8308, 8313);
   (8319, 8329); (8336, 8348); (8450, 8450); (8455, 8455); (8458, 8467);
   (8469, 8469); (8473, 8477); (8484, 8484); (8486, 8486); (8488, 8488);
   (8490, 8493); (8495, 8505); (8508, 8511); (8517, 8521); (8526, 8526);
   (8528, 8585); (9312, 9371); (9450, 9471); (10102, 10131); (11264, 11492);
   (11499, 11502); (11506, 11507); (11517, 11517); (11520, 11557);
   (11559, 11559); (11565, 11565); (11568, 11623); (11631, 11631);
   (11648, 11670); (11680, 11686); (11688, 11694); (11696, 11702);
   (11704, 11710); (11712, 11718); (11720, 11726); (11728, 11734);
   (11736, 11742); (11823, 11823); (12293, 12295); (12321, 12329);
   (12337, 12341); (12344, 12348); (12353, 12438); (12445, 12447);
   (12449, 12538); (12540, 12543); (12549, 12591); (12593, 12686);
   (12690, 12693); (12704, 12735); (12784, 12799); (12832, 12841);
   (12872, 12879); (12881, 12895); (12928, 12937); (12977, 12991);
   (13312, 19903); (19968, 42124); (42192, 42237); (42240, 42508);
   (42512, 42539); (42560, 42606); (42623, 42653); (42656, 42735);
   (42775, 42783); (42786, 42888); (42891, 42954); (42960, 42961);
   (42963, 42963); (42965, 42969); (42994, 43009); (43011, 43013);
   (43015, 43018); (43020, 43042); (43056, 43061); (43072, 43123);
   (43138, 43187); (43216, 43225); (43250, 43255); (43259, 43259);
   (43261, 43262); (43264, 43301); (43312, 43334); (43360, 43388);
   (43396, 43442); (43471, 43481); (43488, 43492); (43494, 43518);
   (43520, 43560); (43584, 43586); (43588, 43595); (43600, 43609);
   (43616, 43638); (43642, 43642); (43646, 43695); (43697, 43697);
   (43701, 43702); (43705, 43709); (43712, 43712); (43714, 43714);
   (43739, 43741); (43744, 43754); (43762, 43764); (43777, 43782);
   (43785, 43790); (43793, 43798); (43808, 43814); (43816, 43822);
   (43824, 43866); (43868, 43881); (43888, 44002); (44016, 44025);
   (44032, 55203); (55216, 55238); (55243, 55291); (63744, 64109);
   (64112, 64217); (64256, 64262); (64275, 64279); (64285, 64285);
   (64287, 64296); (64298, 64310); (64312, 64316); (64318, 64318);
   (64320, 64321); (64323, 64324); (64326, 64433); (64467, 64829);
   (64848, 64911); (64914, 64967); (65008, 65019); (65136, 65140);
   (65142, 65276); (65296, 65305); (65313, 65338); (65345, 65370);
   (65382, 65470); (65474, 65479); (65482, 65487); (65490, 65495);
   (65498, 65500); (65536, 65547); (65549, 65574); (65576, 65594);
   (65596, 65597); (65599, 65613); (65616, 65629); (65664, 65786);
   (65799, 65843); (65856, 65912); (65930, 65931); (66176, 66204);
   (66208, 66256); (66273, 66299); (66304, 66339); (66349, 66378);
   (66384, 66421); (66432, 66461); (66464, 66499); (66504, 66511);
   (66513, 66517); (66560, 66717); (66720, 66729); (66736, 66771);
   (66776, 66811); (66816, 66855); (66864, 66915); (66928, 66938);
   (66940, 66954); (66956, 66962); (66964, 66965); (66967, 66977);
   (66979, 66993); (66995, 67001); (67003, 67004); (67072, 67382);
   (67392, 67413); (67424, 67431); (67456, 67461); (67463, 67504);
   (67506, 67514); (67584, 67589); (67592, 67592); (67594, 67637);
   (67639, 67640); (67644, 67644); (67647, 67669); (67672, 67702);
   (67705, 67742); (67751, 67759); (67808, 67826); (67828, 67829);
   (67835, 67867); (67872, 67897); (67968, 68023); (68028, 68047);
   (68050, 68096); (68112, 68115); (68117, 68119); (68121, 68149);
   (68160, 68168); (68192, 68222); (68224, 68255); (68288, 68295);
   (68297, 68324); (68331, 68335); (68352, 68405); (68416, 68437);
   (68440, 68466); (68472, 68497); (68521, 68527); (68608, 68680);
   (68736, 68786); (68800, 68850); (68858, 68899); (68912, 68921);
   (69216, 69246); (69248, 69289); (69296, 69297); (69376, 69415);
   (69424, 69445); (69457, 69460); (69488, 69505); (69552, 69579);
   (69600, 69622); (69635, 69687); (69714, 69743); (69745, 69746);
   (69749, 69749); (69763, 69807); (69840, 69864); (69872, 69881);
   (69891, 69926); (69942, 69951); (69956, 69956); (69959, 69959);
   (69968, 70002); (70006, 70006); (70019, 70066); (70081, 70084);
   (70096, 70106); (70108, 70108); (70113, 70132); (70144, 70161);
   (70163, 70187); (70272, 70278); (70280, 70280); (70282, 70285);
   (70287, 70301); (70303, 70312); (70320, 70366); (70384, 70393);
   (70405, 70412); (70415, 70416); (70419, 70440); (70442, 70448);
   (70450, 70451); (70453, 70457); (70461, 70461); (70480, 70480);
   (70493, 70497); (70656, 70708); (70727, 70730); (70736, 70745);
   (70751, 70753); (70784, 70831); (70852, 70853); (70855, 70855);
   (70864, 70873); (71040, 71086); (71128, 71131); (71168, 71215);
   (71236, 71236); (71248, 71257); (71296, 71338); (71352, 71352);
   (71360, 71369); (71424, 71450); (71472, 71483); (71488, 71494);
   (71680, 71723); (71840, 71922); (71935, 71942); (71945, 71945);
   (71948, 71955); (71957, 71958); (71960, 71983); (71999, 71999);
   (72001, 72001); (72016, 72025); (72096, 72103); (72106, 72144);
   (72161, 72161); (72163, 72163); (72192, 72192); (72203, 72242);
   (72250, 72250); (72272, 72272); (72284, 72329); (72349, 72349);
   (72368, 72440); (72704, 72712); (72714, 72750); (72768, 72768);
   (72784, 72812); (72818, 72847); (72960, 72966); (72968, 72969);
   (72971, 73008); (73030, 73030); (73040, 73049); (73056, 73061);
   (73063, 73064); (73066, 73097); (73112, 73112); (73120, 73129);
   (73440, 73458); (73648, 73648); (73664, 73684); (73728, 74649);
   (74752, 74862); (74880, 75075); (77712, 77808); (77824, 78894);
   (82944, 83526); (92160, 92728); (92736, 92766); (92768, 92777);
   (92784, 92862); (92864, 92873); (92880, 92909); (92928, 92975);
   (92992, 92995); (93008, 93017); (93019, 93025); (93027, 93047);
   (93053, 93071); (93760, 93846); (93952, 94026); (94032, 94032);
   (94099, 94111); (94176, 94177); (94179, 94179); (94208, 100343);
   (100352, 101589); (101632, 101640); (110576, 110579); (110581, 110587);
   (110589, 110590); (110592, 110882); (110928, 110930); (110948, 110951);
   (110960, 111355); (113664, 113770); (113776, 113788); (113792, 113800);
   (113808, 113817); (119520, 119539); (119648, 119672); (119808, 119892);
   (119894, 119964); (119966, 119967); (119970, 119970); (119973, 119974);
   (119977, 119980); (119982, 119993); (119995, 119995); (119997, 120003);
   (120005, 120069); (120071, 120074); (120077, 120084); (120086, 120092);
   (120094, 120121); (120123, 120126); (120128, 120132); (120134, 120134);
   (120138, 120144); (120146, 120485); (120488, 120512); (120514, 120538);
   (120540, 120570); (120572, 120596); (120598, 120628); (120630, 120654);
   (120656, 120686); (120688, 120712); (120714, 120744); (120746, 120770);
   (120772, 120779); (120782, 120831); (122624, 122654); (123136, 123180);
   (123191, 123197); (123200, 123209); (123214, 123214); (123536, 123565);
   (123584, 123627); (123632, 123641); (124896, 124902); (124904, 124907);
   (124909, 124910); (124912, 124926); (124928, 125124); (125127, 125135);
   (125184, 125251); (125259, 125259); (125264, 125273); (126065, 126123);
   (126125, 126127); (126129, 126132); (126209, 126253); (126255, 126269);
   (126464, 126467); (126469, 126495); (126497, 126498); (126500, 126500);
   (126503, 126503); (126505, 126514); (126516, 126519); (126521, 126521);
   (126523, 126523); (126530, 126530); (126535, 126535); (126537, 126537);
   (126539, 126539); (126541, 126543); (126545, 126546); (126548, 126548);
   (126551, 126551); (126553, 126553); (126555, 126555); (126557, 126557);
   (126559, 126559); (126561, 126562); (126564, 126564); (126567, 126570);
   (126572, 126578); (126580, 126583); (126585, 126588); (126590, 126590);
   (126592, 126601); (126603, 126619); (126625, 126627); (126629, 126633);
   (126635, 126651); (127232, 127244); (130032, 130041); (131072, 173791);
   (173824, 177976); (177984, 178205); (178208, 183969); (183984, 191456);
   (194560, 195101); (196608, 201546)]%N.

Definition isalnum (c : char) : bool :=
  existsb (fun r => between (fst r) (snd r) c) alnum_ranges.

Definition isword (c : char) : bool := isalnum c || (c =? 95)%N.

(** [str.lower], on ASCII letters.  No other character lower-cases to a
    dot, a slash or a letter of [pdf] and [docx], so the extension test of
    [parse_cv] sees the same as in Python. *)
Definition lower_char (c : char) : char :=
  if ascii_upper c then (c + 32)%N else c.
Definition lower (s : str) : str := map lower_char s.

(** [str.isupper], ASCII letters being the cased characters: no lower-case
    letter and at least one upper-case one. *)
Definition isupper (s : str) : bool :=
  forallb (fun c => negb (ascii_lower c)) s && existsb ascii_upper s.

(** [str.strip()]. *)
Fixpoint lstrip (s : str) : str :=
  match s with
  | c :: t => if isspace c then lstrip t else s
  | [] => []
  end.
Definition rstrip (s : str) : str := rev (lstrip (rev s)).
Definition strip (s : str) : str := rstrip (lstrip s).

(** Truth value of a string: [if s:]. *)
Definition truthy (s : str) : bool :=
  match s with [] => false | _ => true end.

(** [s[i:j]] for [0 <= i <= j]. *)
Definition slice (s : str) (i j : nat) : str := firstn (j - i) (skipn i s).

(** [s.startswith(p)] and [p in s]. *)
Fixpoint starts_with (p s : str) : bool :=
  match p, s with
  | [], _ => true
  | x :: p', y :: s' => (x =? y)%N && starts_with p' s'
  | _ :: _, [] => false
  end.

Fixpoint contains (p s : str) : bool :=
  starts_with p s || match s with [] => false | _ :: t => contains p t end.

(** [sep.join(parts)]. *)
Fixpoint join (sep : str) (parts : list str) : str :=
  match parts with
  | [] => []
  | [p] => p
  | p :: rest => p ++ sep ++ join sep rest
  end.

(** Order of [str]: lexicographic on code points. *)
Fixpoint str_ltb (a b : str) : bool :=
  match a, b with
  | [], [] => false
  | [], _ :: _ => true
  | _ :: _, [] => false
  | x :: a', y :: b' => (x <? y)%N || ((x =? y)%N && str_ltb a' b')
  end.
Definition str_leb (a b : str) : bool := negb (str_ltb b a).

(** [set.add] on a set kept as a duplicate-free list. *)
Definition set_add (x : str) (s : list str) : list str :=
  if existsb (str_eqb x) s then s else s ++ [x].

(** [sorted(xs)], by insertion.  The order in which Python iterates a
    set does not show in the result ([sorted_order_free] below). *)
Fixpoint insert_sorted (x : str) (l : list str) : list str :=
  match l with
  | [] => [x]
  | y :: t => if str_leb x y then x :: l else y :: insert_sorted x t
  end.
Definition sorted (l : list str) : list str := fold_right insert_sorted [] l.

End Py.
Export Py.

(** * Exceptions *)

Module Exn.

Inductive exn_class :=
| FileNotFoundError
| ValueError
| AttributeError
| Exception                       (* the base class itself *)
| OtherError (name : str).        (* any other subclass of [Exception] *)

(** An exception object: its class and what [str(e)] returns. *)
Record exn := Exn { exn_class_of : exn_class; exn_str : str }.

Inductive result (A : Type) :=
| Ok (a : A)
| Raise (e : exn).
Arguments Ok {A} a.
Arguments Raise {A} e.

Definition bind {A B} (m : result A) (f : A -> result B) : result B :=
  match m with
  | Ok a => f a
  | Raise e => Raise e
  end.

Definition raises {A} (m : result A) : bool :=
  match m with Ok _ => false | Raise _ => true end.

(** [x.strip()] where [x] is a string or [None]. *)
Definition none_has_no_strip : exn :=
  Exn AttributeError (py "'NoneType' object has no attribute 'strip'").

Definition strip_of (x : option str) : result str :=
  match x with
  | Some s => Ok (strip s)
  | None => Raise none_has_no_strip
  end.

End Exn.
Export Exn.

Declare Scope result_scope.
Delimit Scope result_scope with result.
Notation "x <- m ;; k" := (bind m (fun x => k))
  (at level 61, m at next level, right associativity) : result_scope.
Open Scope result_scope.

(** * The [re] module *)

Module Re.

Inductive regex :=
| Eps
| Chr (p : char -> bool)                       (* one character passing [p] *)
| Seq (r1 r2 : regex)
| Alt (r1 r2 : regex)                          (* [r1|r2], [r1] first *)
| Rep (greedy : bool) (lo : nat) (hi : option nat) (r : regex)
| Grp (n : nat) (r : regex)                    (* capturing group number [n] *)
| Ahead (r : regex)                            (* [(?=r)] *)
| Behind (w : nat) (r : regex)                 (* [(?<=r)], [r] of width [w] *)
| Bol                                          (* [^] *)
| Eol                                          (* [$] *)
| EndZ                                         (* [\Z] *)
| WordB.                                       (* [\b] *)

(** The state of a match attempt: the subject split at the current
    position (what lies before it, nearest character first, and what lies
    after it) and the spans of the groups closed so far, latest first. *)
Record mstate := MState {
  before : str;
  after : str;
  caps : list (nat * (nat * nat))
}.

Definition pos (st : mstate) : nat := length (before st).

Definition set_caps (c : list (nat * (nat * nat))) (st : mstate) : mstate :=
  MState (before st) (after st) c.

Definition close_group (n start : nat) (st : mstate) : mstate :=
  set_caps ((n, (start, pos st)) :: caps st) st.

Fixpoint retreat (w : nat) (bef aft : str) : option (str * str) :=
  match w with
  | 0 => Some (bef, aft)
  | S w' =>
    match bef with
    | c :: bef' => retreat w' bef' (c :: aft)
    | [] => None
    end
  end.

Definition cont := mstate -> option mstate.

Definition orelse (a : option mstate) (b : unit -> option mstate) : option mstate :=
  match a with
  | Some x => Some x
  | None => b tt
  end.

Definition below (count : nat) (hi : option nat) : bool :=
  match hi with
  | Some h => count <? h
  | None => true
  end.

(** Repetition of [body] between [lo] and [hi] times, then [k].  A greedy
    repetition tries one more round before it tries to stop, a lazy one the
    other way round.  A round has to consume something (every repeated
    pattern of this program consumes at least one character), so the rounds
    left never exceed the characters left, which [fuel] starts from. *)
Fixpoint rep_loop (body : mstate -> cont -> option mstate) (greedy : bool)
    (lo : nat) (hi : option nat) (k : cont) (fuel count : nat) (st : mstate)
    : option mstate :=
  match fuel with
  | 0 => None
  | S fuel' =>
    let more := fun _ : unit =>
      if below count hi then
        body st (fun st' =>
          if pos st <? pos st'
          then rep_loop body greedy lo hi k fuel' (S count) st'
          else None)
      else None in
    let stop := fun _ : unit => if lo <=? count then k st else None in
    if greedy then orelse (more tt) stop else orelse (stop tt) more
  end.

(** [\b]: a word character on one side only. *)
Definition at_boundary (st : mstate) : bool :=
  let that := match before st with c :: _ => isword c | [] => false end in
  let this := match after st with c :: _ => isword c | [] => false end in
  xorb that this.

(** The backtracking matcher: [rmatch r st k] matches [r] at [st] and hands
    the state reached to the continuation [k]; the first way that makes [k]
    succeed wins. *)
Fixpoint rmatch (r : regex) (st : mstate) (k : cont) {struct r} : option mstate :=
  match r with
  | Eps => k st
  | Chr p =>
    match after st with
    | c :: rest => if p c then k (MState (c :: before st) rest (caps st)) else None
    | [] => None
    end
  | Seq r1 r2 => rmatch r1 st (fun st1 => rmatch r2 st1 k)
  | Alt r1 r2 => orelse (rmatch r1 st k) (fun _ => rmatch r2 st k)
  | Rep greedy lo hi r1 =>
    rep_loop (rmatch r1) greedy lo hi k (S (length (after st))) 0 st
  | Grp n r1 => rmatch r1 st (fun st1 => k (close_group n (pos st) st1))
  | Ahead r1 =>
    match rmatch r1 st Some with
    | Some st1 => k (set_caps (caps st1) st)
    | None => None
    end
  | Behind w r1 =>
    match retreat w (before st) (after st) with
    | Some (bef, aft) =>
      match rmatch r1 (MState bef aft (caps st)) Some with
      | Some st1 => k (set_caps (caps st1) st)
      | None => None
      end
    | None => None
    end
  | Bol => match before st with [] => k st | _ => None end
  | Eol =>
    match after st with
    | [] => k st
    | [c] => if (c =? LF)%N then k st else None
    | _ => None
    end
  | EndZ => match after st with [] => k st | _ => None end
  | WordB => if at_boundary st then k st else None
  end.

(** A match object: the subject, the span of the whole match and the spans
    of the groups. *)
Record match_obj := Match {
  m_string : str;
  m_start : nat;
  m_end : nat;
  m_caps : list (nat * (nat * nat))
}.

Fixpoint lookup (n : nat) (c : list (nat * (nat * nat))) : option (nat * nat) :=
  match c with
  | [] => None
  | (i, span) :: t => if i =? n then Some span else lookup n t
  end.

(** [m.group(n)]: [None] when the group took no part in the match. *)
Definition group (m : match_obj) (n : nat) : option str :=
  match n with
  | 0 => Some (slice (m_string m) (m_start m) (m_end m))
  | _ =>
    match lookup n (m_caps m) with
    | Some (i, j) => Some (slice (m_string m) i j)
    | None => None
    end
  end.

Definition group0 (m : match_obj) : str := slice (m_string m) (m_start m) (m_end m).

(** The scan of [re.search]: the first position from which the pattern
    matches.  With [must_advance] an empty match at the very first position
    is not accepted (the rule [split] and [sub] apply after an empty
    match). *)
Fixpoint scan (r : regex) (must_advance : bool) (bef aft : str)
    : option (nat * mstate) :=
  let st := MState bef aft [] in
  match rmatch r st (fun st' =>
          if must_advance && (pos st' =? pos st) then None else Some st') with
  | Some st' => Some (pos st, st')
  | None =>
    match aft with
    | [] => None
    | c :: aft' => scan r false (c :: bef) aft'
    end
  end.

(** [re.search(r, s)] *)
Definition search (r : regex) (s : str) : option match_obj :=
  match scan r false [] s with
  | Some (start, st) => Some (Match s start (pos st) (caps st))
  | None => None
  end.

(** Number of capturing groups of a pattern. *)
Fixpoint ngroups (r : regex) : nat :=
  match r with
  | Seq r1 r2 | Alt r1 r2 => Nat.max (ngroups r1) (ngroups r2)
  | Rep _ _ _ r1 | Ahead r1 | Behind _ r1 => ngroups r1
  | Grp n r1 => Nat.max n (ngroups r1)
  | _ => 0
  end.

Definition groups (r : regex) (m : match_obj) : list (option str) :=
  map (group m) (seq 1 (ngroups r)).

(** [re.split(r, s)]: the pieces between the matches and, after each piece
    but the last, the groups of the match that ended it, [None] for a group
    that took no part. *)
Fixpoint split_loop (r : regex) (s : str) (fuel : nat) (must_advance : bool)
    (bef aft : str) (last : nat) : list (option str) :=
  match fuel with
  | 0 => [Some (slice s last (length s))]
  | S fuel' =>
    match scan r must_advance bef aft with
    | None => [Some (slice s last (length s))]
    | Some (start, st) =>
      Some (slice s last start)
        :: groups r (Match s start (pos st) (caps st))
        ++ split_loop r s fuel' (pos st =? start) (before st) (after st) (pos st)
    end
  end.

Definition split (r : regex) (s : str) : list (option str) :=
  split_loop r s (2 * length s + 2) false [] s 0.

(** [re.sub(r, repl, s)] for a replacement without back-references. *)
Fixpoint sub_loop (r : regex) (repl s : str) (fuel : nat) (must_advance : bool)
    (bef aft : str) (last : nat) : str :=
  match fuel with
  | 0 => slice s last (length s)
  | S fuel' =>
    match scan r must_advance bef aft with
    | None => slice s last (length s)
    | Some (start, st) =>
      slice s last start ++ repl
        ++ sub_loop r repl s fuel' (pos st =? start) (before st) (after st) (pos st)
    end
  end.

Definition sub (r : regex) (repl s : str) : str :=
  sub_loop r repl s (2 * length s + 2) false [] s 0.

(** ** Pattern syntax *)

Definition exactly (c : char) : char -> bool := N.eqb c.
Definition oneof (s : str) (c : char) : bool := existsb (N.eqb c) s.
Definition noneof (s : str) (c : char) : bool := negb (oneof s c).
Definition any (_ : char) : bool := true.                    (* [.] with DOTALL *)
Definition dot (c : char) : bool := negb (c =? LF)%N.        (* [.] *)
Definition either (p q : char -> bool) (c : char) : bool := p c || q c.

(** A letter of a pattern compiled with [(?i)]: both cases of the letter
    and the characters the Unicode database folds onto it (dotted and
    dotless i, long s, the Kelvin sign). *)
Definition folds_to (l : char) : list char :=
  if (l =? 105)%N then [304; 305]%N
  else if (l =? 115)%N then [383]%N
  else if (l =? 107)%N then [8490]%N
  else [].

Definition ci (p : char) (c : char) : bool :=
  let l := lower_char p in
  if ascii_lower l
  then (c =? l)%N || (c =? l - 32)%N || existsb (N.eqb c) (folds_to l)
  else (c =? p)%N.

(** [[A-Za-z]] under [(?i)]. *)
Definition ci_alpha (c : char) : bool :=
  ascii_alpha c || existsb (N.eqb c) [304; 305; 383; 8490]%N.

Fixpoint lit_with (f : char -> char -> bool) (s : str) : regex :=
  match s with
  | [] => Eps
  | [c] => Chr (f c)
  | c :: t => Seq (Chr (f c)) (lit_with f t)
  end.

Definition lit (s : string) : regex := lit_with exactly (py s).
Definition ilit (s : string) : regex := lit_with ci (py s).

Definition star (r : regex) : regex := Rep true 0 None r.
Definition plus (r : regex) : regex := Rep true 1 None r.
Definition opt (r : regex) : regex := Rep true 0 (Some 1) r.
Definition lazy_star (r : regex) : regex := Rep false 0 None r.
Definition times (n : nat) (r : regex) : regex := Rep true n (Some n) r.
Definition at_least (n : nat) (r : regex) : regex := Rep true n None r.
Definition upto (lo hi : nat) (r : regex) : regex := Rep true lo (Some hi) r.

End Re.

Declare Scope regex_scope.
Delimit Scope regex_scope with re.
Bind Scope regex_scope with Re.regex.
Notation "r1 ;; r2" := (Re.Seq r1 r2)
  (at level 61, right associativity) : regex_scope.
Notation "r1 <|> r2" := (Re.Alt r1 r2)
  (at level 62, right associativity) : regex_scope.

(** * The parser: [class CVParser] *)

Module CVParser.
Import Re.
Local Open Scope regex_scope.

(** ** Data *)

Record Education := { degree : str; institution : str; year : str }.

Record Experience := {
  company : str;
  position : str;
  dates : str;
  description : str
}.

Record Contact := { email : str; phone : str; linkedin : str; location : str }.

Record Additional := { certifications : list str; languages : list str }.

(** The dictionary [extract_information] builds. *)
Record ParsedData := {
  skills : list str;
  education : list Education;
  experience : list Experience;
  contact : Contact;
  additional : Additional
}.

(** The object: [parsed_data] is [None] for the empty dictionary of
    [__init__]. *)
Record CVParser := {
  extracted_text : str;
  parsed_data : option ParsedData
}.

Definition __init__ : CVParser :=
  {| extracted_text := []; parsed_data := None |}.

(** A parser that has read [text]. *)
Definition reading (text : string) : CVParser :=
  {| extracted_text := py text; parsed_data := None |}.

(** ** Loops and dynamic values *)

(** [for x in xs: body], the body updating an accumulator; an exception
    leaves the loop. *)
Fixpoint for_each {A S : Type} (xs : list A) (acc : S)
    (body : S -> A -> result S) : result S :=
  match xs with
  | [] => Ok acc
  | x :: rest => acc' <- body acc x ;; for_each rest acc' body
  end.

Definition type_error : exn :=
  Exn (OtherError (py "TypeError")) (py "expected string or bytes-like object").

(** [re.split(r, x)] where [x] is what [m.group(n)] returned. *)
Definition split_of (r : regex) (x : option str) : result (list (option str)) :=
  match x with
  | Some s => Ok (split r s)
  | None => Raise type_error
  end.

(** [m.group(0) if m else ''] *)
Definition group0_or_empty (m : option match_obj) : str :=
  match m with
  | Some m => group0 m
  | None => []
  end.

(** ** Patterns *)

(** [(?i)(heading)[:\n](.*?)(?:\n\n|\Z)] with [re.DOTALL]: the shape of
    every section pattern. *)
Definition section_after (heading : regex) : regex :=
  Grp 1 heading ;; Chr (oneof (py ":\n")) ;; Grp 2 (lazy_star (Chr any))
    ;; (lit "\n\n" <|> EndZ).

Definition digit : regex := Chr isdecimal.                  (* [\d] *)
Definition space : regex := Chr isspace.                    (* [\s] *)
Definition century : regex := lit "19" <|> lit "20".        (* [19|20] *)

(** [skills_patterns] *)
Definition skills_patterns : list regex :=
  [ section_after (ilit "SKILLS" <|> ilit "TECHNICAL SKILLS"
                   <|> ilit "CORE COMPETENCIES" <|> ilit "EXPERTISE"
                   <|> ilit "QUALIFICATIONS");
    section_after (ilit "TECHNOLOGIES" <|> ilit "TOOLS" <|> ilit "SOFTWARE") ].

(** [[,•|/\n]] *)
Definition skills_separator : regex := Chr (oneof (py ",•|/\n")).

(** [(?i)(EDUCATION|ACADEMIC|QUALIFICATIONS)[:\n](.*?)(?:\n\n|\Z)] *)
Definition education_pattern : regex :=
  section_after (ilit "EDUCATION" <|> ilit "ACADEMIC" <|> ilit "QUALIFICATIONS").

(** [\n(?=[A-Z])] *)
Definition education_separator : regex :=
  lit "\n" ;; Ahead (Chr ascii_upper).

(** [(?i)(B\.?S\.?|M\.?S\.?|Ph\.?D\.?|Bachelor'?s?|Master'?s?|Doctorate|MBA|BE|ME|MTech|BTech).*?(?=\n|$)] *)
Definition degree_pattern : regex :=
  Grp 1 (ilit "B" ;; opt (lit ".") ;; ilit "S" ;; opt (lit ".")
         <|> ilit "M" ;; opt (lit ".") ;; ilit "S" ;; opt (lit ".")
         <|> ilit "Ph" ;; opt (lit ".") ;; ilit "D" ;; opt (lit ".")
         <|> ilit "Bachelor" ;; opt (lit "'") ;; opt (ilit "s")
         <|> ilit "Master" ;; opt (lit "'") ;; opt (ilit "s")
         <|> ilit "Doctorate" <|> ilit "MBA" <|> ilit "BE" <|> ilit "ME"
         <|> ilit "MTech" <|> ilit "BTech")
    ;; lazy_star (Chr dot) ;; Ahead (lit "\n" <|> Eol).

(** [(19|20)\d{2}(?:\s*-\s*(19|20)\d{2})?] *)
Definition year_pattern : regex :=
  Grp 1 century ;; times 2 digit
    ;; opt (star space ;; lit "-" ;; star space ;; Grp 2 century ;; times 2 digit).

(** [(19|20)\d{2}.*$] *)
Definition year_to_end : regex :=
  Grp 1 century ;; times 2 digit ;; star (Chr dot) ;; Eol.

(** [(?i)(EXPERIENCE|WORK EXPERIENCE|EMPLOYMENT|PROFESSIONAL EXPERIENCE)[:\n](.*?)(?:\n\n|\Z)] *)
Definition experience_pattern : regex :=
  section_after (ilit "EXPERIENCE" <|> ilit "WORK EXPERIENCE"
                 <|> ilit "EMPLOYMENT" <|> ilit "PROFESSIONAL EXPERIENCE").

(** [[A-Z][a-z]+ \d{4}] and [[A-Z][a-z]+ (19|20)\d{2}] *)
Definition word_and_digits : regex :=
  Chr ascii_upper ;; plus (Chr ascii_lower) ;; lit " " ;; times 4 digit.
Definition word_and_year : regex :=
  Chr ascii_upper ;; plus (Chr ascii_lower) ;; lit " "
    ;; Grp 1 century ;; times 2 digit.

(** [\n(?=[A-Z][a-z]+ \d{4}|[A-Z][a-z]+ (19|20)\d{2})] *)
Definition experience_separator : regex :=
  lit "\n" ;; Ahead (word_and_digits <|> word_and_year).

(** [^([^,\n])+] *)
Definition company_pattern : regex :=
  Bol ;; plus (Grp 1 (Chr (noneof (py ",\n")))).

(** [(?<=,\s)([^,\n])+] *)
Definition position_pattern : regex :=
  Behind 2 (lit "," ;; space) ;; plus (Grp 1 (Chr (noneof (py ",\n")))).

(** [(?:Jan|Feb|Mar|Apr|May|Jun|Jul|Aug|Sep|Oct|Nov|Dec)[a-z]* (?:19|20)\d{2}] *)
Definition month_year : regex :=
  (lit "Jan" <|> lit "Feb" <|> lit "Mar" <|> lit "Apr" <|> lit "May"
   <|> lit "Jun" <|> lit "Jul" <|> lit "Aug" <|> lit "Sep" <|> lit "Oct"
   <|> lit "Nov" <|> lit "Dec")
    ;; star (Chr ascii_lower) ;; lit " " ;; century ;; times 2 digit.

(** [(month_year\s*(?:-|–|to)\s*month_year|Present)] *)
Definition dates_pattern : regex :=
  Grp 1 (month_year ;; star space ;; (lit "-" <|> lit "–" <|> lit "to")
           ;; star space ;; month_year
         <|> lit "Present").

(** [^.*\n] *)
Definition first_line : regex := Bol ;; star (Chr dot) ;; lit "\n".

Definition ascii_alnum (c : char) : bool := ascii_alpha c || between 48 57 c.

(** [\b[A-Za-z0-9._%+-]+@[A-Za-z0-9.-]+\.[A-Z|a-z]{2,}\b] *)
Definition email_pattern : regex :=
  WordB ;; plus (Chr (either ascii_alnum (oneof (py "._%+-")))) ;; lit "@"
    ;; plus (Chr (either ascii_alnum (oneof (py ".-")))) ;; lit "."
    ;; at_least 2 (Chr (either ascii_alpha (exactly 124%N))) ;; WordB.

(** [[-.\s]?] *)
Definition phone_gap : regex := opt (Chr (either (oneof (py "-.")) isspace)).

(** The verbose pattern of the phone number:
    [(?:(?:\+\d{1,3}[-.\s]?)?\(?(?:\d{3})\)?[-.\s]?\d{3}[-.\s]?\d{4}|\d{4}[-.\s]?\d{3}[-.\s]?\d{3})] *)
Definition phone_pattern : regex :=
  opt (lit "+" ;; upto 1 3 digit ;; phone_gap)
    ;; opt (lit "(") ;; times 3 digit ;; opt (lit ")") ;; phone_gap
    ;; times 3 digit ;; phone_gap ;; times 4 digit
  <|> times 4 digit ;; phone_gap ;; times 3 digit ;; phone_gap ;; times 3 digit.

(** [(?:https?:)?\/\/(?:[\w]+\.)?linkedin\.com\/in\/[\w\-\_À-ÿ%]+\/?] *)
Definition linkedin_pattern : regex :=
  opt (lit "http" ;; opt (lit "s") ;; lit ":") ;; lit "//"
    ;; opt (plus (Chr isword) ;; lit ".") ;; lit "linkedin.com/in/"
    ;; plus (Chr (either isword (either (oneof (py "-_%")) (between 192 255))))
    ;; opt (lit "/").

(** [(?i)(?:^|\n)([A-Za-z\s,]+(?:,\s*[A-Za-z\s]+)){1,2}(?=\n|$)] *)
Definition location_pattern : regex :=
  (Bol <|> lit "\n")
    ;; upto 1 2 (Grp 1 (plus (Chr (either ci_alpha (either isspace (exactly 44%N))))
                        ;; lit "," ;; star space
                        ;; plus (Chr (either ci_alpha isspace))))
    ;; Ahead (lit "\n" <|> Eol).

(** [(?i)(CERTIFICATIONS?|CERTIFICATES?)[:\n](.*?)(?:\n\n|\Z)] *)
Definition cert_pattern : regex :=
  section_after (ilit "CERTIFICATION" ;; opt (ilit "S")
                 <|> ilit "CERTIFICATE" ;; opt (ilit "S")).

(** [[\n•]] *)
Definition cert_separator : regex := Chr (oneof (py "\n•")).

(** [(?i)(LANGUAGES?)[:\n](.*?)(?:\n\n|\Z)] *)
Definition lang_pattern : regex :=
  section_after (ilit "LANGUAGE" ;; opt (ilit "S")).

(** [[,•\n]] *)
Definition lang_separator : regex := Chr (oneof (py ",•\n")).

(** ** The field extractors *)

(** [extract_skills] *)
Definition add_skill (skills_set : list str) (skill : option str)
    : result (list str) :=
  cleaned_skill <- strip_of skill ;;
  if truthy cleaned_skill && (1 <? length cleaned_skill)
  then Ok (set_add cleaned_skill skills_set)
  else Ok skills_set.

Definition add_skills_of (text : str) (skills_set : list str) (pattern : regex)
    : result (list str) :=
  match search pattern text with
  | Some skills_match =>
    let skills_text := group skills_match 2 in
    skills <- split_of skills_separator skills_text ;;
    for_each skills skills_set add_skill
  | None => Ok skills_set
  end.

Definition extract_skills (self : CVParser) : result (list str) :=
  skills_set <- for_each skills_patterns [] (add_skills_of (extracted_text self)) ;;
  Ok (sorted skills_set).

(** [extract_education] *)
Definition education_entry (entry : str) : Education :=
  let degree_match := search degree_pattern entry in
  let year_match := search year_pattern entry in
  {| degree := match degree_match with
               | Some m => strip (group0 m)
               | None => []
               end;
     institution := strip (sub year_to_end [] entry);
     year := group0_or_empty year_match |}.

Definition add_education (parsed_education : list Education) (entry : option str)
    : result (list Education) :=
  stripped <- strip_of entry ;;
  match entry with
  | Some entry =>
    if truthy stripped
    then Ok (parsed_education ++ [education_entry entry])
    else Ok parsed_education
  | None => Ok parsed_education
  end.

Definition extract_education (self : CVParser) : result (list Education) :=
  match search education_pattern (extracted_text self) with
  | None => Ok []
  | Some education_match =>
    let education_text := group education_match 2 in
    education_entries <- split_of education_separator education_text ;;
    for_each education_entries [] add_education
  end.

(** [extract_experience] *)
Definition experience_entry (entry : str) : Experience :=
  let company_match := search company_pattern entry in
  let position_match := search position_pattern entry in
  let dates_match := search dates_pattern entry in
  let description := strip (sub first_line [] entry) in
  {| company := match company_match with
                | Some m => strip (group0 m)
                | None => []
                end;
     position := match position_match with
                 | Some m => strip (group0 m)
                 | None => []
                 end;
     dates := group0_or_empty dates_match;
     description := description |}.

Definition add_experience (parsed_experience : list Experience)
    (entry : option str) : result (list Experience) :=
  stripped <- strip_of entry ;;
  match entry with
  | Some entry =>
    if truthy stripped
    then Ok (parsed_experience ++ [experience_entry entry])
    else Ok parsed_experience
  | None => Ok parsed_experience
  end.

Definition extract_experience (self : CVParser) : result (list Experience) :=
  match search experience_pattern (extracted_text self) with
  | None => Ok []
  | Some experience_match =>
    let experience_text := group experience_match 2 in
    experience_entries <- split_of experience_separator experience_text ;;
    for_each experience_entries [] add_experience
  end.

(** [extract_contact_info] *)
Definition extract_contact_info (self : CVParser) : result Contact :=
  let email := search email_pattern (extracted_text self) in
  let phone := search phone_pattern (extracted_text self) in
  let linkedin := search linkedin_pattern (extracted_text self) in
  let location := search location_pattern (extracted_text self) in
  Ok {| email := group0_or_empty email;
        phone := group0_or_empty phone;
        linkedin := group0_or_empty linkedin;
        location := match location with
                    | Some m => strip (group0 m)
                    | None => []
                    end |}.

(** [extract_additional_info]: [[x.strip() for x in xs if x.strip()]] *)
Definition add_stripped (items : list str) (item : option str) : result (list str) :=
  test <- strip_of item ;;
  if truthy test
  then (stripped <- strip_of item ;; Ok (items ++ [stripped]))
  else Ok items.

Definition section_items (pattern separator : regex) (text : str)
    : result (list str) :=
  match search pattern text with
  | Some section_match =>
    let section_text := group section_match 2 in
    pieces <- split_of separator section_text ;;
    for_each pieces [] add_stripped
  | None => Ok []
  end.

Definition extract_additional_info (self : CVParser) : result Additional :=
  certifications <- section_items cert_pattern cert_separator (extracted_text self) ;;
  languages <- section_items lang_pattern lang_separator (extracted_text self) ;;
  Ok {| certifications := certifications; languages := languages |}.

(** ** The aggregator *)

(** The dictionary display of [extract_information]: its values are
    evaluated in the order written, and the first exception leaves it. *)
Definition build_parsed_data (skills : result (list str))
    (education : result (list Education))
    (experience : result (list Experience))
    (contact : result Contact) (additional : result Additional)
    : result ParsedData :=
  s <- skills ;;
  ed <- education ;;
  ex <- experience ;;
  c <- contact ;;
  a <- additional ;;
  Ok {| skills := s; education := ed; experience := ex;
        contact := c; additional := a |}.

(** [extract_information]: the object with [parsed_data] assigned. *)
Definition extract_information (self : CVParser) : result CVParser :=
  data <- build_parsed_data (extract_skills self) (extract_education self)
            (extract_experience self) (extract_contact_info self)
            (extract_additional_info self) ;;
  Ok {| extracted_text := extracted_text self; parsed_data := Some data |}.

(** ** Reading the file *)

(** [os.path.splitext] of [posixpath]: the extension starts at the last dot
    of the last component, unless only dots come before it there. *)
Fixpoint rfind_from (c : char) (s : str) (i : nat) (found : option nat)
    : option nat :=
  match s with
  | [] => found
  | x :: t => rfind_from c t (S i) (if (x =? c)%N then Some i else found)
  end.

(** [s.rfind(c)], [None] for [-1]. *)
Definition rfind (c : char) (s : str) : option nat := rfind_from c s 0 None.

Definition splitext (p : str) : str * str :=
  let filenameIndex := match rfind 47%N p with Some i => S i | None => 0 end in
  match rfind 46%N p with
  | Some dotIndex =>
    if (filenameIndex <=? dotIndex)
       && existsb (fun c => negb (c =? 46)%N) (slice p filenameIndex dotIndex)
    then (firstn dotIndex p, skipn dotIndex p)
    else (p, [])
  | None => (p, [])
  end.

(** What [python-docx] shows of a document: the text of its paragraphs and,
    for every table, the text of the cells of each row. *)
Record Docx := {
  paragraphs : list str;
  tables : list (list (list str))
}.

(** The world outside: the file system and the two decoders, each of which
    returns or raises. *)
Record World := {
  os_path_exists : str -> bool;
  pdf_extract_text : str -> result str;
  docx_Document : str -> result Docx
}.

(** The calls made to it. *)
Inductive call :=
| OsPathExists (path : str)
| PdfExtractText (path : str)
| DocxDocument (path : str).

Definition is_decoder_call (c : call) : bool :=
  match c with
  | OsPathExists _ => false
  | _ => true
  end.

(** [_extract_docx_text] *)
Definition paragraph_lines (text : str) : list str :=
  if truthy (strip text)
  then (if isupper text then [text ++ py "\n"] else [text])
  else [].

Definition row_lines (cells : list str) : list str :=
  let row_text :=
    join (py " | ") (map strip (filter (fun cell => truthy (strip cell)) cells)) in
  if truthy row_text then [row_text] else [].

Definition docx_text (doc : Docx) : str :=
  let full_text :=
    flat_map paragraph_lines (paragraphs doc)
    ++ flat_map (flat_map row_lines) (tables doc) in
  join (py "\n") full_text.

Definition _extract_docx_text (w : World) (file_path : str) : result str :=
  doc <- docx_Document w file_path ;;
  Ok (docx_text doc).

(** What a call of [parse_cv] leaves behind: what it returned or raised,
    the object, and the calls it made, in order. *)
Record outcome := {
  returned : result (option ParsedData);
  self_after : CVParser;
  calls : list call
}.

Definition with_text (text : str) (self : CVParser) : CVParser :=
  {| extracted_text := text; parsed_data := parsed_data self |}.

Definition file_not_found (file_path : str) : exn :=
  Exn FileNotFoundError (py "File not found: " ++ file_path).
Definition unsupported_file_type (file_ext : str) : exn :=
  Exn ValueError (py "Unsupported file type: " ++ file_ext).
Definition no_text : exn :=
  Exn ValueError (py "No text could be extracted from the file").

(** The body of the [try] of [parse_cv], from the assignment of
    [self.extracted_text] on. *)
Definition parse_text (self : CVParser) (made : list call) (text : result str)
    : outcome :=
  match text with
  | Raise e => {| returned := Raise e; self_after := self; calls := made |}
  | Ok text =>
    let self := with_text text self in
    if negb (truthy (strip (extracted_text self)))
    then {| returned := Raise no_text; self_after := self; calls := made |}
    else
      match extract_information self with
      | Raise e => {| returned := Raise e; self_after := self; calls := made |}
      | Ok self =>
        {| returned := Ok (parsed_data self); self_after := self; calls := made |}
      end
  end.

(** The body of the [try]. *)
Definition parse_cv_try (w : World) (self : CVParser) (file_path : str) : outcome :=
  if negb (os_path_exists w file_path)
  then {| returned := Raise (file_not_found file_path); self_after := self;
          calls := [OsPathExists file_path] |}
  else
    let file_ext := snd (splitext (lower file_path)) in
    if str_eqb file_ext (py ".pdf")
    then parse_text self [OsPathExists file_path; PdfExtractText file_path]
           (pdf_extract_text w file_path)
    else if str_eqb file_ext (py ".docx")
    then parse_text self [OsPathExists file_path; DocxDocument file_path]
           (_extract_docx_text w file_path)
    else {| returned := Raise (unsupported_file_type file_ext); self_after := self;
            calls := [OsPathExists file_path] |}.

(** [except Exception as e: raise Exception(f"Error parsing CV: {str(e)}")] *)
Definition error_parsing_cv (e : exn) : exn :=
  Exn Exception (py "Error parsing CV: " ++ exn_str e).

(** [parse_cv] *)
Definition parse_cv (w : World) (self : CVParser) (file_path : str) : outcome :=
  let tried := parse_cv_try w self file_path in
  match returned tried with
  | Ok data => tried
  | Raise e =>
    {| returned := Raise (error_parsing_cv e); self_after := self_after tried;
       calls := calls tried |}
  end.

End CVParser.

(** * What the patterns mean, and the functions the properties refer to *)

Module Sem.
Import Re CVParser.

(** [n] successive steps, each of which moves forward. *)
Fixpoint rounds (step : mstate -> mstate -> Prop) (n : nat) (st st' : mstate)
    : Prop :=
  match n with
  | 0 => st' = st
  | S n' => exists st1, step st st1 /\ pos st < pos st1 /\ rounds step n' st1 st'
  end.

Definition within (n : nat) (hi : option nat) : Prop :=
  match hi with
  | Some h => n <= h
  | None => True
  end.

(** [matches r st st']: read as a grammar, with no order among the
    alternatives, [r] leads from [st] to [st'].  Whatever the matcher
    finds is such a match ([rmatch_sound]). *)
Fixpoint matches (r : regex) (st st' : mstate) {struct r} : Prop :=
  match r with
  | Eps => st' = st
  | Chr p =>
    exists c rest,
      after st = c :: rest /\ p c = true
      /\ st' = MState (c :: before st) rest (caps st)
  | Seq r1 r2 => exists st1, matches r1 st st1 /\ matches r2 st1 st'
  | Alt r1 r2 => matches r1 st st' \/ matches r2 st st'
  | Rep _ lo hi r1 =>
    exists n, lo <= n /\ within n hi /\ rounds (matches r1) n st st'
  | Grp n r1 => exists st1, matches r1 st st1 /\ st' = close_group n (pos st) st1
  | Ahead r1 => exists st1, matches r1 st st1 /\ st' = set_caps (caps st1) st
  | Behind w r1 =>
    exists bef aft st1,
      retreat w (before st) (after st) = Some (bef, aft)
      /\ matches r1 (MState bef aft (caps st)) st1
      /\ st' = set_caps (caps st1) st
  | Bol => before st = [] /\ st' = st
  | Eol => (after st = [] \/ after st = [LF]) /\ st' = st
  | EndZ => after st = [] /\ st' = st
  | WordB => at_boundary st = true /\ st' = st
  end.

(** The length of the subject, seen from a state. *)
Definition extent (st : mstate) : nat := pos st + length (after st).

(** A matcher that only looks at what its continuation does on the states
    of its own subject. *)
Definition respects (body : mstate -> cont -> option mstate) : Prop :=
  forall st k1 k2,
    (forall st', extent st' = extent st -> k1 st' = k2 st') ->
    body st k1 = body st k2.

(** Two states at the same place of the same subject, and two
    continuations that succeed together on such states: the groups play
    no part in whether a match succeeds (the patterns have no
    back-references). *)
Definition alike (st st' : mstate) : Prop :=
  before st = before st' /\ after st = after st'.

Definition succeed_alike (k k' : cont) : Prop :=
  forall st st', alike st st' -> (k st = None <-> k' st' = None).

(** A pattern without capturing group. *)
Fixpoint groupless (r : regex) : bool :=
  match r with
  | Grp _ _ => false
  | Seq r1 r2 | Alt r1 r2 => groupless r1 && groupless r2
  | Rep _ _ _ r1 | Ahead r1 | Behind _ r1 => groupless r1
  | _ => true
  end.

(** The pieces of [s] between the characters that pass [sep]. *)
Fixpoint split_at (sep : char -> bool) (s : str) : list str :=
  match s with
  | [] => [[]]
  | c :: t =>
    if sep c then [] :: split_at sep t
    else
      match split_at sep t with
      | piece :: pieces => (c :: piece) :: pieces
      | [] => [[c]]
      end
  end.

(** No character of [s] passes [sep]. *)
Definition free_of (sep : char -> bool) (s : str) : bool :=
  forallb (fun c => negb (sep c)) s.

(** The items of a section: its pieces, trimmed, the empty ones left out. *)
Definition items (sep : char -> bool) (section_text : str) : list str :=
  filter truthy (map strip (split_at sep section_text)).

(** The text of the section a pattern locates, if it locates one. *)
Definition section_of (pattern : regex) (text : str) : option str :=
  match search pattern text with
  | Some m => group m 2
  | None => None
  end.

(** [w] spelled in any letter case at the start of [s]. *)
Fixpoint spelled (w s : str) : bool :=
  match w, s with
  | [], _ => true
  | x :: w', y :: s' => ci x y && spelled w' s'
  | _ :: _, [] => false
  end.

(** [r] only matches spellings, in any letter case, of the words [ws]. *)
Definition spells (r : regex) (ws : list str) : Prop :=
  forall st st', matches r st st' ->
    exists w, In w ws
      /\ forall tail, spelled (w ++ tail) (after st) = spelled tail (after st').

(** [ws] is part of [words]. *)
Definition all_among (ws words : list str) : bool :=
  forallb (fun w => existsb (str_eqb w) words) ws.

(** The words the section patterns take for a heading. *)
Definition heading_words : list str :=
  map py
    [ "SKILLS"; "TECHNICAL SKILLS"; "CORE COMPETENCIES"; "EXPERTISE";
      "QUALIFICATIONS"; "TECHNOLOGIES"; "TOOLS"; "SOFTWARE";
      "EDUCATION"; "ACADEMIC";
      "EXPERIENCE"; "WORK EXPERIENCE"; "EMPLOYMENT"; "PROFESSIONAL EXPERIENCE";
      "CERTIFICATION"; "CERTIFICATIONS"; "CERTIFICATE"; "CERTIFICATES";
      "LANGUAGE"; "LANGUAGES" ]%string.

(** The patterns that locate a section. *)
Definition section_patterns : list regex :=
  skills_patterns
  ++ [education_pattern; experience_pattern; cert_pattern; lang_pattern].

(** A heading starts [s]: one of the words, then a colon or a line break. *)
Definition heading_at (words : list str) (s : str) : bool :=
  existsb (fun w => spelled (w ++ py ":") s || spelled (w ++ py "\n") s) words.

Fixpoint has_heading (words : list str) (s : str) : bool :=
  heading_at words s
  || match s with
     | [] => false
     | _ :: t => has_heading words t
     end.

(** The skills a list of pieces adds to a set. *)
Definition add_piece (skills_set : list str) (piece : str) : list str :=
  let cleaned := strip piece in
  if truthy cleaned && (1 <? length cleaned) then set_add cleaned skills_set
  else skills_set.

(** The set of skills once a pattern has been tried, in terms of the
    section it locates. *)
Definition skills_from (text : str) (skills_set : list str) (pattern : regex)
    : list str :=
  match section_of pattern text with
  | Some section =>
    fold_left add_piece (split_at (oneof (py ",•|/\n")) section) skills_set
  | None => skills_set
  end.

Definition skills_among (pieces : list str) : list str :=
  sorted (fold_left add_piece pieces []).

(** [items] written one after the other, [seps] between them. *)
Fixpoint interleave (items : list str) (seps : list char) : str :=
  match items, seps with
  | item :: rest, sep :: seps' => item ++ sep :: interleave rest seps'
  | item :: _, [] => item
  | [], _ => []
  end.

Definition str_lt (a b : str) : Prop := str_ltb a b = true.
Definition str_le (a b : str) : Prop := str_leb a b = true.

End Sem.

(** * Worlds for the examples *)

Module Worlds.
Import CVParser.

(** A world for the examples: one file of each kind, whose text is
    blank. *)
Definition blank_world : World :=
  {| os_path_exists := fun p => negb (str_eqb p (py "missing.pdf"));
     pdf_extract_text := fun _ => Ok (py "  \n");
     docx_Document := fun _ => Ok {| paragraphs := [py " "]; tables := [[[[]]]] |} |}.

(** A world in which the decoder of PDF files fails. *)
Definition broken_world : World :=
  {| os_path_exists := fun _ => true;
     pdf_extract_text := fun _ =>
       Raise (Exn (OtherError (py "PDFSyntaxError")) (py "No /Root object!"));
     docx_Document := fun _ => Ok {| paragraphs := []; tables := [] |} |}.

(** A world whose PDF decoder returns the experience section of the
    specification's example. *)
Definition acme_world : World :=
  {| os_path_exists := fun _ => true;
     pdf_extract_text := fun _ =>
       Ok (py "WORK EXPERIENCE:Acme Corp, Engineer\nJan 2020 to Present\nBuilt systems.");
     docx_Document := fun _ => Ok {| paragraphs := []; tables := [] |} |}.

End Worlds.

(** * What the splits and the contact patterns mean *)

Module Shape.
Import Re CVParser Sem.

(** The pieces of [s] cut at the characters [c] for which [cut c rest]
    holds, [rest] being what follows [c] in [s]. *)
Fixpoint split_where (cut : char -> str -> bool) (s : str) : list str :=
  match s with
  | [] => [[]]
  | c :: t =>
    if cut c t then [] :: split_where cut t
    else
      match split_where cut t with
      | piece :: pieces => (c :: piece) :: pieces
      | [] => [[c]]
      end
  end.








(** The state [st'] lies [mid] further than [st] in the same subject. *)
Definition span (st st' : mstate) (mid : str) : Prop :=
  after st = mid ++ after st' /\ before st' = rev mid ++ before st.

(** Every character [r] can consume passes [P]. *)
Fixpoint allows (P : char -> bool) (r : regex) : Prop :=
  match r with
  | Chr p => forall c, p c = true -> P c = true
  | Seq r1 r2 | Alt r1 r2 => allows P r1 /\ allows P r2
  | Rep _ _ _ r1 | Grp _ r1 => allows P r1
  | _ => True
  end.






(** A colon or a line break: what ends a heading. *)
Definition heading_end (c : char) : bool := oneof (py ":\n") c.

(** No character of [s] ends a heading. *)
Definition no_end (s : str) : bool := forallb (fun x => negb (heading_end x)) s.

(** A string with no white space at its two ends. *)
Definition edges (s : str) : bool :=
  match s with c :: _ => negb (isspace c) | [] => false end
  && match rev s with d :: _ => negb (isspace d) | [] => false end.

(** The word of [words] spelled at the start of [s], in any letter case,
    with a colon or a line break after it. *)
Definition heading_here (words : list str) (s : str) : option str :=
  find (fun w => spelled (w ++ py ":") s || spelled (w ++ py "\n") s) words.

(** [s] up to its first blank line. *)
Fixpoint upto_blank_line (s : str) : str :=
  match s with
  | [] => []
  | c :: t =>
    if (c =? LF)%N && match t with d :: _ => (d =? LF)%N | [] => false end
    then []
    else c :: upto_blank_line t
  end.

(** The section of the first heading of [s]: what follows the heading and
    its colon or line break, up to the first blank line. *)
Fixpoint locate (words : list str) (s : str) : option str :=
  match heading_here words s with
  | Some w => Some (upto_blank_line (skipn (S (length w)) s))
  | None =>
    match s with
    | [] => None
    | _ :: t => locate words t
    end
  end.

(** The heading words of each section pattern. *)
Definition skills_words : list str :=
  map py [ "SKILLS"; "TECHNICAL SKILLS"; "CORE COMPETENCIES"; "EXPERTISE";
           "QUALIFICATIONS" ]%string.
Definition tools_words : list str :=
  map py [ "TECHNOLOGIES"; "TOOLS"; "SOFTWARE" ]%string.






(** The characters that stand between the skills. *)
Definition skill_sep : char -> bool := oneof (py ",•|/\n").

(** A blank line starts [s]. *)
Definition blank_line_at (s : str) : bool :=
  match s with
  | c :: d :: _ => (c =? LF)%N && (d =? LF)%N
  | _ => false
  end.

(** [item] ends with the word [w], in any letter case. *)
Definition ends_with (w item : str) : bool :=
  (length w <=? length item)
  && spelled w (skipn (length item - length w) item).

Definition ends_with_one (words : list str) (item : str) : bool :=
  existsb (fun w => ends_with w item) words.

(** A word that is not empty and none of whose letters can stand, in any
    letter case, for a separator of the skills or for a colon. *)
Definition plain (w : str) : bool :=
  truthy w
  && forallb (fun k => forallb (fun c => negb (ci k c)) (py ",•|/\n:")) w.

(** Two texts that are the same but for which separator of the skills
    stands where, with their blank lines at the same places. *)
Inductive swapped : str -> str -> Prop :=
| swapped_nil : swapped [] []
| swapped_cons (a b : char) (s t : str) :
    a = b \/ (skill_sep a = true /\ skill_sep b = true) ->
    blank_line_at (a :: s) = blank_line_at (b :: t) ->
    swapped s t -> swapped (a :: s) (b :: t).

(** The same heading of [words], or none, starts [s] and [t], and so on
    along the two texts up to their first heading. *)
Fixpoint same_headings (words : list str) (s t : str) : Prop :=
  heading_here words s = heading_here words t
  /\ match heading_here words s, s, t with
     | None, _ :: s', _ :: t' => same_headings words s' t'
     | _, _, _ => True
     end.

End Shape.

(** * Python values *)

Module Values.

(** The values that travel between the parser, the session and the
    question generator: [None], integers, strings, lists and dictionaries
    with string keys (a dictionary keeps the order of insertion). *)
#[local] Unset Elimination Schemes.
Inductive value :=
| VNone
| VInt (z : Z)
| VStr (s : str)
| VList (items : list value)
| VDict (entries : list (str * value)).
#[local] Set Elimination Schemes.

Definition dict := list (str * value).



(** [k in d] and [d[k]] (the latter where the key is in [d]). *)
Fixpoint get (k : str) (d : dict) : option value :=
  match d with
  | [] => None
  | (k', v) :: rest => if str_eqb k' k then Some v else get k rest
  end.

Definition has (k : str) (d : dict) : bool :=
  match get k d with Some _ => true | None => false end.

(** [d[k] = v] *)
Fixpoint set (k : str) (v : value) (d : dict) : dict :=
  match d with
  | [] => [(k, v)]
  | (k', v') :: rest =>
    if str_eqb k' k then (k', v) :: rest else (k', v') :: set k v rest
  end.

Section Rendering.

(** [repr] of a string: the quoting of Python, which the functions of the
    program use as it is. *)
Variable repr_str : str -> str.



End Rendering.




End Values.

(** * The question generator: [src/models/question_generator.py] *)

Module QuestionGenerator.
Import Values CVParser.

(** [class QuestionType(Enum)] *)
Inductive QuestionType := TECHNICAL | BEHAVIORAL | COMPETENCY | GENERAL.




(** The prompts of [self.type_prompts]. *)
Definition technical_prompt : str :=
  concat (map py
  [
    "\n";
    "You are an experienced technical interviewer. Generate 5 ";
    "technical interview questions based on the following context:\n";
    "\n";
    "Technical Skills Required: {technical_stack}\n";
    "Candidate Background: {cv_context}\n";
    "Job Requirements: {jd_context}\n";
    "\n";
    "Rules for generating questions:\n";
    "1. Questions should test practical coding and problem-solving ";
    "skills\n";
    "2. Include questions about system design and architecture\n";
    "3. Focus on the specific technical stack mentioned\n";
    "4. Match the complexity to the candidate's experience level\n";
    "5. Each question should be clear and specific\n";
    "\n";
    "Please generate exactly 5 questions, formatted as a numbered ";
    "list (1-5).\n";
    "Just provide the questions without any additional text or ";
    "explanations."
  ]%string).

Definition behavioral_prompt : str :=
  concat (map py
  [
    "\n";
    "You are an experienced HR interviewer. Generate 5 behavioral ";
    "interview questions based on the following context:\n";
    "\n";
    "Candidate Background: {cv_context}\n";
    "Job Requirements: {jd_context}\n";
    "\n";
    "Rules for generating questions:\n";
    "1. Questions should follow the STAR format\n";
    "2. Focus on past experiences and specific situations\n";
    "3. Include questions about teamwork and leadership\n";
    "4. Cover conflict resolution and problem-solving\n";
    "5. Make questions relevant to the candidate's experience level\n";
    "\n";
    "Please generate exactly 5 questions, formatted as a numbered ";
    "list (1-5).\n";
    "Just provide the questions without any additional text or ";
    "explanations."
  ]%string).

Definition competency_prompt : str :=
  concat (map py
  [
    "\n";
    "You are an experienced competency-based interviewer. Generate 5 ";
    "competency-based questions using the following context:\n";
    "\n";
    "Candidate Background: {cv_context}\n";
    "Job Requirements: {jd_context}\n";
    "\n";
    "Rules for generating questions:\n";
    "1. Focus on specific skills and competencies required for the ";
    "role\n";
    "2. Include questions about project management and delivery\n";
    "3. Cover communication and stakeholder management\n";
    "4. Address decision-making and problem-solving abilities\n";
    "5. Make questions measurable and evidence-based\n";
    "\n";
    "Please generate exactly 5 questions, formatted as a numbered ";
    "list (1-5).\n";
    "Just provide the questions without any additional text or ";
    "explanations."
  ]%string).

(** [self.type_prompts]: there is no prompt for [QuestionType.GENERAL]. *)
Definition prompts (q : QuestionType) : option str :=
  match q with
  | TECHNICAL => Some technical_prompt
  | BEHAVIORAL => Some behavioral_prompt
  | COMPETENCY => Some competency_prompt
  | GENERAL => None
  end.

Record QuestionGenerator := {
  api_key : str;
  type_prompts : QuestionType -> option str
}.

Definition key_required : exn :=
  Exn ValueError
    (py "Google API key is required. Set GOOGLE_API_KEY environment variable.").

(** [__init__]: the key has to be a string that is not empty. *)
Definition __init__ (api_key : str) : result QuestionGenerator :=
  if negb (truthy api_key) then Raise key_required
  else Ok {| api_key := api_key; type_prompts := prompts |}.







Section Rendering.

Variable repr_str : str -> str.













End Rendering.






End QuestionGenerator.

(** * What the generator expects of the model *)

Module Answers.
Import Values QuestionGenerator.









End Answers.

(** * The application: [src/app.py] *)

Module App.
Import Values CVParser.

(** [st.session_state], a dictionary of the variables of the session.

    [if key not in st.session_state: st.session_state.key = v] *)
Definition unless_present (key : str) (v : value) (session_state : dict) : dict :=
  if negb (has key session_state) then set key v session_state else session_state.



End App.

(** * Properties *)

Import Re CVParser Sem Worlds.

Lemma str_eqb_eq (a b : str) : str_eqb a b = true <-> a = b.
Proof.
  unfold str_eqb. destruct (list_eq_dec N.eq_dec a b); split; congruence.
Qed.

(** ** The two worked examples of the specification *)

(** C1: on the heading [WORK EXPERIENCE:] followed by the three lines of
    the example (and also when the heading has a line of its own),
    [extract_experience] raises the [AttributeError] of [None.strip()]
    where the claim, like the docstring of the function, has it return a
    list, here of one entry.  The capturing group of the look-ahead of the
    split pattern puts a [None] between the pieces of the section. *)
Lemma experience_example_raises :
  extract_experience
    (reading "WORK EXPERIENCE:Acme Corp, Engineer\nJan 2020 to Present\nBuilt systems.")
    = Raise none_has_no_strip
  /\ extract_experience
    (reading "WORK EXPERIENCE:\nAcme Corp, Engineer\nJan 2020 to Present\nBuilt systems.")
    = Raise none_has_no_strip
  /\ ~ exists entry,
      extract_experience
        (reading "WORK EXPERIENCE:Acme Corp, Engineer\nJan 2020 to Present\nBuilt systems.")
        = Ok [entry]
      /\ company entry = py "Acme Corp"
      /\ position entry = py "Engineer"
      /\ dates entry = py "Jan 2020 to Present"
      /\ contains (py "Built systems.") (description entry) = true.
Proof.
  assert (H : extract_experience
    (reading "WORK EXPERIENCE:Acme Corp, Engineer\nJan 2020 to Present\nBuilt systems.")
    = Raise none_has_no_strip) by (vm_compute; reflexivity).
  split; [exact H | split; [vm_compute; reflexivity | ]].
  intros [entry [E _]]. rewrite H in E. discriminate E.
Qed.

(** C2, as stated, fails: the example has two entries, not one, the line
    [MIT] being an entry of its own. *)
Lemma education_example_has_two_entries :
  ~ exists entry,
      extract_education (reading "EDUCATION:\nMIT\nB.S. Computer Science\n2018-2022")
        = Ok [entry]
      /\ degree entry <> []
      /\ contains (py "B.S.") (degree entry) = true
      /\ year entry = py "2018-2022".
Proof.
  intros [entry [E _]]. vm_compute in E. discriminate E.
Qed.

(** C2, amended: on [EDUCATION:\nMIT\nB.S. Computer Science\n2018-2022] the
    extractor returns exactly two entries, one for the line [MIT] with
    neither degree nor year, and one whose degree is not empty and contains
    [B.S.] and whose year is [2018-2022]. *)
Theorem education_example :
  exists school entry,
    extract_education (reading "EDUCATION:\nMIT\nB.S. Computer Science\n2018-2022")
      = Ok [school; entry]
    /\ school = {| degree := []; institution := py "MIT"; year := [] |}
    /\ degree entry = py "B.S. Computer Science"
    /\ degree entry <> []
    /\ contains (py "B.S.") (degree entry) = true
    /\ institution entry = py "B.S. Computer Science"
    /\ year entry = py "2018-2022".
Proof.
  eexists. eexists. split; [vm_compute; reflexivity | ].
  repeat split; try (vm_compute; reflexivity).
  vm_compute. discriminate.
Qed.

(** ** Reading the file: [parse_cv] *)

Lemma lower_char_keeps (c x : char) :
  (c <? 65)%N = true -> ((lower_char x =? c)%N = (x =? c)%N).
Proof.
  intros Hc. apply N.ltb_lt in Hc. unfold lower_char, ascii_upper, between.
  destruct (65 <=? x)%N eqn:E1; destruct (x <=? 90)%N eqn:E2; simpl; try reflexivity.
  apply N.leb_le in E1. apply N.leb_le in E2.
  destruct (N.eqb_spec (x + 32) c); destruct (N.eqb_spec x c); try reflexivity; lia.
Qed.

Lemma rfind_from_lower (c : char) (s : str) (i : nat) (found : option nat) :
  (c <? 65)%N = true ->
  rfind_from c (lower s) i found = rfind_from c s i found.
Proof.
  intros Hc. revert i found.
  induction s as [|x t IH]; intros i found; simpl; [reflexivity | ].
  rewrite (lower_char_keeps c x Hc). apply IH.
Qed.

Lemma firstn_lower (n : nat) (s : str) : firstn n (lower s) = lower (firstn n s).
Proof. unfold lower. apply firstn_map. Qed.

Lemma skipn_lower (n : nat) (s : str) : skipn n (lower s) = lower (skipn n s).
Proof. unfold lower. apply skipn_map. Qed.

Lemma slice_lower (s : str) (i j : nat) : slice (lower s) i j = lower (slice s i j).
Proof. unfold slice. rewrite skipn_lower, firstn_lower. reflexivity. Qed.

Lemma existsb_not_dot_lower (s : str) :
  existsb (fun c => negb (c =? 46)%N) (lower s)
  = existsb (fun c => negb (c =? 46)%N) s.
Proof.
  induction s as [|x t IH]; simpl; [reflexivity | ].
  rewrite (lower_char_keeps 46%N x eq_refl), IH. reflexivity.
Qed.

(** Lower-casing the path lower-cases its extension and nothing else of the
    split. *)
Lemma splitext_lower (p : str) :
  splitext (lower p) = (lower (fst (splitext p)), lower (snd (splitext p))).
Proof.
  unfold splitext, rfind.
  rewrite !rfind_from_lower by reflexivity.
  destruct (rfind_from 46%N p 0 None) as [dotIndex|]; [ | reflexivity].
  rewrite slice_lower, existsb_not_dot_lower, firstn_lower, skipn_lower.
  destruct (_ && _); reflexivity.
Qed.

Lemma parse_cv_raises (w : World) (self : CVParser) (file_path : str) (cause : exn) :
  returned (parse_cv_try w self file_path) = Raise cause ->
  returned (parse_cv w self file_path) = Raise (error_parsing_cv cause).
Proof. intros H. unfold parse_cv. rewrite H. reflexivity. Qed.

Lemma parse_cv_calls (w : World) (self : CVParser) (file_path : str) :
  calls (parse_cv w self file_path) = calls (parse_cv_try w self file_path)
  /\ self_after (parse_cv w self file_path)
     = self_after (parse_cv_try w self file_path).
Proof.
  unfold parse_cv. destruct (returned (parse_cv_try w self file_path)); split; reflexivity.
Qed.

Lemma parse_cv_try_unsupported (w : World) (self : CVParser) (file_path : str) :
  os_path_exists w file_path = true ->
  snd (splitext (lower file_path)) <> py ".pdf" ->
  snd (splitext (lower file_path)) <> py ".docx" ->
  parse_cv_try w self file_path
  = {| returned := Raise (unsupported_file_type (snd (splitext (lower file_path))));
       self_after := self;
       calls := [OsPathExists file_path] |}.
Proof.
  intros Hex Hpdf Hdocx. unfold parse_cv_try. rewrite Hex. simpl.
  destruct (str_eqb _ (py ".pdf")) eqn:E1; [apply str_eqb_eq in E1; contradiction | ].
  destruct (str_eqb _ (py ".docx")) eqn:E2; [apply str_eqb_eq in E2; contradiction | ].
  reflexivity.
Qed.

Lemma parse_cv_try_pdf (w : World) (self : CVParser) (file_path : str) :
  os_path_exists w file_path = true ->
  snd (splitext (lower file_path)) = py ".pdf" ->
  parse_cv_try w self file_path
  = parse_text self [OsPathExists file_path; PdfExtractText file_path]
      (pdf_extract_text w file_path).
Proof.
  intros Hex Hpdf. unfold parse_cv_try. rewrite Hex, Hpdf. reflexivity.
Qed.

Lemma parse_cv_try_docx (w : World) (self : CVParser) (file_path : str) :
  os_path_exists w file_path = true ->
  snd (splitext (lower file_path)) = py ".docx" ->
  parse_cv_try w self file_path
  = parse_text self [OsPathExists file_path; DocxDocument file_path]
      (_extract_docx_text w file_path).
Proof.
  intros Hex Hdocx. unfold parse_cv_try. rewrite Hex, Hdocx. reflexivity.
Qed.

Lemma parse_text_blank (self : CVParser) (made : list call) (text : str) :
  strip text = [] ->
  returned (parse_text self made (Ok text)) = Raise no_text.
Proof. intros H. unfold parse_text. simpl. rewrite H. reflexivity. Qed.

(** C6: for a file that exists and has one of the two supported
    extensions, when the text its decoder extracts is empty or white space
    only, [parse_cv] raises the failure of the empty document (the message
    [No text could be extracted from the file] under [Error parsing CV: ])
    and returns no record. *)
Theorem empty_document_raises (w : World) (self : CVParser) (file_path text : str) :
  os_path_exists w file_path = true ->
  (snd (splitext (lower file_path)) = py ".pdf"
     /\ pdf_extract_text w file_path = Ok text)
  \/ (snd (splitext (lower file_path)) = py ".docx"
     /\ _extract_docx_text w file_path = Ok text) ->
  strip text = [] ->
  returned (parse_cv w self file_path) = Raise (error_parsing_cv no_text)
  /\ forall data, returned (parse_cv w self file_path) <> Ok data.
Proof.
  intros Hex Hfmt Hblank.
  assert (H : returned (parse_cv w self file_path) = Raise (error_parsing_cv no_text)).
  { apply parse_cv_raises.
    destruct Hfmt as [[Hext Htext] | [Hext Htext]].
    - rewrite (parse_cv_try_pdf _ _ _ Hex Hext), Htext. now apply parse_text_blank.
    - rewrite (parse_cv_try_docx _ _ _ Hex Hext), Htext. now apply parse_text_blank. }
  split; [exact H | ]. intros data. rewrite H. discriminate.
Qed.

Lemma empty_document_raises_witness :
  returned (parse_cv blank_world __init__ (py "cv.PDF")) = Raise (error_parsing_cv no_text)
  /\ returned (parse_cv blank_world __init__ (py "cv.docx")) = Raise (error_parsing_cv no_text).
Proof.
  split.
  - apply (empty_document_raises blank_world __init__ (py "cv.PDF") (py "  \n"));
      [reflexivity | left; split; reflexivity | reflexivity].
  - apply (empty_document_raises blank_world __init__ (py "cv.docx") []);
      [reflexivity | right; split; reflexivity | reflexivity].
Defined.

(** C7: for a file that exists and whose extension is neither [.pdf] nor
    [.docx], [parse_cv] raises the failure of the unsupported format; the
    only call it has made is the test that the file exists, the object is
    untouched, and the outcome is the same whatever the decoders would
    do. *)
Theorem unsupported_format_raises (w : World) (self : CVParser) (file_path : str) :
  os_path_exists w file_path = true ->
  snd (splitext (lower file_path)) <> py ".pdf" ->
  snd (splitext (lower file_path)) <> py ".docx" ->
  returned (parse_cv w self file_path)
    = Raise (error_parsing_cv
               (unsupported_file_type (snd (splitext (lower file_path)))))
  /\ calls (parse_cv w self file_path) = [OsPathExists file_path]
  /\ existsb is_decoder_call (calls (parse_cv w self file_path)) = false
  /\ self_after (parse_cv w self file_path) = self
  /\ forall w', os_path_exists w' file_path = true ->
       parse_cv w' self file_path = parse_cv w self file_path.
Proof.
  intros Hex Hpdf Hdocx.
  assert (H : forall w', os_path_exists w' file_path = true ->
    parse_cv w' self file_path
    = {| returned := Raise (error_parsing_cv
           (unsupported_file_type (snd (splitext (lower file_path)))));
         self_after := self; calls := [OsPathExists file_path] |}).
  { intros w' Hex'. unfold parse_cv.
    rewrite (parse_cv_try_unsupported _ _ _ Hex' Hpdf Hdocx). reflexivity. }
  rewrite (H w Hex). simpl. repeat split; try reflexivity.
  intros w' Hex'. apply (H w' Hex').
Qed.

Lemma unsupported_format_raises_witness :
  returned (parse_cv blank_world __init__ (py "notes/cv.txt"))
  = Raise (Exn Exception (py "Error parsing CV: Unsupported file type: .txt")).
Proof.
  apply (unsupported_format_raises blank_world __init__ (py "notes/cv.txt"));
    [reflexivity | vm_compute; discriminate | vm_compute; discriminate].
Defined.

Lemma parse_cv_generic (w : World) (self : CVParser) (file_path : str) (e : exn) :
  returned (parse_cv w self file_path) = Raise e ->
  exists cause,
    returned (parse_cv_try w self file_path) = Raise cause
    /\ e = error_parsing_cv cause.
Proof.
  unfold parse_cv. cbv zeta.
  destruct (returned (parse_cv_try w self file_path)) as [data|cause] eqn:E.
  - rewrite E. discriminate.
  - cbn [returned]. intros H. exists cause. split; [reflexivity | congruence].
Qed.

Lemma parse_text_decoder_raises (self : CVParser) (made : list call) (cause : exn) :
  returned (parse_text self made (Raise cause)) = Raise cause.
Proof. reflexivity. Qed.

(** C9: whatever [parse_cv] raises is an [Exception] whose message is
    [Error parsing CV: ] followed by the message of the failure inside; so
    it is for the missing file, the unsupported extension, the empty text
    and an error of a decoder, which differ in the message only. *)
Theorem failures_are_generic (w : World) (self : CVParser) (file_path : str) :
  (forall e, returned (parse_cv w self file_path) = Raise e ->
     exn_class_of e = Exception
     /\ exists cause,
          returned (parse_cv_try w self file_path) = Raise cause
          /\ exn_str e = py "Error parsing CV: " ++ exn_str cause)
  /\ (os_path_exists w file_path = false ->
      returned (parse_cv w self file_path)
      = Raise (error_parsing_cv (file_not_found file_path)))
  /\ (os_path_exists w file_path = true ->
      snd (splitext (lower file_path)) <> py ".pdf" ->
      snd (splitext (lower file_path)) <> py ".docx" ->
      returned (parse_cv w self file_path)
      = Raise (error_parsing_cv
                 (unsupported_file_type (snd (splitext (lower file_path))))))
  /\ (forall text,
      os_path_exists w file_path = true ->
      (snd (splitext (lower file_path)) = py ".pdf"
         /\ pdf_extract_text w file_path = Ok text)
      \/ (snd (splitext (lower file_path)) = py ".docx"
         /\ _extract_docx_text w file_path = Ok text) ->
      strip text = [] ->
      returned (parse_cv w self file_path) = Raise (error_parsing_cv no_text))
  /\ (forall cause,
      os_path_exists w file_path = true ->
      (snd (splitext (lower file_path)) = py ".pdf"
         /\ pdf_extract_text w file_path = Raise cause)
      \/ (snd (splitext (lower file_path)) = py ".docx"
         /\ docx_Document w file_path = Raise cause) ->
      returned (parse_cv w self file_path) = Raise (error_parsing_cv cause)).
Proof.
  split; [ | split; [ | split; [ | split]]].
  - intros e He. destruct (parse_cv_generic _ _ _ _ He) as [cause [Hc ->]].
    split; [reflexivity | ]. exists cause. split; [exact Hc | reflexivity].
  - intros Hex. apply parse_cv_raises. unfold parse_cv_try. rewrite Hex. reflexivity.
  - intros Hex Hpdf Hdocx. apply parse_cv_raises.
    rewrite (parse_cv_try_unsupported _ _ _ Hex Hpdf Hdocx). reflexivity.
  - intros text Hex Hfmt Hblank. apply parse_cv_raises.
    destruct Hfmt as [[Hext Htext] | [Hext Htext]].
    + rewrite (parse_cv_try_pdf _ _ _ Hex Hext), Htext. now apply parse_text_blank.
    + rewrite (parse_cv_try_docx _ _ _ Hex Hext), Htext. now apply parse_text_blank.
  - intros cause Hex Hfmt. apply parse_cv_raises.
    destruct Hfmt as [[Hext Htext] | [Hext Htext]].
    + rewrite (parse_cv_try_pdf _ _ _ Hex Hext), Htext. reflexivity.
    + rewrite (parse_cv_try_docx _ _ _ Hex Hext). unfold _extract_docx_text.
      rewrite Htext. reflexivity.
Qed.

Lemma failures_are_generic_witness :
  returned (parse_cv blank_world __init__ (py "missing.pdf"))
  = Raise (Exn Exception (py "Error parsing CV: File not found: missing.pdf"))
  /\ returned (parse_cv broken_world __init__ (py "cv.pdf"))
  = Raise (Exn Exception (py "Error parsing CV: No /Root object!"))
  /\ returned (parse_cv blank_world __init__ (py "cv.txt"))
  = Raise (Exn Exception (py "Error parsing CV: Unsupported file type: .txt"))
  /\ returned (parse_cv blank_world __init__ (py "cv.pdf"))
  = Raise (Exn Exception (py "Error parsing CV: No text could be extracted from the file")).
Proof.
  pose proof (failures_are_generic blank_world __init__ (py "missing.pdf")) as Hmissing.
  pose proof (failures_are_generic broken_world __init__ (py "cv.pdf")) as Hbroken.
  pose proof (failures_are_generic blank_world __init__ (py "cv.txt")) as Htxt.
  pose proof (failures_are_generic blank_world __init__ (py "cv.pdf")) as Hblank.
  split; [ | split; [ | split]].
  - destruct Hmissing as [_ [H _]]. rewrite (H eq_refl). vm_compute. reflexivity.
  - destruct Hbroken as [_ [_ [_ [_ H]]]].
    rewrite (H (Exn (OtherError (py "PDFSyntaxError")) (py "No /Root object!")) eq_refl
               (or_introl (conj eq_refl eq_refl))).
    vm_compute. reflexivity.
  - destruct Htxt as [_ [_ [H _]]]. rewrite H.
    + vm_compute. reflexivity.
    + reflexivity.
    + vm_compute. discriminate.
    + vm_compute. discriminate.
  - destruct Hblank as [_ [_ [_ [H _]]]].
    rewrite (H (py "  \n") eq_refl (or_introl (conj eq_refl eq_refl)) eq_refl).
    vm_compute. reflexivity.
Defined.

(** C10: the test of the extension ignores the case of its letters: for a
    file that exists and whose extension is [.pdf] or [.docx] in any mix of
    upper and lower case, [parse_cv] calls the decoder of that format and
    goes on with what the decoder answers. *)
Theorem extension_case_is_ignored (w : World) (self : CVParser) (file_path : str) :
  os_path_exists w file_path = true ->
  (lower (snd (splitext file_path)) = py ".pdf" ->
     parse_cv_try w self file_path
     = parse_text self [OsPathExists file_path; PdfExtractText file_path]
         (pdf_extract_text w file_path)
     /\ calls (parse_cv w self file_path)
        = [OsPathExists file_path; PdfExtractText file_path])
  /\ (lower (snd (splitext file_path)) = py ".docx" ->
     parse_cv_try w self file_path
     = parse_text self [OsPathExists file_path; DocxDocument file_path]
         (_extract_docx_text w file_path)
     /\ calls (parse_cv w self file_path)
        = [OsPathExists file_path; DocxDocument file_path]).
Proof.
  intros Hex.
  assert (Hcalls : forall made text, calls (parse_text self made text) = made).
  { intros made [text|e]; unfold parse_text; simpl; [ | reflexivity].
    destruct (negb _); [reflexivity | ].
    destruct (extract_information _); reflexivity. }
  split; intros Hext.
  - assert (E : snd (splitext (lower file_path)) = py ".pdf")
      by (rewrite splitext_lower; exact Hext).
    split; [apply (parse_cv_try_pdf _ _ _ Hex E) | ].
    rewrite (proj1 (parse_cv_calls _ _ _)), (parse_cv_try_pdf _ _ _ Hex E).
    apply Hcalls.
  - assert (E : snd (splitext (lower file_path)) = py ".docx")
      by (rewrite splitext_lower; exact Hext).
    split; [apply (parse_cv_try_docx _ _ _ Hex E) | ].
    rewrite (proj1 (parse_cv_calls _ _ _)), (parse_cv_try_docx _ _ _ Hex E).
    apply Hcalls.
Qed.

Lemma extension_case_is_ignored_witness :
  calls (parse_cv blank_world __init__ (py "uploads/My.CV.PDF"))
  = [OsPathExists (py "uploads/My.CV.PDF"); PdfExtractText (py "uploads/My.CV.PDF")]
  /\ calls (parse_cv blank_world __init__ (py "cv.Docx"))
  = [OsPathExists (py "cv.Docx"); DocxDocument (py "cv.Docx")].
Proof.
  split.
  - apply (proj1 (extension_case_is_ignored blank_world __init__
                    (py "uploads/My.CV.PDF") eq_refl)).
    reflexivity.
  - apply (proj2 (extension_case_is_ignored blank_world __init__
                    (py "cv.Docx") eq_refl)).
    reflexivity.
Defined.

(** ** The matcher *)

Lemma orelse_some (a : option mstate) (b : unit -> option mstate) (res : mstate) :
  orelse a b = Some res -> a = Some res \/ b tt = Some res.
Proof. destruct a; simpl; intros H; [left | right]; exact H. Qed.

Lemma within_below (count : nat) (hi : option nat) :
  below count hi = true -> within (S count) hi.
Proof.
  destruct hi as [h|]; simpl; [ | trivial].
  intros H. apply Nat.ltb_lt in H. lia.
Qed.

Lemma rep_loop_sound (body : mstate -> cont -> option mstate)
    (step : mstate -> mstate -> Prop) (greedy : bool) (lo : nat)
    (hi : option nat) (k : cont) :
  (forall st k' res, body st k' = Some res ->
     exists st', step st st' /\ k' st' = Some res) ->
  forall fuel count st res,
    within count hi ->
    rep_loop body greedy lo hi k fuel count st = Some res ->
    exists n st',
      rounds step n st st' /\ lo <= count + n /\ within (count + n) hi
      /\ k st' = Some res.
Proof.
  intros Hbody. induction fuel as [|fuel IH]; intros count st res Hw H;
    [discriminate H | ].
  cbn [rep_loop] in H.
  assert (Hstop : (if lo <=? count then k st else None) = Some res ->
    exists n st', rounds step n st st' /\ lo <= count + n
                  /\ within (count + n) hi /\ k st' = Some res).
  { destruct (lo <=? count) eqn:E; [ | discriminate].
    intros Hk. apply Nat.leb_le in E. exists 0, st.
    rewrite Nat.add_0_r. repeat split; assumption. }
  assert (Hmore : (if below count hi
                   then body st (fun st' =>
                          if pos st <? pos st'
                          then rep_loop body greedy lo hi k fuel (S count) st'
                          else None)
                   else None) = Some res ->
    exists n st', rounds step n st st' /\ lo <= count + n
                  /\ within (count + n) hi /\ k st' = Some res).
  { destruct (below count hi) eqn:E; [ | discriminate].
    intros Hb. destruct (Hbody _ _ _ Hb) as [st1 [Hstep Hk]].
    destruct (pos st <? pos st1) eqn:Hp; [ | discriminate].
    apply Nat.ltb_lt in Hp.
    destruct (IH _ _ _ (within_below _ _ E) Hk) as [n [st' [Hr [Hlo [Hhi Hres]]]]].
    exists (S n), st'. rewrite Nat.add_succ_r. repeat split; try assumption.
    exists st1. repeat split; assumption. }
  destruct greedy; apply orelse_some in H; destruct H as [H|H]; auto.
Qed.

(** Whatever the matcher finds is a match of the pattern. *)
Lemma rmatch_sound (r : regex) :
  forall st k res, rmatch r st k = Some res ->
    exists st', matches r st st' /\ k st' = Some res.
Proof.
  induction r as [ | p | r1 IH1 r2 IH2 | r1 IH1 r2 IH2 | greedy lo hi r1 IH1
                 | n r1 IH1 | r1 IH1 | w r1 IH1 | | | | ];
    intros st k res H; cbn [rmatch] in H; cbn [matches].
  - exists st. split; [reflexivity | exact H].
  - destruct (after st) as [|c rest] eqn:E; [discriminate H | ].
    destruct (p c) eqn:Ep; [ | discriminate H].
    eexists. split; [ | exact H]. exists c, rest. repeat split; assumption.
  - destruct (IH1 _ _ _ H) as [st1 [H1 H2]].
    destruct (IH2 _ _ _ H2) as [st2 [H3 H4]].
    exists st2. split; [exists st1; split; assumption | exact H4].
  - apply orelse_some in H. destruct H as [H|H].
    + destruct (IH1 _ _ _ H) as [st' [H1 H2]]. exists st'. split; [left | ]; assumption.
    + destruct (IH2 _ _ _ H) as [st' [H1 H2]]. exists st'. split; [right | ]; assumption.
  - assert (Hw : within 0 hi) by (destruct hi; simpl; [lia | trivial]).
    destruct (rep_loop_sound (rmatch r1) (matches r1) greedy lo hi k IH1 _ _ _ _ Hw H)
      as [n [st' [Hr [Hlo [Hhi Hk]]]]].
    exists st'. split; [ | exact Hk]. exists n. repeat split; assumption.
  - destruct (IH1 _ _ _ H) as [st1 [H1 H2]].
    eexists. split; [ | exact H2]. exists st1. split; [exact H1 | reflexivity].
  - destruct (rmatch r1 st Some) as [st1|] eqn:E; [ | discriminate H].
    destruct (IH1 _ _ _ E) as [st2 [H1 H2]]. injection H2 as ->.
    eexists. split; [ | exact H]. exists st1. split; [exact H1 | reflexivity].
  - destruct (retreat w (before st) (after st)) as [[bef aft]|] eqn:Er;
      [ | discriminate H].
    destruct (rmatch r1 (MState bef aft (caps st)) Some) as [st1|] eqn:E;
      [ | discriminate H].
    destruct (IH1 _ _ _ E) as [st2 [H1 H2]]. injection H2 as ->.
    eexists. split; [ | exact H]. exists bef, aft, st1. repeat split; assumption.
  - destruct (before st) eqn:E; [ | discriminate H].
    exists st. repeat split; assumption.
  - exists st. destruct (after st) as [|c [|c' rest]] eqn:E; try discriminate H.
    + repeat split; [left; reflexivity | exact H].
    + destruct (N.eqb_spec c LF) as [->|]; [ | discriminate H].
      repeat split; [right; reflexivity | exact H].
  - destruct (after st) eqn:E; [ | discriminate H].
    exists st. repeat split; assumption.
  - destruct (at_boundary st) eqn:E; [ | discriminate H].
    exists st. repeat split; assumption.
Qed.

Lemma rounds_moves (step : mstate -> mstate -> Prop) :
  (forall st st', step st st' ->
     exists mid, after st = mid ++ after st' /\ before st' = rev mid ++ before st) ->
  forall n st st', rounds step n st st' ->
    exists mid, after st = mid ++ after st' /\ before st' = rev mid ++ before st.
Proof.
  intros Hstep. induction n as [|n IH]; intros st st' H; cbn [rounds] in H.
  - subst st'. exists []. split; reflexivity.
  - destruct H as [st1 [H1 [_ H2]]].
    destruct (Hstep _ _ H1) as [m1 [Ha1 Hb1]].
    destruct (IH _ _ H2) as [m2 [Ha2 Hb2]].
    exists (m1 ++ m2). split.
    + rewrite Ha1, Ha2. apply app_assoc.
    + rewrite Hb2, Hb1, rev_app_distr. apply app_assoc.
Qed.

(** A match only moves forward: what it consumed is what now lies before
    the position. *)
Lemma matches_moves (r : regex) :
  forall st st', matches r st st' ->
    exists mid, after st = mid ++ after st' /\ before st' = rev mid ++ before st.
Proof.
  induction r as [ | p | r1 IH1 r2 IH2 | r1 IH1 r2 IH2 | greedy lo hi r1 IH1
                 | n r1 IH1 | r1 IH1 | w r1 IH1 | | | | ];
    intros st st' H; cbn [matches] in H.
  - subst st'. exists []. split; reflexivity.
  - destruct H as [c [rest [Ha [_ ->]]]]. exists [c]. split; [exact Ha | reflexivity].
  - destruct H as [st1 [H1 H2]].
    destruct (IH1 _ _ H1) as [m1 [Ha1 Hb1]].
    destruct (IH2 _ _ H2) as [m2 [Ha2 Hb2]].
    exists (m1 ++ m2). split.
    + rewrite Ha1, Ha2. apply app_assoc.
    + rewrite Hb2, Hb1, rev_app_distr. apply app_assoc.
  - destruct H as [H|H]; [apply (IH1 _ _ H) | apply (IH2 _ _ H)].
  - destruct H as [n [_ [_ H]]]. apply (rounds_moves _ IH1 _ _ _ H).
  - destruct H as [st1 [H1 ->]]. apply (IH1 _ _ H1).
  - destruct H as [st1 [_ ->]]. exists []. split; reflexivity.
  - destruct H as [bef [aft [st1 [_ [_ ->]]]]]. exists []. split; reflexivity.
  - destruct H as [_ ->]. exists []. split; reflexivity.
  - destruct H as [_ ->]. exists []. split; reflexivity.
  - destruct H as [_ ->]. exists []. split; reflexivity.
  - destruct H as [_ ->]. exists []. split; reflexivity.
Qed.

Lemma scan_eq (r : regex) (must_advance : bool) (bef aft : str) :
  scan r must_advance bef aft
  = match rmatch r (MState bef aft [])
            (fun st' => if must_advance && (pos st' =? pos (MState bef aft []))
                        then None else Some st') with
    | Some st' => Some (pos (MState bef aft []), st')
    | None =>
      match aft with
      | [] => None
      | c :: aft' => scan r false (c :: bef) aft'
      end
    end.
Proof. destruct aft; reflexivity. Qed.

Lemma scan_sound (r : regex) :
  forall aft must_advance bef start st',
    scan r must_advance bef aft = Some (start, st') ->
    exists mid rest,
      aft = mid ++ rest /\ start = length (rev mid ++ bef)
      /\ matches r (MState (rev mid ++ bef) rest []) st'.
Proof.
  induction aft as [|c aft IH]; intros must_advance bef start st' H;
    rewrite scan_eq in H;
    destruct (rmatch r (MState bef _ []) _) as [st1|] eqn:E.
  - injection H as <- <-. destruct (rmatch_sound _ _ _ _ E) as [st2 [Hm Hk]].
    destruct (_ && _); [discriminate Hk | ]. injection Hk as ->.
    exists [], []. repeat split. exact Hm.
  - discriminate H.
  - injection H as <- <-. destruct (rmatch_sound _ _ _ _ E) as [st2 [Hm Hk]].
    destruct (_ && _); [discriminate Hk | ]. injection Hk as ->.
    exists [], (c :: aft). repeat split. exact Hm.
  - destruct (IH _ _ _ _ H) as [mid [rest [-> [-> Hm]]]].
    exists (c :: mid), rest. cbn [rev app]. rewrite <- !app_assoc. cbn [app].
    repeat split. exact Hm.
Qed.

(** What [re.search] returns is a match of the pattern somewhere in the
    subject. *)
Lemma search_sound (r : regex) (s : str) (m : match_obj) :
  search r s = Some m ->
  exists pre rest st',
    s = pre ++ rest
    /\ matches r (MState (rev pre) rest []) st'
    /\ m = Match s (length pre) (pos st') (caps st').
Proof.
  unfold search. destruct (scan r false [] s) as [[start st']|] eqn:E;
    [ | discriminate].
  intros H. injection H as <-.
  destruct (scan_sound _ _ _ _ _ _ E) as [mid [rest [-> [-> Hm]]]].
  rewrite app_nil_r in *. exists mid, rest, st'.
  rewrite length_rev. repeat split. exact Hm.
Qed.

Lemma slice_middle (a g b : str) :
  slice (a ++ g ++ b) (length a) (length a + length g) = g.
Proof.
  unfold slice. rewrite skipn_app, skipn_all, Nat.sub_diag. cbn [app skipn].
  replace (length a + length g - length a) with (length g + 0) by lia.
  rewrite firstn_app_2. cbn [firstn]. apply app_nil_r.
Qed.

Lemma slice_to_end (a g : str) :
  slice (a ++ g) (length a) (length (a ++ g)) = g.
Proof.
  rewrite <- (app_nil_r g) at 1. rewrite length_app. apply slice_middle.
Qed.

(** ** Locating a section *)

Lemma py_colon_lf : py ":\n" = [58; 10]%N.
Proof. vm_compute. reflexivity. Qed.

Lemma py_lf_lf : py "\n\n" = [LF; LF].
Proof. vm_compute. reflexivity. Qed.

Lemma oneof_colon_lf (c : char) :
  oneof (py ":\n") c = true -> c = 58%N \/ c = LF.
Proof.
  rewrite py_colon_lf. unfold oneof. cbn [existsb]. rewrite orb_false_r.
  intros H. apply orb_true_iff in H. destruct H as [H|H]; apply N.eqb_eq in H; auto.
Qed.

(** A section pattern that matches has found its heading, then a colon or a
    line break, and its second group holds what follows up to the first
    blank line or the end of the text. *)
Lemma section_after_found (heading : regex) (s : str) (m : match_obj) :
  search (section_after heading) s = Some m ->
  exists pre word c section rest st_h,
    s = pre ++ word ++ c :: section ++ rest
    /\ matches heading (MState (rev pre) (word ++ c :: section ++ rest) []) st_h
    /\ after st_h = c :: section ++ rest
    /\ (c = 58%N \/ c = LF)
    /\ (rest = [] \/ exists rest', rest = LF :: LF :: rest')
    /\ group m 2 = Some section.
Proof.
  intros H. destruct (search_sound _ _ _ H) as [pre [rest0 [st' [-> [Hm ->]]]]].
  unfold section_after, lazy_star, lit in Hm. rewrite py_lf_lf in Hm.
  cbn [matches lit_with] in Hm.
  destruct Hm as [st1 [[st_h [Hh ->]] [st2 [[c [rest2 [Ha [Hc ->]]]]
                   [st3 [[st_g [Hg ->]] Htail]]]]]].
  destruct (matches_moves _ _ _ Hh) as [word [Hw Hbw]].
  destruct (matches_moves (Rep false 0 None (Chr any)) _ _ Hg) as [section [Hsec Hbsec]].
  cbn [after before caps close_group set_caps pos] in *.
  assert (Hcaps : caps st' = (2, (S (length (before st_h)), length (before st_g)))
                             :: caps st_g
                  /\ (after st_g = [] \/ exists rest', after st_g = LF :: LF :: rest')).
  { destruct Htail as [[st4 [[c1 [r1 [Ha1 [Hc1 ->]]]] [c2 [r2 [Ha2 [Hc2 ->]]]]]]
                      | [Hend ->]];
      cbn [after before caps close_group set_caps pos] in *.
    - split; [reflexivity | right].
      apply N.eqb_eq in Hc1, Hc2. subst c1 c2. rewrite Ha1, Ha2. now exists r2.
    - split; [reflexivity | left; exact Hend]. }
  destruct Hcaps as [Hcaps Hrest].
  exists pre, word, c, section, (after st_g), st_h.
  rewrite Ha in Hw. rewrite Hsec in Hw. rewrite Hsec in Ha.
  repeat split.
  - rewrite Hw. reflexivity.
  - rewrite <- Hw. exact Hh.
  - exact Ha.
  - apply oneof_colon_lf. exact Hc.
  - exact Hrest.
  - unfold group. cbn [m_caps m_string]. rewrite Hcaps. cbn [lookup Nat.eqb].
    rewrite Hbsec, Hbw, Hw. cbn [app]. f_equal.
    replace (pre ++ word ++ c :: section ++ after st_g)
      with ((pre ++ word ++ [c]) ++ section ++ after st_g)
      by (rewrite <- !app_assoc; reflexivity).
    replace (S (length (rev word ++ rev pre))) with (length (pre ++ word ++ [c]))
      by (rewrite !length_app, !length_rev; cbn [length]; lia).
    replace (length (rev section ++ c :: rev word ++ rev pre))
      with (length (pre ++ word ++ [c]) + length section)
      by (rewrite !length_app, !length_rev; cbn [length];
          rewrite !length_app, !length_rev; lia).
    apply slice_middle.
Qed.

Lemma section_of_some (heading : regex) (s : str) (m : match_obj) :
  search (section_after heading) s = Some m ->
  exists section, group m 2 = Some section.
Proof.
  intros H.
  destruct (section_after_found _ _ _ H) as [_ [_ [_ [section [_ [_ [_ [_ [_ [_ [_ Hg]]]]]]]]]]].
  now exists section.
Qed.

(** ** Splitting at a class of characters *)

Lemma split_at_not_nil (sep : char -> bool) (s : str) : split_at sep s <> [].
Proof.
  destruct s as [|c t]; cbn [split_at]; [discriminate | ].
  destruct (sep c); [discriminate | ]. destruct (split_at sep t); discriminate.
Qed.

Lemma split_at_free (sep : char -> bool) (s : str) :
  free_of sep s = true -> split_at sep s = [s].
Proof.
  induction s as [|c t IH]; cbn [free_of forallb split_at]; [reflexivity | ].
  intros H. apply andb_true_iff in H. destruct H as [Hc Ht].
  apply negb_true_iff in Hc. rewrite Hc, (IH Ht). reflexivity.
Qed.

(** Splitting distributes over a separator. *)
Lemma split_at_app (sep : char -> bool) (u v : str) (c : char) :
  sep c = true ->
  split_at sep (u ++ c :: v) = split_at sep u ++ split_at sep v.
Proof.
  intros Hc. induction u as [|x u IH]; cbn [app split_at].
  - rewrite Hc. reflexivity.
  - destruct (sep x); rewrite IH; [reflexivity | ].
    destruct (split_at sep u) as [|h t] eqn:E; [ | reflexivity].
    exfalso. apply (split_at_not_nil _ _ E).
Qed.

Lemma split_at_first (sep : char -> bool) (pre post : str) (c : char) :
  free_of sep pre = true -> sep c = true ->
  split_at sep (pre ++ c :: post) = pre :: split_at sep post.
Proof.
  intros Hpre Hc. rewrite (split_at_app _ _ _ _ Hc), (split_at_free _ _ Hpre).
  reflexivity.
Qed.

Lemma first_sep (sep : char -> bool) (s : str) :
  free_of sep s = true
  \/ exists pre c post, s = pre ++ c :: post /\ free_of sep pre = true /\ sep c = true.
Proof.
  induction s as [|x t IH]; [left; reflexivity | ].
  destruct (sep x) eqn:Ex.
  - right. exists [], x, t. repeat split. exact Ex.
  - destruct IH as [Hfree | [pre [c [post [-> [Hpre Hc]]]]]].
    + left. cbn [free_of forallb]. rewrite Ex. exact Hfree.
    + right. exists (x :: pre), c, post. repeat split; [ | exact Hc].
      cbn [free_of forallb]. rewrite Ex. exact Hpre.
Qed.

Lemma scan_chr_none (sep : char -> bool) :
  forall aft bef, free_of sep aft = true -> scan (Chr sep) false bef aft = None.
Proof.
  induction aft as [|c aft IH]; intros bef H; rewrite scan_eq; cbn [rmatch after].
  - reflexivity.
  - cbn [free_of forallb] in H. apply andb_true_iff in H. destruct H as [Hc Ht].
    apply negb_true_iff in Hc. rewrite Hc. apply IH. exact Ht.
Qed.

Lemma scan_chr_some (sep : char -> bool) (c : char) (post : str) :
  sep c = true ->
  forall pre bef, free_of sep pre = true ->
    scan (Chr sep) false bef (pre ++ c :: post)
    = Some (length (rev pre ++ bef), MState (c :: rev pre ++ bef) post []).
Proof.
  intros Hc. induction pre as [|x pre IH]; intros bef H; rewrite scan_eq;
    cbn [app rmatch after before caps].
  - rewrite Hc. reflexivity.
  - cbn [free_of forallb] in H. apply andb_true_iff in H. destruct H as [Hx Ht].
    apply negb_true_iff in Hx. rewrite Hx, (IH _ Ht). cbn [rev].
    rewrite <- !app_assoc. reflexivity.
Qed.

Lemma split_loop_chr (sep : char -> bool) :
  forall fuel aft bef,
    length aft < fuel ->
    split_loop (Chr sep) (rev bef ++ aft) fuel false bef aft (length bef)
    = map Some (split_at sep aft).
Proof.
  induction fuel as [|fuel IH]; intros aft bef Hfuel; [lia | ].
  cbn [split_loop].
  destruct (first_sep sep aft) as [Hfree | [pre [c [post [-> [Hpre Hc]]]]]].
  - rewrite (scan_chr_none _ _ _ Hfree), (split_at_free _ _ Hfree).
    cbn [map]. rewrite <- (length_rev bef), slice_to_end. reflexivity.
  - rewrite (scan_chr_some _ _ _ Hc _ _ Hpre), (split_at_first _ _ _ _ Hpre Hc).
    unfold pos, groups. cbn [map ngroups seq before after app].
    replace (length (c :: rev pre ++ bef) =? length (rev pre ++ bef)) with false
      by (symmetry; apply Nat.eqb_neq; cbn [length]; lia).
    replace (length (rev pre ++ bef)) with (length (rev bef) + length pre)
      by (rewrite !length_app, !length_rev; lia).
    rewrite <- (length_rev bef) at 1. rewrite slice_middle. f_equal.
    replace (rev bef ++ pre ++ c :: post) with (rev (c :: rev pre ++ bef) ++ post)
      by (cbn [rev]; rewrite rev_app_distr, rev_involutive, <- !app_assoc; reflexivity).
    apply (IH post (c :: rev pre ++ bef)).
    rewrite length_app in Hfuel. cbn [length] in Hfuel. lia.
Qed.

(** [re.split] at a class of characters gives the pieces between the
    characters of the class, and no [None]. *)
Lemma split_chr (sep : char -> bool) (s : str) :
  split (Chr sep) s = map Some (split_at sep s).
Proof.
  unfold split. apply (split_loop_chr sep (2 * length s + 2) s []). lia.
Qed.

Lemma split_loop_strings (r : regex) (s : str) :
  ngroups r = 0 ->
  forall fuel must_advance bef aft last,
    exists pieces, split_loop r s fuel must_advance bef aft last = map Some pieces.
Proof.
  intros Hr. induction fuel as [|fuel IH]; intros must_advance bef aft last;
    cbn [split_loop].
  - now exists [slice s last (length s)].
  - destruct (scan r must_advance bef aft) as [[start st]|].
    + destruct (IH (pos st =? start) (before st) (after st) (pos st)) as [pieces ->].
      exists (slice s last start :: pieces).
      unfold groups. rewrite Hr. reflexivity.
    + now exists [slice s last (length s)].
Qed.

(** A pattern without groups splits a string into strings. *)
Lemma split_strings (r : regex) (s : str) :
  ngroups r = 0 -> exists pieces, split r s = map Some pieces.
Proof. intros Hr. apply (split_loop_strings r s Hr). Qed.

(** ** The loops of the extractors *)

Lemma add_skill_some (skills_set : list str) (piece : str) :
  add_skill skills_set (Some piece) = Ok (add_piece skills_set piece).
Proof.
  unfold add_skill, add_piece, strip_of, bind.
  destruct (truthy (strip piece) && (1 <? length (strip piece))); reflexivity.
Qed.

Lemma for_each_add_skill (pieces : list str) :
  forall skills_set,
    for_each (map Some pieces) skills_set add_skill
    = Ok (fold_left add_piece pieces skills_set).
Proof.
  induction pieces as [|piece pieces IH]; intros skills_set; cbn [map for_each fold_left].
  - reflexivity.
  - rewrite add_skill_some. cbn [bind]. apply IH.
Qed.

Lemma for_each_add_stripped (pieces : list str) :
  forall acc,
    for_each (map Some pieces) acc add_stripped
    = Ok (acc ++ filter truthy (map strip pieces)).
Proof.
  induction pieces as [|piece pieces IH]; intros acc; cbn [map for_each filter].
  - rewrite app_nil_r. reflexivity.
  - unfold add_stripped at 1. cbn [strip_of bind].
    destruct (truthy (strip piece)); cbn [bind]; rewrite IH.
    + rewrite <- app_assoc. reflexivity.
    + reflexivity.
Qed.

Lemma for_each_add_education (pieces : list str) :
  forall acc,
    for_each (map Some pieces) acc add_education
    = Ok (acc ++ map education_entry
                   (filter (fun entry => truthy (strip entry)) pieces)).
Proof.
  induction pieces as [|piece pieces IH]; intros acc; cbn [map for_each filter].
  - rewrite app_nil_r. reflexivity.
  - unfold add_education at 1. cbn [strip_of bind].
    destruct (truthy (strip piece)); cbn [bind map]; rewrite IH.
    + rewrite <- app_assoc. reflexivity.
    + reflexivity.
Qed.


Lemma for_each_add_experience_none (entries : list (option str)) :
  In None entries ->
  forall acc, for_each entries acc add_experience = Raise none_has_no_strip.
Proof.
  induction entries as [|entry entries IH]; intros Hin acc; [destruct Hin | ].
  cbn [for_each]. destruct entry as [entry|]; unfold add_experience at 1;
    cbn [strip_of bind]; [ | reflexivity].
  destruct Hin as [Hin|Hin]; [discriminate Hin | ].
  destruct (truthy (strip entry)); cbn [bind]; apply (IH Hin).
Qed.

(** ** The extractors that cannot fail *)

Lemma add_skills_of_section (text : str) (skills_set : list str) (heading : regex) :
  add_skills_of text skills_set (section_after heading)
  = Ok (skills_from text skills_set (section_after heading)).
Proof.
  unfold add_skills_of, skills_from, section_of.
  destruct (search (section_after heading) text) as [m|] eqn:E; [ | reflexivity].
  destruct (section_of_some _ _ _ E) as [section ->].
  unfold split_of, skills_separator. cbn [bind]. rewrite split_chr.
  apply for_each_add_skill.
Qed.

Lemma extract_skills_eq (self : CVParser) :
  extract_skills self
  = Ok (sorted (fold_left (skills_from (extracted_text self)) skills_patterns [])).
Proof.
  unfold extract_skills, skills_patterns. cbn [for_each fold_left].
  rewrite add_skills_of_section. cbn [bind].
  rewrite add_skills_of_section. reflexivity.
Qed.

Lemma section_items_eq (heading : regex) (sep : char -> bool) (text : str) :
  section_items (section_after heading) (Chr sep) text
  = Ok match section_of (section_after heading) text with
       | Some section => items sep section
       | None => []
       end.
Proof.
  unfold section_items, section_of.
  destruct (search (section_after heading) text) as [m|] eqn:E; [ | reflexivity].
  destruct (section_of_some _ _ _ E) as [section ->].
  unfold split_of. cbn [bind]. rewrite split_chr.
  apply (for_each_add_stripped _ []).
Qed.

Lemma extract_education_ok (self : CVParser) :
  exists parsed, extract_education self = Ok parsed.
Proof.
  unfold extract_education, education_pattern.
  destruct (search _ (extracted_text self)) as [m|] eqn:E; [ | now exists []].
  destruct (section_of_some _ _ _ E) as [section ->].
  unfold split_of. cbn [bind].
  destruct (split_strings education_separator section eq_refl) as [pieces ->].
  rewrite (for_each_add_education _ []). eexists. reflexivity.
Qed.


(** ** Headings *)

Lemma spells_chr (x : char) : spells (Chr (ci x)) [[x]].
Proof.
  intros st st' H. cbn [matches] in H. destruct H as [y [rest [Ha [Hy ->]]]].
  exists [x]. split; [left; reflexivity | ]. intros tail.
  rewrite Ha. cbn [app spelled after]. rewrite Hy. reflexivity.
Qed.

Lemma spells_lit (w : str) : w <> [] -> spells (lit_with ci w) [w].
Proof.
  induction w as [|x w IH]; intros Hw; [contradiction | ].
  destruct w as [|x' w]; [apply spells_chr | ].
  intros st st' H. cbn [lit_with matches] in H. destruct H as [st1 [H1 H2]].
  destruct (spells_chr x _ _ H1) as [w1 [[<-|[]] E1]].
  destruct (IH ltac:(discriminate) _ _ H2) as [w2 [[<-|[]] E2]].
  exists (x :: x' :: w). split; [left; reflexivity | ]. intros tail.
  rewrite <- E2. apply (E1 ((x' :: w) ++ tail)).
Qed.

Lemma spells_ilit (s : string) : py s <> [] -> spells (ilit s) [py s].
Proof. apply spells_lit. Qed.

Lemma spells_alt (r1 r2 : regex) (ws1 ws2 : list str) :
  spells r1 ws1 -> spells r2 ws2 -> spells (Alt r1 r2) (ws1 ++ ws2).
Proof.
  intros H1 H2 st st' [H|H].
  - destruct (H1 _ _ H) as [w [Hin E]]. exists w. split; [ | exact E].
    apply in_or_app. now left.
  - destruct (H2 _ _ H) as [w [Hin E]]. exists w. split; [ | exact E].
    apply in_or_app. now right.
Qed.

(** [r] followed by an optional letter [x]. *)
Lemma spells_then_opt (r : regex) (ws : list str) (x : char) :
  spells r ws ->
  spells (Seq r (opt (Chr (ci x)))) (ws ++ map (fun w => w ++ [x]) ws).
Proof.
  intros Hr st st' H. cbn [matches opt] in H.
  destruct H as [st1 [H1 [n [_ [Hn Hrounds]]]]].
  destruct (Hr _ _ H1) as [w [Hin E]].
  destruct n as [|[|n]]; cbn [rounds within] in *; [ | | lia].
  - subst st'. exists w. split; [apply in_or_app; now left | exact E].
  - destruct Hrounds as [st2 [H2 [_ ->]]].
    destruct (spells_chr x _ _ H2) as [w2 [[<-|[]] E2]].
    exists (w ++ [x]). split.
    + apply in_or_app. right. apply in_map_iff. now exists w.
    + intros tail. rewrite <- app_assoc, E. apply E2.
Qed.

Lemma all_among_incl (ws words : list str) :
  all_among ws words = true -> forall w, In w ws -> In w words.
Proof.
  unfold all_among. rewrite forallb_forall. intros H w Hin.
  specialize (H w Hin). apply existsb_exists in H.
  destruct H as [w' [Hin' Heq]]. apply str_eqb_eq in Heq. now subst w'.
Qed.

Lemma heading_at_intro (words : list str) (w s : str) (c : char) :
  In w words -> (c = 58%N \/ c = LF) -> spelled (w ++ [c]) s = true ->
  heading_at words s = true.
Proof.
  intros Hin Hc Hs. unfold heading_at. apply existsb_exists. exists w.
  split; [exact Hin | ]. apply orb_true_iff.
  destruct Hc as [-> | ->]; [left | right]; exact Hs.
Qed.

Lemma has_heading_app (words : list str) (pre s : str) :
  heading_at words s = true -> has_heading words (pre ++ s) = true.
Proof.
  intros H. induction pre as [|x pre IH].
  - destruct s; cbn [app has_heading]; rewrite H; reflexivity.
  - cbn [app has_heading]. rewrite IH. apply orb_true_r.
Qed.

(** A text without a heading has no section. *)
Lemma no_heading_no_section (heading : regex) (ws : list str) (text : str) :
  spells heading ws ->
  all_among ws heading_words = true ->
  has_heading heading_words text = false ->
  search (section_after heading) text = None.
Proof.
  intros Hsp Hws Hfree.
  destruct (search (section_after heading) text) as [m|] eqn:E; [ | reflexivity].
  destruct (section_after_found _ _ _ E)
    as [pre [word [c [section [rest [st_h [-> [Hm [Ha [Hc _]]]]]]]]]].
  destruct (Hsp _ _ Hm) as [w [Hin Hw]].
  rewrite (has_heading_app heading_words pre) in Hfree; [discriminate Hfree | ].
  apply (heading_at_intro heading_words w _ c).
  - apply (all_among_incl _ _ Hws). exact Hin.
  - exact Hc.
  - specialize (Hw [c]). cbn [after] in Hw. rewrite Hw, Ha.
    cbn [spelled]. destruct Hc as [-> | ->]; reflexivity.
Qed.

Ltac spell :=
  repeat first
    [ apply spells_alt
    | apply spells_then_opt
    | apply spells_ilit; vm_compute; discriminate ].

Lemma ilit_S : ilit "S" = Chr (ci 83%N).
Proof. vm_compute. reflexivity. Qed.

(** Without a heading, none of the six section patterns matches. *)
Lemma no_heading_no_match (text : str) :
  has_heading heading_words text = false ->
  Forall (fun pattern => search pattern text = None) section_patterns.
Proof.
  intros H. unfold section_patterns, skills_patterns, education_pattern,
    experience_pattern, cert_pattern, lang_pattern. rewrite ilit_S.
  repeat constructor;
    (eapply no_heading_no_section; [spell | vm_compute; reflexivity | exact H]).
Qed.

(** ** The aggregator *)

Lemma extract_additional_info_eq (self : CVParser) :
  extract_additional_info self
  = Ok {| certifications :=
            match section_of cert_pattern (extracted_text self) with
            | Some section => items (oneof (py "\n•")) section
            | None => []
            end;
          languages :=
            match section_of lang_pattern (extracted_text self) with
            | Some section => items (oneof (py ",•\n")) section
            | None => []
            end |}.
Proof.
  unfold extract_additional_info, cert_pattern, lang_pattern, cert_separator,
    lang_separator.
  rewrite !section_items_eq. reflexivity.
Qed.

(** The aggregation goes as the extraction of the experience goes: the
    other four extractors always return. *)
Lemma extract_information_cases (self : CVParser) :
  match extract_experience self with
  | Ok ex =>
    exists data,
      extract_information self
      = Ok {| extracted_text := extracted_text self; parsed_data := Some data |}
      /\ extract_skills self = Ok (skills data)
      /\ extract_education self = Ok (education data)
      /\ experience data = ex
      /\ extract_contact_info self = Ok (contact data)
      /\ extract_additional_info self = Ok (additional data)
  | Raise e => extract_information self = Raise e
  end.
Proof.
  unfold extract_information, build_parsed_data.
  rewrite extract_skills_eq, extract_additional_info_eq.
  destruct (extract_education_ok self) as [ed ->]. cbn [bind].
  destruct (extract_experience self) as [ex|e]; cbn [bind]; [ | reflexivity].
  unfold extract_contact_info. cbn [bind].
  eexists. split; [reflexivity | ]. cbn [skills education experience contact additional].
  repeat split.
Qed.

Lemma build_parsed_data_raises (sk : result (list str))
    (ed : result (list Education)) (ex : result (list Experience))
    (c : result Contact) (a : result Additional) :
  raises (build_parsed_data sk ed ex c a)
  = raises sk || raises ed || raises ex || raises c || raises a.
Proof.
  destruct sk, ed, ex, c, a; reflexivity.
Qed.

(** C3, as stated, fails: a text without any heading still has the
    contact data found in it, here an e-mail address, where the claim has
    a record of empty strings. *)
Lemma contact_without_heading :
  has_heading heading_words (py "jane.doe@example.com") = false
  /\ extract_information (reading "jane.doe@example.com")
     = Ok {| extracted_text := py "jane.doe@example.com";
             parsed_data :=
               Some {| skills := []; education := []; experience := [];
                       contact := {| email := py "jane.doe@example.com";
                                     phone := []; linkedin := []; location := [] |};
                       additional := {| certifications := []; languages := [] |} |} |}
  /\ py "jane.doe@example.com" <> [].
Proof.
  repeat split; try (vm_compute; reflexivity). vm_compute. discriminate.
Qed.

(** C3, amended: whenever the extraction of the experience returns, the
    aggregator returns a record with the five keys; and on a text without
    any heading (none of the heading words, in any letter case, followed by
    a colon or a line break) it does not raise, skills, education and
    experience are empty lists, the additional information is two empty
    lists, and each contact field holds what its pattern finds in the whole
    text, the empty string when it finds nothing. *)
Theorem aggregator_record (self : CVParser) :
  (forall ex, extract_experience self = Ok ex ->
     exists data,
       extract_information self
       = Ok {| extracted_text := extracted_text self; parsed_data := Some data |}
       /\ experience data = ex)
  /\ (has_heading heading_words (extracted_text self) = false ->
      extract_information self
      = Ok {| extracted_text := extracted_text self;
              parsed_data :=
                Some {| skills := [];
                        education := [];
                        experience := [];
                        contact :=
                          {| email :=
                               group0_or_empty
                                 (search email_pattern (extracted_text self));
                             phone :=
                               group0_or_empty
                                 (search phone_pattern (extracted_text self));
                             linkedin :=
                               group0_or_empty
                                 (search linkedin_pattern (extracted_text self));
                             location :=
                               match search location_pattern (extracted_text self) with
                               | Some m => strip (group0 m)
                               | None => []
                               end |};
                        additional :=
                          {| certifications := []; languages := [] |} |} |}).
Proof.
  split.
  - intros ex Hex. pose proof (extract_information_cases self) as H.
    rewrite Hex in H. destruct H as [data [H [_ [_ [H' _]]]]]. now exists data.
  - intros Hfree. pose proof (no_heading_no_match _ Hfree) as Hnone.
    unfold section_patterns, skills_patterns in Hnone. cbn [app] in Hnone.
    inversion_clear Hnone as [|? ? Hs1 Hnone1].
    inversion_clear Hnone1 as [|? ? Hs2 Hnone2].
    inversion_clear Hnone2 as [|? ? Hed Hnone3].
    inversion_clear Hnone3 as [|? ? Hex Hnone4].
    inversion_clear Hnone4 as [|? ? Hcert Hnone5].
    inversion_clear Hnone5 as [|? ? Hlang _].
    unfold extract_information, build_parsed_data.
    rewrite extract_skills_eq, extract_additional_info_eq.
    unfold skills_patterns, extract_education, extract_experience,
      extract_contact_info, skills_from, section_of.
    cbn [fold_left]. rewrite Hs1, Hs2, Hed, Hex, Hcert, Hlang. reflexivity.
Qed.

Lemma aggregator_record_witness :
  (exists data,
     extract_information
       (reading "WORK EXPERIENCE:Acme Corp, Engineer, Jan 2020 to Present\nBuilt systems.")
     = Ok {| extracted_text :=
               extracted_text
                 (reading "WORK EXPERIENCE:Acme Corp, Engineer, Jan 2020 to Present\nBuilt systems.");
             parsed_data := Some data |}
     /\ experience data
        = [ {| company := py "Acme Corp"; position := py "Engineer";
               dates := py "Present"; description := py "Built systems." |} ])
  /\ raises (extract_information (reading "Jane Doe\n+1 555-123-4567")) = false.
Proof.
  split.
  - refine (proj1 (aggregator_record _) _ _). vm_compute. reflexivity.
  - rewrite (proj2 (aggregator_record (reading "Jane Doe\n+1 555-123-4567"))).
    + reflexivity.
    + vm_compute. reflexivity.
Defined.

(** C5: the failure of [extract_experience] on the example is not
    replaced by an empty list, as the claim has it: it leaves
    [extract_information] without a record, and [parse_cv] raises
    [Error parsing CV: 'NoneType' object has no attribute 'strip']. *)
Lemma failure_is_not_absorbed :
  extract_information
    (reading "WORK EXPERIENCE:Acme Corp, Engineer\nJan 2020 to Present\nBuilt systems.")
  = Raise none_has_no_strip
  /\ returned (parse_cv acme_world __init__ (py "cv.pdf"))
     = Raise (error_parsing_cv none_has_no_strip)
  /\ forall data, returned (parse_cv acme_world __init__ (py "cv.pdf")) <> Ok data.
Proof.
  assert (H : returned (parse_cv acme_world __init__ (py "cv.pdf"))
              = Raise (error_parsing_cv none_has_no_strip))
    by (vm_compute; reflexivity).
  split; [vm_compute; reflexivity | split; [exact H | ]].
  intros data. rewrite H. discriminate.
Qed.

(** ** Certifications and languages *)

(** C8, as stated, fails: the languages are also split at commas. *)
Lemma languages_split_at_commas :
  extract_additional_info (reading "LANGUAGES:English, French")
  = Ok {| certifications := []; languages := [py "English"; py "French"] |}
  /\ section_of lang_pattern (py "LANGUAGES:English, French")
     = Some (py "English, French")
  /\ items (oneof (py "\n•")) (py "English, French") = [py "English, French"]
  /\ [py "English"; py "French"] <> [py "English, French"].
Proof.
  repeat split; try (vm_compute; reflexivity). vm_compute. discriminate.
Qed.

(** C8, amended: the two sections are located each by its own pattern; the
    text of the certifications is split at line breaks and bullets only,
    the text of the languages at commas, bullets and line breaks; each
    piece is trimmed and the empty ones are left out; the items come in
    the order of the text, repeated ones included. *)
Theorem additional_info_items :
  (forall self,
     extract_additional_info self
     = Ok {| certifications :=
               match section_of cert_pattern (extracted_text self) with
               | Some section =>
                 filter truthy (map strip (split_at (oneof [LF; bullet]) section))
               | None => []
               end;
             languages :=
               match section_of lang_pattern (extracted_text self) with
               | Some section =>
                 filter truthy
                   (map strip (split_at (oneof [44%N; bullet; LF]) section))
               | None => []
               end |})
  /\ extract_additional_info
       (reading "CERTIFICATES:\nZeta, level 2\n• Alpha\nZeta, level 2\n\nLanguages: French, English•French")
     = Ok {| certifications := [py "Zeta, level 2"; py "Alpha"; py "Zeta, level 2"];
             languages := [py "French"; py "English"; py "French"] |}.
Proof.
  split; [ | vm_compute; reflexivity].
  intros self. rewrite extract_additional_info_eq. reflexivity.
Qed.

(** ** Order, sorting and sets of strings *)

Lemma str_ltb_irrefl (a : str) : str_ltb a a = false.
Proof.
  induction a as [|x a IH]; cbn [str_ltb]; [reflexivity | ].
  rewrite N.ltb_irrefl, N.eqb_refl, IH. reflexivity.
Qed.

Lemma str_ltb_trans (a : str) :
  forall b c, str_ltb a b = true -> str_ltb b c = true -> str_ltb a c = true.
Proof.
  induction a as [|x a IH]; intros [|y b] [|z c] Hab Hbc; cbn [str_ltb] in *;
    try discriminate; try reflexivity.
  apply orb_true_iff in Hab. apply orb_true_iff in Hbc. apply orb_true_iff.
  destruct Hab as [Hab | Hab]; destruct Hbc as [Hbc | Hbc];
    try (apply andb_true_iff in Hab; destruct Hab as [Exy Hab]; apply N.eqb_eq in Exy);
    try (apply andb_true_iff in Hbc; destruct Hbc as [Eyz Hbc]; apply N.eqb_eq in Eyz);
    try (apply N.ltb_lt in Hab); try (apply N.ltb_lt in Hbc).
  - left. apply N.ltb_lt. lia.
  - left. apply N.ltb_lt. lia.
  - left. apply N.ltb_lt. lia.
  - right. apply andb_true_iff. split; [apply N.eqb_eq; lia | apply (IH b c Hab Hbc)].
Qed.

Lemma str_ltb_total (a : str) :
  forall b, str_ltb a b = false -> str_ltb b a = false -> a = b.
Proof.
  induction a as [|x a IH]; intros [|y b] Hab Hba; cbn [str_ltb] in *;
    try discriminate; try reflexivity.
  apply orb_false_iff in Hab. apply orb_false_iff in Hba.
  destruct Hab as [Hxy Hab]. destruct Hba as [Hyx Hba].
  apply N.ltb_ge in Hxy. apply N.ltb_ge in Hyx.
  assert (x = y) by lia. subst y. rewrite N.eqb_refl in Hab, Hba.
  cbn [andb] in Hab, Hba. rewrite (IH b Hab Hba). reflexivity.
Qed.

Lemma str_le_trans (a b c : str) : str_le a b -> str_le b c -> str_le a c.
Proof.
  unfold str_le, str_leb. intros Hab Hbc.
  apply negb_true_iff in Hab. apply negb_true_iff in Hbc. apply negb_true_iff.
  destruct (str_ltb c a) eqn:Hca; [ | reflexivity].
  destruct (str_ltb a b) eqn:Hab'.
  - rewrite (str_ltb_trans _ _ _ Hca Hab') in Hbc. discriminate Hbc.
  - rewrite <- (str_ltb_total _ _ Hab' Hab) in Hbc. rewrite Hca in Hbc.
    discriminate Hbc.
Qed.

Lemma str_le_total (a b : str) : str_leb a b = false -> str_le b a.
Proof.
  unfold str_le, str_leb. intros H. apply negb_false_iff in H.
  apply negb_true_iff. destruct (str_ltb a b) eqn:E; [ | reflexivity].
  pose proof (str_ltb_trans _ _ _ H E) as Hbb. rewrite str_ltb_irrefl in Hbb.
  discriminate Hbb.
Qed.

Lemma str_le_lt (a b : str) : str_le a b -> a <> b -> str_lt a b.
Proof.
  unfold str_le, str_leb, str_lt. intros H Hne. apply negb_true_iff in H.
  destruct (str_ltb a b) eqn:E; [reflexivity | ].
  exfalso. apply Hne. apply (str_ltb_total _ _ E H).
Qed.

Lemma insert_sorted_perm (x : str) (l : list str) :
  Permutation (insert_sorted x l) (x :: l).
Proof.
  induction l as [|y l IH]; cbn [insert_sorted]; [reflexivity | ].
  destruct (str_leb x y); [reflexivity | ].
  rewrite IH. apply perm_swap.
Qed.

Lemma sorted_perm (l : list str) : Permutation (sorted l) l.
Proof.
  induction l as [|x l IH]; cbn [sorted fold_right]; [reflexivity | ].
  fold (sorted l). rewrite insert_sorted_perm. now constructor.
Qed.

Lemma insert_sorted_le (x : str) (l : list str) :
  StronglySorted str_le l -> StronglySorted str_le (insert_sorted x l).
Proof.
  induction l as [|y l IH]; intros Hl; cbn [insert_sorted].
  - repeat constructor.
  - inversion_clear Hl as [|? ? Hl' Hy].
    destruct (str_leb x y) eqn:E.
    + constructor; [constructor; assumption | ].
      constructor; [exact E | ].
      eapply Forall_impl; [ | exact Hy]. intros z Hz. apply (str_le_trans _ _ _ E Hz).
    + constructor; [apply IH; exact Hl' | ].
      eapply Permutation_Forall.
      * symmetry. apply insert_sorted_perm.
      * constructor; [apply str_le_total; exact E | exact Hy].
Qed.

Lemma sorted_le (l : list str) : StronglySorted str_le (sorted l).
Proof.
  induction l as [|x l IH]; cbn [sorted fold_right]; [constructor | ].
  apply insert_sorted_le. exact IH.
Qed.

Lemma strongly_sorted_lt (l : list str) :
  StronglySorted str_le l -> NoDup l -> StronglySorted str_lt l.
Proof.
  induction 1 as [|x l Hl IH Hx]; intros Hnd; [constructor | ].
  inversion_clear Hnd as [|? ? Hnotin Hnd'].
  constructor; [apply IH; exact Hnd' | ].
  rewrite Forall_forall in *. intros y Hy. apply str_le_lt; [apply Hx; exact Hy | ].
  intros ->. contradiction.
Qed.

(** [sorted] of a set: in increasing order, nothing twice, nothing lost. *)
Lemma sorted_set (l : list str) :
  NoDup l ->
  StronglySorted str_lt (sorted l) /\ NoDup (sorted l)
  /\ forall x, In x (sorted l) <-> In x l.
Proof.
  intros Hnd.
  assert (Hnd' : NoDup (sorted l))
    by (apply (Permutation_NoDup (l := l)); [symmetry; apply sorted_perm | exact Hnd]).
  split; [apply strongly_sorted_lt; [apply sorted_le | exact Hnd'] | ].
  split; [exact Hnd' | ].
  intros x. split; apply Permutation_in; [ | symmetry]; apply sorted_perm.
Qed.

Lemma existsb_str_eqb (x : str) (s : list str) :
  existsb (str_eqb x) s = true <-> In x s.
Proof.
  rewrite existsb_exists. split.
  - intros [y [Hin Heq]]. apply str_eqb_eq in Heq. now subst y.
  - intros Hin. exists x. split; [exact Hin | now apply str_eqb_eq].
Qed.

Lemma set_add_in (x y : str) (s : list str) :
  In y (set_add x s) <-> y = x \/ In y s.
Proof.
  unfold set_add. destruct (existsb (str_eqb x) s) eqn:E.
  - apply existsb_str_eqb in E. split; [now right | ].
    intros [-> | H]; assumption.
  - rewrite in_app_iff. cbn [In]. split.
    + intros [H | [<- | []]]; [now right | now left].
    + intros [-> | H]; [right; now left | now left].
Qed.

Lemma set_add_nodup (x : str) (s : list str) : NoDup s -> NoDup (set_add x s).
Proof.
  intros Hs. unfold set_add. destruct (existsb (str_eqb x) s) eqn:E; [exact Hs | ].
  apply (Permutation_NoDup (l := x :: s)).
  - apply Permutation_cons_append.
  - constructor; [ | exact Hs]. intros Hin. apply existsb_str_eqb in Hin.
    rewrite Hin in E. discriminate E.
Qed.

Lemma set_add_same (x : str) (s : list str) : In x s -> set_add x s = s.
Proof.
  intros Hin. unfold set_add. apply existsb_str_eqb in Hin. rewrite Hin. reflexivity.
Qed.

(** ** Trimming *)

Lemma lstrip_split (s : str) :
  exists sp, s = sp ++ lstrip s /\ forallb isspace sp = true.
Proof.
  induction s as [|c s [sp [Hs Hsp]]]; [exists []; split; reflexivity | ].
  cbn [lstrip]. destruct (isspace c) eqn:E.
  - exists (c :: sp). cbn [app forallb]. rewrite E, Hsp, <- Hs. split; reflexivity.
  - exists []. split; reflexivity.
Qed.

Lemma lstrip_head (s : str) :
  match lstrip s with
  | [] => True
  | c :: _ => isspace c = false
  end.
Proof.
  induction s as [|c s IH]; cbn [lstrip]; [exact I | ].
  destruct (isspace c) eqn:E; [exact IH | exact E].
Qed.

Lemma lstrip_fixed (s : str) :
  match s with [] => True | c :: _ => isspace c = false end -> lstrip s = s.
Proof. destruct s as [|c s]; cbn [lstrip]; [reflexivity | ]. now intros ->. Qed.

Lemma lstrip_idem (s : str) : lstrip (lstrip s) = lstrip s.
Proof. apply lstrip_fixed. apply lstrip_head. Qed.

Lemma rstrip_idem (s : str) : rstrip (rstrip s) = rstrip s.
Proof. unfold rstrip. rewrite rev_involutive, lstrip_idem. reflexivity. Qed.

(** Trimming the right end leaves the left end as it is. *)
Lemma lstrip_rstrip (s : str) :
  lstrip s = s -> lstrip (rstrip s) = rstrip s.
Proof.
  intros Hs. apply lstrip_fixed. unfold rstrip.
  destruct (lstrip_split (rev s)) as [sp [Hrev _]].
  assert (E : s = rev (lstrip (rev s)) ++ rev sp)
    by (rewrite <- rev_app_distr, <- Hrev, rev_involutive; reflexivity).
  destruct (rev (lstrip (rev s))) as [|c u]; [exact I | ].
  pose proof (lstrip_head s) as Hh. rewrite Hs, E in Hh. exact Hh.
Qed.

(** What [strip] returns is trimmed. *)
Lemma strip_idem (s : str) : strip (strip s) = strip s.
Proof.
  unfold strip. rewrite (lstrip_rstrip (lstrip s) (lstrip_idem s)).
  apply rstrip_idem.
Qed.

(** ** The set of skills *)

Lemma add_piece_kept (skills_set : list str) (piece : str) :
  add_piece skills_set piece
  = if 2 <=? length (strip piece) then set_add (strip piece) skills_set
    else skills_set.
Proof.
  unfold add_piece. destruct (strip piece) as [|c [|c' t]]; reflexivity.
Qed.

Lemma fold_add_piece_nodup (pieces : list str) :
  forall acc, NoDup acc -> NoDup (fold_left add_piece pieces acc).
Proof.
  induction pieces as [|piece pieces IH]; intros acc Hacc; cbn [fold_left];
    [exact Hacc | ].
  apply IH. rewrite add_piece_kept.
  destruct (2 <=? _); [apply set_add_nodup | ]; exact Hacc.
Qed.

Lemma fold_add_piece_in (pieces : list str) (x : str) :
  forall acc,
    In x (fold_left add_piece pieces acc)
    <-> In x acc
        \/ exists piece, In piece pieces /\ x = strip piece /\ 2 <= length x.
Proof.
  induction pieces as [|piece pieces IH]; intros acc; cbn [fold_left].
  - split; [now left | ]. intros [H | [piece [[] _]]]. exact H.
  - rewrite IH, add_piece_kept. destruct (2 <=? length (strip piece)) eqn:E.
    + apply Nat.leb_le in E. rewrite set_add_in. split.
      * intros [[-> | H] | [p [Hin Hp]]].
        -- right. exists piece. repeat split; [now left | exact E].
        -- now left.
        -- right. exists p. split; [now right | exact Hp].
      * intros [H | [p [[<- | Hin] [-> Hlen]]]].
        -- left. now right.
        -- left. now left.
        -- right. exists p. repeat split; assumption.
    + apply Nat.leb_gt in E. split.
      * intros [H | [p [Hin Hp]]]; [now left | ].
        right. exists p. split; [now right | exact Hp].
      * intros [H | [p [[<- | Hin] [-> Hlen]]]]; [now left | lia | ].
        right. exists p. repeat split; assumption.
Qed.

(** Adding pieces that were added before changes nothing. *)
Lemma fold_add_piece_again (pieces again : list str) (acc : list str) :
  (forall piece, In piece again -> In piece pieces) ->
  fold_left add_piece again (fold_left add_piece pieces acc)
  = fold_left add_piece pieces acc.
Proof.
  induction again as [|piece again IH]; intros Hsub; cbn [fold_left];
    [reflexivity | ].
  assert (E : add_piece (fold_left add_piece pieces acc) piece
              = fold_left add_piece pieces acc).
  { rewrite add_piece_kept. destruct (2 <=? length (strip piece)) eqn:El;
      [ | reflexivity].
    apply set_add_same. apply fold_add_piece_in. right. exists piece.
    apply Nat.leb_le in El. repeat split; [apply Hsub; now left | exact El]. }
  rewrite E. apply IH. intros p Hp. apply Hsub. now right.
Qed.

Lemma skills_from_nodup (text : str) (acc : list str) (pattern : regex) :
  NoDup acc -> NoDup (skills_from text acc pattern).
Proof.
  intros Hacc. unfold skills_from. destruct (section_of pattern text);
    [apply fold_add_piece_nodup | ]; exact Hacc.
Qed.

Lemma skills_from_in (text : str) (acc : list str) (pattern : regex) (x : str) :
  In x (skills_from text acc pattern)
  <-> In x acc
      \/ exists section piece,
           section_of pattern text = Some section
           /\ In piece (split_at (oneof (py ",•|/\n")) section)
           /\ x = strip piece /\ 2 <= length x.
Proof.
  unfold skills_from. destruct (section_of pattern text) as [section|].
  - rewrite fold_add_piece_in. split.
    + intros [H | [piece Hp]]; [now left | ]. right. exists section, piece.
      split; [reflexivity | exact Hp].
    + intros [H | [sec [piece [E Hp]]]]; [now left | ]. injection E as <-.
      right. now exists piece.
  - split; [now left | ]. intros [H | [sec [piece [E _]]]]; [exact H | discriminate E].
Qed.

(** ** A heading at the start of the text *)

Lemma rmatch_spelled (w : str) :
  forall w' bef aft cs (K : cont),
    length w' = length w -> spelled w w' = true ->
    rmatch (lit_with ci w) (MState bef (w' ++ aft) cs) K
    = K (MState (rev w' ++ bef) aft cs).
Proof.
  induction w as [|x w IH]; intros [|y w'] bef aft cs K Hlen Hsp;
    try discriminate Hlen; [reflexivity | ].
  cbn [spelled] in Hsp. apply andb_true_iff in Hsp. destruct Hsp as [Hxy Hsp].
  injection Hlen as Hlen.
  destruct w as [|x' w].
  - destruct w'; [ | discriminate Hlen].
    cbn [lit_with rmatch after before caps app rev]. rewrite Hxy. reflexivity.
  - change (lit_with ci (x :: x' :: w))
      with (Seq (Chr (ci x)) (lit_with ci (x' :: w))).
    change (rmatch (Seq (Chr (ci x)) (lit_with ci (x' :: w)))
              (MState bef ((y :: w') ++ aft) cs) K)
      with (if ci x y
            then rmatch (lit_with ci (x' :: w)) (MState (y :: bef) (w' ++ aft) cs) K
            else None).
    rewrite Hxy, (IH w' (y :: bef) aft cs K Hlen Hsp). cbn [rev].
    rewrite <- app_assoc. reflexivity.
Qed.

Lemma rep_loop_lazy (body : mstate -> cont -> option mstate) (K : cont)
    (fuel count : nat) (st : mstate) :
  rep_loop body false 0 None K (S fuel) count st
  = orelse (K st)
      (fun _ => body st (fun st' =>
                  if pos st <? pos st'
                  then rep_loop body false 0 None K fuel (S count) st'
                  else None)).
Proof. reflexivity. Qed.

Lemma rmatch_chr (p : char -> bool) (bef aft : str) (x : char)
    (cs : list (nat * (nat * nat))) (k : cont) :
  rmatch (Chr p) (MState bef (x :: aft) cs) k
  = if p x then k (MState (x :: bef) aft cs) else None.
Proof. reflexivity. Qed.

(** The lazy [.*?] runs on as long as what follows it fails, here to the
    end of the text. *)
Lemma lazy_to_end (K : cont) (cs : list (nat * (nat * nat))) :
  forall body bef fuel count,
    length body < fuel ->
    (forall pre x post, body = pre ++ x :: post ->
       K (MState (rev pre ++ bef) (x :: post) cs) = None) ->
    rep_loop (rmatch (Chr any)) false 0 None K fuel count (MState bef body cs)
    = K (MState (rev body ++ bef) [] cs).
Proof.
  induction body as [|x body IH]; intros bef fuel count Hfuel Hnone;
    (destruct fuel as [|fuel]; [cbn [length] in Hfuel; lia | ]);
    rewrite rep_loop_lazy.
  - cbn [rev app]. destruct (K (MState bef [] cs)); reflexivity.
  - pose proof (Hnone [] x body eq_refl) as H0. cbn [rev app] in H0.
    rewrite H0, rmatch_chr. cbn [orelse any].
    unfold pos at 1 2. cbn [before length].
    replace (length bef <? S (length bef)) with true
      by (symmetry; apply Nat.ltb_lt; lia).
    rewrite (IH (x :: bef) fuel (S count)).
    + cbn [rev]. rewrite <- app_assoc. reflexivity.
    + cbn [length] in Hfuel. lia.
    + intros pre y post ->. rewrite <- (Hnone (x :: pre) y post eq_refl).
      cbn [rev]. rewrite <- app_assoc. reflexivity.
Qed.

(** What follows the section, [(?:\n\n|\Z)], at a given place. *)
Lemma section_end_none (st : mstate) (k : cont) (x : char) (post : str) :
  after st = x :: post ->
  (forall post', x :: post <> LF :: LF :: post') ->
  rmatch (Alt (lit "\n\n") EndZ) st k = None.
Proof.
  intros Ha Hno. unfold lit. rewrite py_lf_lf.
  cbn [lit_with rmatch]. rewrite Ha. unfold exactly.
  destruct (N.eqb_spec LF x) as [<-|]; [ | reflexivity].
  cbn [after]. destruct post as [|y post]; [reflexivity | ].
  destruct (N.eqb_spec LF y) as [<-|]; [ | reflexivity].
  exfalso. apply (Hno post). reflexivity.
Qed.

Lemma section_end_here (st : mstate) (k : cont) :
  after st = [] -> rmatch (Alt (lit "\n\n") EndZ) st k = k st.
Proof.
  intros Ha. unfold lit. rewrite py_lf_lf. cbn [lit_with rmatch].
  rewrite Ha. reflexivity.
Qed.

Lemma rmatch_seq (r1 r2 : regex) (st : mstate) (k : cont) :
  rmatch (Seq r1 r2) st k = rmatch r1 st (fun st1 => rmatch r2 st1 k).
Proof. reflexivity. Qed.

Lemma rmatch_grp (n : nat) (r : regex) (st : mstate) (k : cont) :
  rmatch (Grp n r) st k = rmatch r st (fun st1 => k (close_group n (pos st) st1)).
Proof. reflexivity. Qed.

Lemma rmatch_rep (greedy : bool) (lo : nat) (hi : option nat) (r : regex)
    (st : mstate) (k : cont) :
  rmatch (Rep greedy lo hi r) st k
  = rep_loop (rmatch r) greedy lo hi k (S (length (after st))) 0 st.
Proof. reflexivity. Qed.

(** A section whose heading starts the text and which has no blank line
    runs to the end of the text. *)
Lemma section_at_start (heading : regex) (word body : str) (c : char) :
  (forall bef aft cs (K : cont) res,
     K (MState (rev word ++ bef) aft cs) = Some res ->
     rmatch heading (MState bef (word ++ aft) cs) K = Some res) ->
  c = 58%N \/ c = LF ->
  (forall pre post, body <> pre ++ LF :: LF :: post) ->
  section_of (section_after heading) (word ++ c :: body) = Some body.
Proof.
  intros Htakes Hc Hno.
  assert (Hsep : oneof (py ":\n") c = true)
    by (rewrite py_colon_lf; destruct Hc as [-> | ->]; reflexivity).
  unfold section_of, search. rewrite scan_eq.
  unfold section_after at 1. rewrite rmatch_seq, rmatch_grp.
  erewrite Htakes; cycle 1.
  - unfold close_group at 1, set_caps. cbn [after before caps].
    rewrite rmatch_seq, rmatch_chr, Hsep, rmatch_seq, rmatch_grp.
    unfold lazy_star. rewrite rmatch_rep. cbn [after].
    rewrite lazy_to_end.
    + rewrite section_end_here by reflexivity. cbn [andb]. reflexivity.
    + lia.
    + intros pre x post E. apply (section_end_none _ _ x post); [reflexivity | ].
      intros post' E'. apply (Hno pre post'). rewrite E, E'. reflexivity.
  - unfold group, close_group, set_caps. cbn [m_caps m_string caps lookup Nat.eqb].
    f_equal. unfold pos. cbn [before].
    replace (word ++ c :: body) with ((word ++ [c]) ++ body ++ [])
      by (rewrite app_nil_r, <- app_assoc; reflexivity).
    replace (length (c :: rev word ++ [])) with (length (word ++ [c]))
      by (rewrite app_nil_r, length_app; cbn [length]; rewrite length_rev; lia).
    replace (length (rev body ++ c :: rev word ++ []))
      with (length (word ++ [c]) + length body)
      by (rewrite app_nil_r, !length_app; cbn [length];
          rewrite !length_rev; lia).
    apply slice_middle.
Qed.

(** ** Items and separators *)

Lemma split_at_interleave (sep : char -> bool) :
  forall items seps,
    length items = S (length seps) ->
    Forall (fun item => free_of sep item = true) items ->
    Forall (fun c => sep c = true) seps ->
    split_at sep (interleave items seps) = items.
Proof.
  intros items.
  induction items as [|item items IH]; intros seps Hlen Hitems Hseps;
    [discriminate Hlen | ].
  inversion_clear Hitems as [|? ? Hitem Hrest].
  destruct seps as [|c seps]; cbn [interleave].
  - destruct items; [ | discriminate Hlen]. apply split_at_free. exact Hitem.
  - inversion_clear Hseps as [|? ? Hc Hseps'].
    rewrite (split_at_first _ _ _ _ Hitem Hc). f_equal.
    apply IH; [ | exact Hrest | exact Hseps']. cbn [length] in Hlen. lia.
Qed.

(** Items that are not empty leave no blank line between them. *)
Lemma interleave_no_blank_line (sep : char -> bool) (items : list str)
    (seps : list char) :
  sep LF = true ->
  length items = S (length seps) ->
  Forall (fun item => item <> [] /\ free_of sep item = true) items ->
  Forall (fun c => sep c = true) seps ->
  forall pre post, interleave items seps <> pre ++ LF :: LF :: post.
Proof.
  intros Hlf Hlen Hitems Hseps pre post E.
  assert (Hsplit : split_at sep (interleave items seps) = items).
  { apply split_at_interleave; [exact Hlen | | exact Hseps].
    eapply Forall_impl; [ | exact Hitems]. now intros item [_ H]. }
  rewrite E, (split_at_app _ _ _ _ Hlf) in Hsplit. cbn [split_at] in Hsplit.
  rewrite Hlf in Hsplit.
  assert (Hin : In [] items)
    by (rewrite <- Hsplit; apply in_or_app; right; now left).
  rewrite Forall_forall in Hitems. destruct (Hitems [] Hin) as [Hne _].
  now apply Hne.
Qed.

Lemma interleave_free (p : char -> bool) :
  forall items seps,
    Forall (fun item => free_of p item = true) items ->
    Forall (fun c => p c = false) seps ->
    free_of p (interleave items seps) = true.
Proof.
  intros items.
  induction items as [|item items IH]; intros seps Hitems Hseps; [reflexivity | ].
  inversion_clear Hitems as [|? ? Hitem Hrest].
  destruct seps as [|c seps]; cbn [interleave]; [exact Hitem | ].
  inversion_clear Hseps as [|? ? Hc Hseps'].
  unfold free_of. rewrite forallb_app. cbn [forallb].
  fold (free_of p item). fold (free_of p (interleave items seps)).
  rewrite Hitem, Hc, (IH _ Hrest Hseps'). reflexivity.
Qed.

Lemma py_skills_colon : py "SKILLS:" = py "SKILLS" ++ [58%N].
Proof. vm_compute. reflexivity. Qed.

Lemma py_skills : py "SKILLS" = [83; 75; 73; 76; 76; 83]%N.
Proof. vm_compute. reflexivity. Qed.

(** A colon or a line break in [SKILLS:] followed by a text without colon
    is the colon of the heading or a line break of the text. *)
Lemma after_skills_colon (body u v : str) (c : char) :
  py "SKILLS:" ++ body = u ++ c :: v ->
  c = 58%N \/ c = LF ->
  free_of (exactly 58%N) body = true ->
  v = body \/ (c = LF /\ exists u', body = u' ++ c :: v).
Proof.
  rewrite py_skills_colon, py_skills. cbn [app]. intros H Hc Hfree.
  do 6 (destruct u as [|? u]; cbn [app] in H;
        [injection H as <- _; destruct Hc as [Hc|Hc]; discriminate Hc
        | injection H as <- H]).
  destruct u as [|? u]; cbn [app] in H.
  - injection H as _ <-. now left.
  - injection H as <- H. right.
    destruct Hc as [-> | ->].
    + exfalso. rewrite H in Hfree. unfold free_of in Hfree.
      rewrite forallb_app in Hfree. apply andb_true_iff in Hfree.
      destruct Hfree as [_ Hfree]. cbn [forallb exactly] in Hfree.
      rewrite N.eqb_refl in Hfree. discriminate Hfree.
    + split; [reflexivity | now exists u].
Qed.

Lemma rmatch_alt (r1 r2 : regex) (st : mstate) (k : cont) :
  rmatch (Alt r1 r2) st k = orelse (rmatch r1 st k) (fun _ => rmatch r2 st k).
Proof. reflexivity. Qed.

(** Under the heading [SKILLS:], items that are not empty and hold neither
    a separator nor a colon are the pieces of the section, and the second
    family of headings adds nothing to them. *)
Lemma skills_of_items (items : list str) (seps : list char) :
  length items = S (length seps) ->
  Forall (fun item => item <> []
                      /\ free_of (oneof (py ",•|/\n")) item = true
                      /\ free_of (exactly 58%N) item = true) items ->
  Forall (fun c => oneof (py ",•|/\n") c = true) seps ->
  fold_left (skills_from (py "SKILLS:" ++ interleave items seps)) skills_patterns []
  = fold_left add_piece items [].
Proof.
  intros Hlen Hitems Hseps.
  set (sep := oneof (py ",•|/\n")) in *.
  set (body := interleave items seps).
  assert (Hlf : sep LF = true) by (vm_compute; reflexivity).
  assert (Hsplit : split_at sep body = items).
  { apply split_at_interleave; [exact Hlen | | exact Hseps].
    eapply Forall_impl; [ | exact Hitems]. now intros item [_ [H _]]. }
  assert (Hblank : forall pre post, body <> pre ++ LF :: LF :: post).
  { apply (interleave_no_blank_line sep); [exact Hlf | exact Hlen | | exact Hseps].
    eapply Forall_impl; [ | exact Hitems]. now intros item [H1 [H2 _]]. }
  assert (Hcolon : free_of (exactly 58%N) body = true).
  { apply interleave_free.
    - eapply Forall_impl; [ | exact Hitems]. now intros item [_ [_ H]].
    - eapply Forall_impl; [ | exact Hseps]. intros c Hc. unfold exactly.
      destruct (N.eqb_spec 58 c) as [<-|]; [ | reflexivity].
      vm_compute in Hc. discriminate Hc. }
  unfold skills_patterns. cbn [fold_left].
  assert (Hfirst : skills_from (py "SKILLS:" ++ body) []
                     (section_after (ilit "SKILLS" <|> ilit "TECHNICAL SKILLS"
                        <|> ilit "CORE COMPETENCIES" <|> ilit "EXPERTISE"
                        <|> ilit "QUALIFICATIONS"))
                   = fold_left add_piece items []).
  { unfold skills_from. rewrite py_skills_colon, <- app_assoc. cbn [app].
    rewrite (section_at_start _ (py "SKILLS") body 58%N);
      [fold sep; rewrite Hsplit; reflexivity | | now left | exact Hblank].
    intros bef aft cs K res HK. rewrite rmatch_alt. unfold ilit at 1.
    rewrite rmatch_spelled, HK; [reflexivity | reflexivity | vm_compute; reflexivity]. }
  rewrite Hfirst. unfold skills_from at 1.
  destruct (section_of _ (py "SKILLS:" ++ body)) as [section|] eqn:E;
    [ | reflexivity].
  fold sep. apply fold_add_piece_again. intros piece Hpiece.
  unfold section_of in E.
  destruct (search _ (py "SKILLS:" ++ body)) as [m|] eqn:Es; [ | discriminate E].
  destruct (section_after_found _ _ _ Es)
    as [pre [word [c [section' [rest [st_h [Htext [_ [_ [Hc [Hrest Hg]]]]]]]]]]].
  rewrite Hg in E. injection E as ->.
  rewrite app_assoc in Htext.
  destruct (after_skills_colon _ _ _ _ Htext Hc Hcolon) as [Hb | [-> [u' Hb]]].
  - destruct Hrest as [-> | [rest' ->]].
    + rewrite app_nil_r in Hb. rewrite <- Hsplit, <- Hb. exact Hpiece.
    + exfalso. apply (Hblank section rest'). symmetry. exact Hb.
  - destruct Hrest as [-> | [rest' ->]].
    + rewrite app_nil_r in Hb. rewrite <- Hsplit, Hb, (split_at_app _ _ _ _ Hlf).
      apply in_or_app. now right.
    + exfalso. apply (Hblank (u' ++ LF :: section) rest').
      rewrite Hb, <- app_assoc. reflexivity.
Qed.

(** ** Skills *)


(** ** The fuel of the loops is enough *)

Lemma rep_loop_eq (body : mstate -> cont -> option mstate) (greedy : bool)
    (lo : nat) (hi : option nat) (k : cont) (fuel count : nat) (st : mstate) :
  rep_loop body greedy lo hi k (S fuel) count st
  = let more :=
      if below count hi
      then body st (fun st' =>
             if pos st <? pos st'
             then rep_loop body greedy lo hi k fuel (S count) st'
             else None)
      else None in
    let stop := if lo <=? count then k st else None in
    if greedy
    then match more with Some res => Some res | None => stop end
    else match stop with Some res => Some res | None => more end.
Proof. destruct greedy; reflexivity. Qed.

Lemma rep_loop_ext (body : mstate -> cont -> option mstate) (greedy : bool)
    (lo : nat) (hi : option nat) :
  respects body ->
  forall fuel count st k1 k2,
    (forall st', extent st' = extent st -> k1 st' = k2 st') ->
    rep_loop body greedy lo hi k1 fuel count st
    = rep_loop body greedy lo hi k2 fuel count st.
Proof.
  intros Hbody. induction fuel as [|fuel IH]; intros count st k1 k2 Hk;
    [reflexivity | ].
  rewrite !rep_loop_eq. cbv zeta. rewrite (Hk st eq_refl).
  rewrite (Hbody st _ (fun st' =>
             if pos st <? pos st'
             then rep_loop body greedy lo hi k2 fuel (S count) st'
             else None)); [reflexivity | ].
  intros st' Hst'. destruct (pos st <? pos st'); [ | reflexivity].
  apply IH. intros st'' Hst''. apply Hk. congruence.
Qed.

Lemma rmatch_respects (r : regex) : respects (rmatch r).
Proof.
  induction r as [ | p | r1 IH1 r2 IH2 | r1 IH1 r2 IH2 | greedy lo hi r1 IH1
                 | n r1 IH1 | r1 IH1 | w r1 IH1 | | | | ];
    intros st k1 k2 Hk; cbn [rmatch].
  - apply Hk. reflexivity.
  - destruct (after st) as [|c rest] eqn:E; [reflexivity | ].
    destruct (p c); [ | reflexivity]. apply Hk.
    unfold extent, pos. cbn [before after length]. rewrite E. cbn [length]. lia.
  - apply IH1. intros st1 H1. apply IH2. intros st2 H2. apply Hk. congruence.
  - rewrite (IH1 st k1 k2 Hk), (IH2 st k1 k2 Hk). reflexivity.
  - apply (rep_loop_ext _ _ _ _ IH1). exact Hk.
  - apply IH1. intros st1 H1. apply Hk. exact H1.
  - destruct (rmatch r1 st Some); [ | reflexivity]. apply Hk. reflexivity.
  - destruct (retreat w (before st) (after st)) as [[bef aft]|]; [ | reflexivity].
    destruct (rmatch r1 _ Some); [ | reflexivity]. apply Hk. reflexivity.
  - destruct (before st); [apply Hk | ]; reflexivity.
  - destruct (after st) as [|c [|c' rest]]; try reflexivity; [apply Hk; reflexivity | ].
    destruct (c =? LF)%N; [apply Hk | ]; reflexivity.
  - destruct (after st); [apply Hk | ]; reflexivity.
  - destruct (at_boundary st); [apply Hk | ]; reflexivity.
Qed.

(** A repetition never runs out of fuel: with the fuel the matcher gives
    it, one more than the characters left, it goes as with any larger
    one. *)
Lemma rep_loop_fuel (body : mstate -> cont -> option mstate) (greedy : bool)
    (lo : nat) (hi : option nat) (k : cont) :
  respects body ->
  forall fuel1 fuel2 count st,
    length (after st) < fuel1 -> length (after st) < fuel2 ->
    rep_loop body greedy lo hi k fuel1 count st
    = rep_loop body greedy lo hi k fuel2 count st.
Proof.
  intros Hbody. induction fuel1 as [|fuel1 IH]; intros fuel2 count st H1 H2; [lia | ].
  destruct fuel2 as [|fuel2]; [lia | ].
  rewrite !rep_loop_eq. cbv zeta.
  rewrite (Hbody st _ (fun st' =>
             if pos st <? pos st'
             then rep_loop body greedy lo hi k fuel2 (S count) st'
             else None)); [reflexivity | ].
  intros st' Hst'. destruct (pos st <? pos st') eqn:E; [ | reflexivity].
  apply Nat.ltb_lt in E. unfold extent in Hst'. apply IH; lia.
Qed.

Lemma scan_moves (r : regex) (aft bef : str) (must_advance : bool)
    (start : nat) (st' : mstate) :
  scan r must_advance bef aft = Some (start, st') ->
  length bef <= start /\ start <= pos st'
  /\ extent st' = length bef + length aft.
Proof.
  intros H. destruct (scan_sound _ _ _ _ _ _ H) as [mid [rest [-> [-> Hm]]]].
  destruct (matches_moves _ _ _ Hm) as [m [Ha Hb]]. cbn [after before] in Ha, Hb.
  unfold extent, pos. rewrite Hb, Ha.
  rewrite !length_app, !length_rev. lia.
Qed.

Lemma scan_advances (r : regex) (aft bef : str) (start : nat) (st' : mstate) :
  scan r true bef aft = Some (start, st') ->
  start = length bef -> pos st' <> start.
Proof.
  rewrite scan_eq.
  destruct (rmatch r (MState bef aft []) _) as [st1|] eqn:E.
  - intros H _. injection H as <- <-.
    destruct (rmatch_sound _ _ _ _ E) as [st2 [_ Hk]]. cbn [andb] in Hk.
    destruct (pos st2 =? _) eqn:Ep; [discriminate Hk | ].
    injection Hk as ->. apply Nat.eqb_neq in Ep. exact Ep.
  - destruct aft as [|c aft]; [discriminate | ].
    intros H Hs. apply scan_moves in H. cbn [length] in H. lia.
Qed.

Lemma scan_progress (r : regex) (aft bef : str) (must_advance : bool)
    (start : nat) (st : mstate) :
  scan r must_advance bef aft = Some (start, st) ->
  2 * length (after st) + (if pos st =? start then 0 else 1)
  < 2 * length aft + (if must_advance then 0 else 1).
Proof.
  intros H. pose proof (scan_moves _ _ _ _ _ _ H) as [H1 [H2 H3]].
  unfold extent in H3.
  destruct (pos st =? start) eqn:E.
  - apply Nat.eqb_eq in E. destruct must_advance; [ | lia].
    destruct (Nat.eq_dec start (length bef)) as [Hs|Hs]; [ | lia].
    exfalso. apply (scan_advances _ _ _ _ _ H Hs E).
  - apply Nat.eqb_neq in E. destruct must_advance; lia.
Qed.

(** Neither [re.split] nor [re.sub] runs out of fuel. *)
Lemma split_loop_fuel (r : regex) (s : str) :
  forall fuel1 fuel2 (must_advance : bool) bef aft last,
    2 * length aft + (if must_advance then 0 else 1) < fuel1 ->
    2 * length aft + (if must_advance then 0 else 1) < fuel2 ->
    split_loop r s fuel1 must_advance bef aft last
    = split_loop r s fuel2 must_advance bef aft last.
Proof.
  induction fuel1 as [|fuel1 IH]; intros fuel2 must_advance bef aft last H1 H2;
    [lia | ].
  destruct fuel2 as [|fuel2]; [lia | ]. cbn [split_loop].
  destruct (scan r must_advance bef aft) as [[start st]|] eqn:E; [ | reflexivity].
  pose proof (scan_progress _ _ _ _ _ _ E) as Hp.
  f_equal. f_equal. apply IH; lia.
Qed.

Lemma sub_loop_fuel (r : regex) (repl s : str) :
  forall fuel1 fuel2 (must_advance : bool) bef aft last,
    2 * length aft + (if must_advance then 0 else 1) < fuel1 ->
    2 * length aft + (if must_advance then 0 else 1) < fuel2 ->
    sub_loop r repl s fuel1 must_advance bef aft last
    = sub_loop r repl s fuel2 must_advance bef aft last.
Proof.
  induction fuel1 as [|fuel1 IH]; intros fuel2 must_advance bef aft last H1 H2;
    [lia | ].
  destruct fuel2 as [|fuel2]; [lia | ]. cbn [sub_loop].
  destruct (scan r must_advance bef aft) as [[start st]|] eqn:E; [ | reflexivity].
  pose proof (scan_progress _ _ _ _ _ _ E) as Hp.
  f_equal. f_equal. apply IH; lia.
Qed.

(** ** The matcher finds a match when there is one *)

Lemma alike_pos (st st' : mstate) : alike st st' -> pos st = pos st'.
Proof. intros [H _]. unfold pos. now rewrite H. Qed.

Lemma rep_loop_alike (body : mstate -> cont -> option mstate) (greedy : bool)
    (lo : nat) (hi : option nat) :
  (forall st st' k k', alike st st' -> succeed_alike k k' ->
     (body st k = None <-> body st' k' = None)) ->
  forall fuel count st st' k k',
    alike st st' -> succeed_alike k k' ->
    (rep_loop body greedy lo hi k fuel count st = None
     <-> rep_loop body greedy lo hi k' fuel count st' = None).
Proof.
  intros Hbody. induction fuel as [|fuel IH]; intros count st st' k k' Hst Hk;
    [split; reflexivity | ].
  rewrite !rep_loop_eq. cbv zeta.
  assert (Hstop : (if lo <=? count then k st else None) = None
                  <-> (if lo <=? count then k' st' else None) = None).
  { destruct (lo <=? count); [apply (Hk _ _ Hst) | split; reflexivity]. }
  assert (Hmore :
    (if below count hi
     then body st (fun s => if pos st <? pos s
                            then rep_loop body greedy lo hi k fuel (S count) s
                            else None)
     else None) = None
    <-> (if below count hi
         then body st' (fun s => if pos st' <? pos s
                                 then rep_loop body greedy lo hi k' fuel (S count) s
                                 else None)
         else None) = None).
  { destruct (below count hi); [ | split; reflexivity].
    apply (Hbody _ _ _ _ Hst). intros s s' Hs.
    rewrite (alike_pos _ _ Hst), (alike_pos _ _ Hs).
    destruct (pos st' <? pos s'); [apply (IH _ _ _ _ _ Hs Hk) | split; reflexivity]. }
  destruct greedy.
  - destruct (if below count hi then _ else None) eqn:E1;
      destruct (if below count hi then body st' _ else None) eqn:E2;
      try (split; discriminate).
    + destruct Hmore as [_ H]. discriminate (H eq_refl).
    + destruct Hmore as [H _]. discriminate (H eq_refl).
    + exact Hstop.
  - destruct (if lo <=? count then k st else None) eqn:E1;
      destruct (if lo <=? count then k' st' else None) eqn:E2;
      try (split; discriminate).
    + destruct Hstop as [_ H]. discriminate (H eq_refl).
    + destruct Hstop as [H _]. discriminate (H eq_refl).
    + exact Hmore.
Qed.

(** Whether a match succeeds does not depend on the groups. *)
Lemma rmatch_alike (r : regex) :
  forall st st' k k', alike st st' -> succeed_alike k k' ->
    (rmatch r st k = None <-> rmatch r st' k' = None).
Proof.
  induction r as [ | p | r1 IH1 r2 IH2 | r1 IH1 r2 IH2 | greedy lo hi r1 IH1
                 | n r1 IH1 | r1 IH1 | w r1 IH1 | | | | ];
    intros st st' k k' Hst Hk; cbn [rmatch];
    pose proof Hst as [Hb Ha].
  - apply (Hk _ _ Hst).
  - rewrite <- Ha. destruct (after st) as [|c rest]; [split; reflexivity | ].
    destruct (p c); [ | split; reflexivity].
    apply Hk. split; cbn [before after]; [now rewrite Hb | reflexivity].
  - apply (IH1 _ _ _ _ Hst). intros s s' Hs. apply (IH2 _ _ _ _ Hs Hk).
  - pose proof (IH1 _ _ _ _ Hst Hk) as H1. pose proof (IH2 _ _ _ _ Hst Hk) as H2.
    unfold orelse. destruct (rmatch r1 st k); destruct (rmatch r1 st' k');
      try (split; discriminate).
    + destruct H1 as [_ H]. discriminate (H eq_refl).
    + destruct H1 as [H _]. discriminate (H eq_refl).
    + exact H2.
  - rewrite <- Ha. apply (rep_loop_alike _ _ _ _ IH1 _ _ _ _ _ _ Hst Hk).
  - apply (IH1 _ _ _ _ Hst). intros s s' Hs. rewrite (alike_pos _ _ Hst).
    apply Hk. destruct Hs as [Hsb Hsa]. split; assumption.
  - assert (H1 : rmatch r1 st Some = None <-> rmatch r1 st' Some = None).
    { apply (IH1 _ _ _ _ Hst). intros s s' _. split; discriminate. }
    destruct (rmatch r1 st Some); destruct (rmatch r1 st' Some);
      try (split; reflexivity).
    + apply Hk. split; assumption.
    + destruct H1 as [_ H]. discriminate (H eq_refl).
    + destruct H1 as [H _]. discriminate (H eq_refl).
  - rewrite <- Hb, <- Ha.
    destruct (retreat w (before st) (after st)) as [[bef aft]|];
      [ | split; reflexivity].
    assert (H1 : rmatch r1 (MState bef aft (caps st)) Some = None
                 <-> rmatch r1 (MState bef aft (caps st')) Some = None).
    { apply IH1; [split; reflexivity | ]. intros s s' _. split; discriminate. }
    destruct (rmatch r1 (MState bef aft (caps st)) Some);
      destruct (rmatch r1 (MState bef aft (caps st')) Some);
      try (split; reflexivity).
    + apply Hk. split; assumption.
    + destruct H1 as [_ H]. discriminate (H eq_refl).
    + destruct H1 as [H _]. discriminate (H eq_refl).
  - rewrite <- Hb. destruct (before st); [apply (Hk _ _ Hst) | split; reflexivity].
  - rewrite <- Ha. destruct (after st) as [|c [|c' rest]]; try (split; reflexivity).
    + apply (Hk _ _ Hst).
    + destruct (c =? LF)%N; [apply (Hk _ _ Hst) | split; reflexivity].
  - rewrite <- Ha. destruct (after st); [apply (Hk _ _ Hst) | split; reflexivity].
  - unfold at_boundary. rewrite <- Hb, <- Ha. fold (at_boundary st).
    destruct (at_boundary st); [apply (Hk _ _ Hst) | split; reflexivity].
Qed.

Lemma succeed_alike_then (r : regex) (k : cont) :
  succeed_alike k k -> succeed_alike (fun st => rmatch r st k) (fun st => rmatch r st k).
Proof. intros Hk st st' Hst. apply (rmatch_alike r _ _ _ _ Hst Hk). Qed.

Lemma rep_loop_complete (body : mstate -> cont -> option mstate)
    (step : mstate -> mstate -> Prop) (greedy : bool) (lo : nat)
    (hi : option nat) (k : cont) (st' : mstate) :
  (forall st st1 k1, succeed_alike k1 k1 -> step st st1 -> k1 st1 <> None ->
     body st k1 <> None) ->
  (forall st st1 k1 k2, alike st st1 -> succeed_alike k1 k2 ->
     (body st k1 = None <-> body st1 k2 = None)) ->
  (forall st st1, step st st1 -> extent st1 = extent st) ->
  succeed_alike k k ->
  k st' <> None ->
  forall n fuel count st,
    rounds step n st st' ->
    lo <= count + n -> within (count + n) hi ->
    length (after st) < fuel ->
    rep_loop body greedy lo hi k fuel count st <> None.
Proof.
  intros Hbody Halike Hextent Hk Hend.
  induction n as [|n IH]; intros fuel count st Hrounds Hlo Hhi Hfuel;
    (destruct fuel as [|fuel]; [lia | ]); rewrite rep_loop_eq; cbv zeta;
    cbn [rounds] in Hrounds.
  - subst st'. rewrite Nat.add_0_r in Hlo. apply Nat.leb_le in Hlo. rewrite Hlo.
    destruct greedy.
    + destruct (if below count hi then body st _ else None);
        [discriminate | exact Hend].
    + destruct (k st); [discriminate | exfalso; apply Hend; reflexivity].
  - destruct Hrounds as [st1 [Hstep [Hpos Hrest]]].
    assert (Hbelow : below count hi = true).
    { destruct hi as [h|]; [ | reflexivity]. cbn [within below] in *.
      apply Nat.ltb_lt. lia. }
    rewrite Hbelow.
    assert (Hmore : body st (fun s => if pos st <? pos s
                                      then rep_loop body greedy lo hi k fuel (S count) s
                                      else None) <> None).
    { apply (Hbody st st1).
      - intros s s' Hs. rewrite (alike_pos _ _ Hs).
        destruct (pos st <? pos s'); [ | split; reflexivity].
        apply (rep_loop_alike _ _ _ _ Halike _ _ _ _ _ _ Hs Hk).
      - exact Hstep.
      - apply Nat.ltb_lt in Hpos. rewrite Hpos. apply Nat.ltb_lt in Hpos.
        apply (IH fuel (S count) st1 Hrest).
        + lia.
        + now rewrite Nat.add_succ_l, <- Nat.add_succ_r.
        + pose proof (Hextent _ _ Hstep) as He. unfold extent in He. lia. }
    destruct greedy.
    + destruct (body st _); [discriminate | contradiction].
    + destruct (if lo <=? count then k st else None); [discriminate | exact Hmore].
Qed.

Lemma matches_extent (r : regex) (st st' : mstate) :
  matches r st st' -> extent st' = extent st.
Proof.
  intros H. destruct (matches_moves _ _ _ H) as [mid [Ha Hb]].
  unfold extent, pos. rewrite Hb, Ha, !length_app, length_rev. lia.
Qed.

(** Where the pattern has a match after which the continuation succeeds,
    the matcher succeeds (with that match or one of higher priority). *)
Lemma rmatch_complete (r : regex) :
  forall st st' k,
    succeed_alike k k -> matches r st st' -> k st' <> None ->
    rmatch r st k <> None.
Proof.
  induction r as [ | p | r1 IH1 r2 IH2 | r1 IH1 r2 IH2 | greedy lo hi r1 IH1
                 | n r1 IH1 | r1 IH1 | w r1 IH1 | | | | ];
    intros st st' k Hk Hm Hend; cbn [matches] in Hm; cbn [rmatch].
  - now subst st'.
  - destruct Hm as [c [rest [Ha [Hp ->]]]]. rewrite Ha, Hp. exact Hend.
  - destruct Hm as [st1 [H1 H2]].
    apply (IH1 st st1); [apply succeed_alike_then; exact Hk | exact H1 | ].
    apply (IH2 st1 st' k Hk H2 Hend).
  - unfold orelse. destruct Hm as [H|H].
    + pose proof (IH1 _ _ _ Hk H Hend) as H1.
      destruct (rmatch r1 st k); [discriminate | contradiction].
    + destruct (rmatch r1 st k); [discriminate | ].
      apply (IH2 _ _ _ Hk H Hend).
  - destruct Hm as [n [Hlo [Hhi Hrounds]]].
    apply (rep_loop_complete (rmatch r1) (matches r1) greedy lo hi k st'
             IH1 (rmatch_alike r1) (matches_extent r1) Hk Hend n _ 0 st Hrounds);
      [exact Hlo | exact Hhi | lia].
  - destruct Hm as [st1 [H1 ->]].
    apply (IH1 st st1); [ | exact H1 | exact Hend].
    intros s s' Hs. apply Hk. destruct Hs as [Hsb Hsa]. split; assumption.
  - destruct Hm as [st1 [H1 ->]].
    assert (H : rmatch r1 st Some <> None).
    { apply (IH1 st st1); [ | exact H1 | discriminate]. intros s s' _. split; discriminate. }
    destruct (rmatch r1 st Some) as [st2|]; [ | contradiction].
    intros Hnone. apply Hend. apply (Hk (set_caps (caps st2) st)); [ | exact Hnone].
    split; reflexivity.
  - destruct Hm as [bef [aft [st1 [Hr [H1 ->]]]]]. rewrite Hr.
    assert (H : rmatch r1 (MState bef aft (caps st)) Some <> None).
    { apply (IH1 _ st1); [ | exact H1 | discriminate]. intros s s' _. split; discriminate. }
    destruct (rmatch r1 _ Some) as [st2|]; [ | contradiction].
    intros Hnone. apply Hend. apply (Hk (set_caps (caps st2) st)); [ | exact Hnone].
    split; reflexivity.
  - destruct Hm as [Hb ->]. rewrite Hb. exact Hend.
  - destruct Hm as [[Ha | Ha] ->]; rewrite Ha; [exact Hend | ].
    rewrite N.eqb_refl. exact Hend.
  - destruct Hm as [Ha ->]. rewrite Ha. exact Hend.
  - destruct Hm as [Hb ->]. rewrite Hb. exact Hend.
Qed.

(** The matcher and the grammar agree on whether there is a match. *)
Lemma rmatch_adequate (r : regex) (st : mstate) (k : cont) :
  succeed_alike k k ->
  (rmatch r st k <> None <-> exists st', matches r st st' /\ k st' <> None).
Proof.
  intros Hk. split.
  - destruct (rmatch r st k) as [res|] eqn:E; [ | contradiction].
    intros _. destruct (rmatch_sound _ _ _ _ E) as [st' [Hm Hres]].
    exists st'. split; [exact Hm | ]. rewrite Hres. discriminate.
  - intros [st' [Hm Hend]]. apply (rmatch_complete r st st' k Hk Hm Hend).
Qed.

(** ** The experience section never splits into entries *)

Lemma matches_caps (r : regex) :
  groupless r = true -> forall st st', matches r st st' -> caps st' = caps st.
Proof.
  induction r as [ | p | r1 IH1 r2 IH2 | r1 IH1 r2 IH2 | greedy lo hi r1 IH1
                 | n r1 IH1 | r1 IH1 | w r1 IH1 | | | | ];
    cbn [groupless]; intros Hg st st' H; cbn [matches] in H;
    try (apply andb_true_iff in Hg; destruct Hg as [Hg1 Hg2]).
  - now subst.
  - destruct H as [c [rest [_ [_ ->]]]]. reflexivity.
  - destruct H as [st1 [H1 H2]].
    rewrite (IH2 Hg2 _ _ H2). apply (IH1 Hg1 _ _ H1).
  - destruct H as [H|H]; [apply (IH1 Hg1 _ _ H) | apply (IH2 Hg2 _ _ H)].
  - destruct H as [n [_ [_ H]]]. revert st H.
    induction n as [|n IHn]; intros st H; cbn [rounds] in H; [now subst | ].
    destruct H as [st1 [H1 [_ H2]]].
    rewrite (IHn _ H2). apply (IH1 Hg _ _ H1).
  - discriminate Hg.
  - destruct H as [st1 [H1 ->]]. cbn [caps set_caps]. apply (IH1 Hg _ _ H1).
  - destruct H as [bef [aft [st1 [_ [H1 ->]]]]]. cbn [caps set_caps].
    apply (IH1 Hg _ _ H1).
  - now destruct H as [_ ->].
  - now destruct H as [_ ->].
  - now destruct H as [_ ->].
  - now destruct H as [_ ->].
Qed.

Lemma py_space : py " " = [32%N].
Proof. vm_compute. reflexivity. Qed.

Lemma py_lf : py "\n" = [LF].
Proof. vm_compute. reflexivity. Qed.

Lemma py_19 : py "19" = [49; 57]%N.
Proof. vm_compute. reflexivity. Qed.

Lemma py_20 : py "20" = [50; 48]%N.
Proof. vm_compute. reflexivity. Qed.

Lemma chr_step (p : char -> bool) (c : char) (bef aft : str)
    (cs : list (nat * (nat * nat))) :
  p c = true ->
  matches (Chr p) (MState bef (c :: aft) cs) (MState (c :: bef) aft cs)
  /\ pos (MState bef (c :: aft) cs) < pos (MState (c :: bef) aft cs).
Proof.
  intros Hp. split.
  - exists c, aft. repeat split. exact Hp.
  - unfold pos. cbn [before length]. lia.
Qed.

(** Where the second alternative of the look-ahead matches, so does the
    first. *)
Lemma year_is_digits (st st' : mstate) :
  matches word_and_year st st' -> exists st'', matches word_and_digits st st''.
Proof.
  unfold word_and_year, word_and_digits, century, times, lit, digit.
  rewrite py_space, py_19, py_20. cbn [lit_with matches].
  intros [st1 [H1 [st2 [H2 [st3 [H3 [st4 [[st5 [Hc ->]] [n [Hn1 [Hn2 Hr]]]]]]]]]]].
  cbn [within] in Hn2. assert (n = 2) by lia. subst n. cbn [rounds matches] in Hr.
  destruct Hr as [s1 [[d1 [r1 [Ha1 [Hd1 ->]]]]
                 [_ [s2 [[d2 [r2 [Ha2 [Hd2 ->]]]] [_ ->]]]]]].
  cbn [after before caps close_group set_caps] in *.
  assert (Hshape : exists c1 c2, after st3 = c1 :: c2 :: d1 :: d2 :: r2
                                 /\ isdecimal c1 = true /\ isdecimal c2 = true).
  { destruct Hc as [[sA [[c [r [Ha [Hx ->]]]] [c' [r' [Ha' [Hx' ->]]]]]]
                   | [sA [[c [r [Ha [Hx ->]]]] [c' [r' [Ha' [Hx' ->]]]]]]];
      cbn [after before caps] in *; apply N.eqb_eq in Hx, Hx'; subst;
      eexists; eexists;
      (split; [exact Ha | split; vm_compute; reflexivity]). }
  destruct Hshape as [c1 [c2 [Hshape [Hc1 Hc2]]]].
  destruct st3 as [bef3 aft3 cs3]. cbn [after] in Hshape. subst aft3.
  eexists. exists st1. split; [exact H1 | ]. exists st2. split; [exact H2 | ].
  eexists. split; [exact H3 | ]. exists 4. split; [lia | split; [cbn; lia | ]].
  cbn [rounds].
  destruct (chr_step isdecimal c1 bef3 (c2 :: d1 :: d2 :: r2) cs3 Hc1) as [M1 P1].
  destruct (chr_step isdecimal c2 (c1 :: bef3) (d1 :: d2 :: r2) cs3 Hc2) as [M2 P2].
  destruct (chr_step isdecimal d1 (c2 :: c1 :: bef3) (d2 :: r2) cs3 Hd1) as [M3 P3].
  destruct (chr_step isdecimal d2 (d1 :: c2 :: c1 :: bef3) r2 cs3 Hd2) as [M4 P4].
  eexists. split; [exact M1 | split; [exact P1 | ]].
  eexists. split; [exact M2 | split; [exact P2 | ]].
  eexists. split; [exact M3 | split; [exact P3 | ]].
  eexists. split; [exact M4 | split; [exact P4 | reflexivity]].
Qed.

(** The separator of the entries never sets its group: the first
    alternative of its look-ahead, which has no group, always wins. *)
Lemma experience_separator_no_group (st : mstate) (k : cont) (res : mstate) :
  rmatch experience_separator st k = Some res ->
  exists c rest,
    after st = c :: rest
    /\ k (MState (c :: before st) rest (caps st)) = Some res.
Proof.
  unfold experience_separator, lit. rewrite py_lf. cbn [lit_with].
  rewrite rmatch_seq. intros H.
  destruct (rmatch_sound _ _ _ _ H) as [st1 [[c [rest [Ha [_ ->]]]] Hk]].
  exists c, rest. split; [exact Ha | ].
  cbn [rmatch] in Hk. unfold orelse in Hk.
  set (st1 := MState (c :: before st) rest (caps st)) in *.
  destruct (rmatch word_and_digits st1 Some) as [stA|] eqn:EA.
  - destruct (rmatch_sound _ _ _ _ EA) as [stA' [Hm Hs]]. injection Hs as ->.
    rewrite (matches_caps word_and_digits eq_refl _ _ Hm) in Hk. exact Hk.
  - destruct (rmatch word_and_year st1 Some) as [stB|] eqn:EB; [ | discriminate Hk].
    destruct (rmatch_sound _ _ _ _ EB) as [stB' [Hm _]].
    destruct (year_is_digits _ _ Hm) as [stA Hm'].
    exfalso. apply (rmatch_complete word_and_digits st1 stA Some);
      [ | exact Hm' | discriminate | exact EA].
    intros s s' _. split; discriminate.
Qed.

Lemma scan_experience_separator (aft : str) :
  forall must_advance bef start st,
    scan experience_separator must_advance bef aft = Some (start, st) ->
    caps st = [].
Proof.
  induction aft as [|c aft IH]; intros must_advance bef start st H;
    rewrite scan_eq in H;
    destruct (rmatch experience_separator (MState bef _ []) _) as [st1|] eqn:E;
    try discriminate H.
  - injection H as _ <-.
    destruct (experience_separator_no_group _ _ _ E) as [x [rest [_ Hk]]].
    destruct (_ && _); [discriminate Hk | ]. now injection Hk as <-.
  - injection H as _ <-.
    destruct (experience_separator_no_group _ _ _ E) as [x [rest [_ Hk]]].
    destruct (_ && _); [discriminate Hk | ]. now injection Hk as <-.
  - apply (IH _ _ _ _ H).
Qed.

(** So the text of the section comes back whole, or with a [None] among
    the pieces. *)
Lemma split_experience (s : str) :
  forall fuel must_advance bef aft last,
    (exists piece,
       split_loop experience_separator s fuel must_advance bef aft last
       = [Some piece])
    \/ In None (split_loop experience_separator s fuel must_advance bef aft last).
Proof.
  intros fuel must_advance bef aft last.
  destruct fuel as [|fuel]; cbn [split_loop]; [left; eexists; reflexivity | ].
  destruct (scan experience_separator must_advance bef aft) as [[start st]|] eqn:E;
    [ | left; eexists; reflexivity].
  right. right. apply in_or_app. left.
  unfold groups, group. cbn [m_caps].
  rewrite (scan_experience_separator _ _ _ _ _ E).
  replace (ngroups experience_separator) with 1 by (vm_compute; reflexivity).
  cbn [seq map lookup]. now left.
Qed.

(** [extract_experience] raises, or returns one entry at most. *)
Lemma experience_one_entry_or_raise (self : CVParser) :
  extract_experience self = Raise none_has_no_strip
  \/ exists parsed, extract_experience self = Ok parsed /\ length parsed <= 1.
Proof.
  unfold extract_experience.
  destruct (search experience_pattern (extracted_text self)) as [m|] eqn:E;
    [ | right; exists []; split; [reflexivity | cbn [length]; lia]].
  destruct (section_of_some _ _ _ E) as [section ->].
  unfold split_of, split. cbn [bind].
  destruct (split_experience section (2 * length section + 2) false [] section 0)
    as [[piece ->] | Hnone].
  - right. cbn [for_each]. unfold add_experience. cbn [strip_of bind].
    destruct (truthy (strip piece)); eexists; (split; [reflexivity | cbn [length app]; lia]).
  - left. apply (for_each_add_experience_none _ Hnone).
Qed.

(** ** [re.search] finds a match when there is one *)

Lemma scan_complete (r : regex) (rest : str) (st' : mstate) :
  forall mid bef,
    matches r (MState (rev mid ++ bef) rest []) st' ->
    scan r false bef (mid ++ rest) <> None.
Proof.
  induction mid as [|c mid IH]; intros bef Hm; rewrite scan_eq; cbn [app rev] in *.
  - assert (H : rmatch r (MState bef rest [])
                  (fun st0 => if false && (pos st0 =? pos (MState bef rest []))
                              then None else Some st0) <> None).
    { apply (rmatch_complete r _ st'); [ | exact Hm | discriminate].
      intros s s' _. split; discriminate. }
    destruct (rmatch r _ _); [discriminate | contradiction].
  - destruct (rmatch r _ _); [discriminate | ].
    apply IH. rewrite <- app_assoc in Hm. exact Hm.
Qed.

(** [re.search] returns a match exactly when the pattern matches at some
    place of the subject. *)
Lemma search_adequate (r : regex) (s : str) :
  search r s <> None
  <-> exists pre rest st', s = pre ++ rest /\ matches r (MState (rev pre) rest []) st'.
Proof.
  split.
  - destruct (search r s) as [m|] eqn:E; [ | contradiction]. intros _.
    destruct (search_sound _ _ _ E) as [pre [rest [st' [Hs [Hm _]]]]].
    now exists pre, rest, st'.
  - intros [pre [rest [st' [-> Hm]]]]. unfold search.
    assert (H : scan r false [] (pre ++ rest) <> None)
      by (apply (scan_complete r rest st' pre []); rewrite app_nil_r; exact Hm).
    destruct (scan r false [] (pre ++ rest)) as [[start st]|];
      [discriminate | contradiction].
Qed.

(** ** The order of a set does not show once it is sorted *)

Lemma strictly_sorted_unique (l1 : list str) :
  forall l2,
    StronglySorted str_lt l1 -> StronglySorted str_lt l2 ->
    (forall x, In x l1 <-> In x l2) -> l1 = l2.
Proof.
  induction l1 as [|a l1 IH]; intros [|b l2] H1 H2 Hin.
  - reflexivity.
  - exfalso. apply (proj2 (Hin b)). now left.
  - exfalso. apply (proj1 (Hin a)). now left.
  - inversion_clear H1 as [|? ? H1' Ha]. inversion_clear H2 as [|? ? H2' Hb].
    rewrite Forall_forall in Ha, Hb.
    assert (Hab : a = b).
    { destruct (proj1 (Hin a) (or_introl eq_refl)) as [E | Ea]; [now symmetry | ].
      destruct (proj2 (Hin b) (or_introl eq_refl)) as [E | Eb]; [exact E | ].
      pose proof (str_ltb_trans _ _ _ (Ha b Eb) (Hb a Ea)) as Haa.
      rewrite str_ltb_irrefl in Haa. discriminate Haa. }
    subst b. f_equal. apply (IH l2 H1' H2'). intros x. split; intros Hx.
    + destruct (proj1 (Hin x) (or_intror Hx)) as [E | Hx']; [ | exact Hx'].
      subst x. pose proof (Ha a Hx) as Haa. unfold str_lt in Haa.
      rewrite str_ltb_irrefl in Haa. discriminate Haa.
    + destruct (proj2 (Hin x) (or_intror Hx)) as [E | Hx']; [ | exact Hx'].
      subst x. pose proof (Hb a Hx) as Haa. unfold str_lt in Haa.
      rewrite str_ltb_irrefl in Haa. discriminate Haa.
Qed.

(** Two enumerations of one set are sorted into the same list. *)
Lemma sorted_order_free (l l' : list str) :
  NoDup l -> Permutation l l' -> sorted l = sorted l'.
Proof.
  intros Hnd Hperm.
  assert (Hnd' : NoDup l') by (apply (Permutation_NoDup Hperm); exact Hnd).
  destruct (sorted_set _ Hnd) as [Hs [_ Hin]].
  destruct (sorted_set _ Hnd') as [Hs' [_ Hin']].
  apply (strictly_sorted_unique _ _ Hs Hs'). intros x.
  rewrite Hin, Hin'. split; apply Permutation_in; [ | symmetry]; exact Hperm.
Qed.

(** ** Every heading is found *)

Lemma spelled_app (w1 w2 : str) :
  forall s, spelled (w1 ++ w2) s = true ->
    exists a tail,
      s = a ++ tail /\ length a = length w1
      /\ spelled w1 a = true /\ spelled w2 tail = true.
Proof.
  induction w1 as [|x w1 IH]; intros s H; cbn [app] in H.
  - exists [], s. repeat split. exact H.
  - destruct s as [|y s]; cbn [spelled] in H; [discriminate H | ].
    apply andb_true_iff in H. destruct H as [Hxy H].
    destruct (IH _ H) as [a [tail [-> [Hlen [Ha Ht]]]]].
    exists (y :: a), tail. cbn [app length spelled]. rewrite Hxy, Ha, Hlen.
    repeat split. exact Ht.
Qed.

Lemma matches_spelled (w w' bef aft : str) (cs : list (nat * (nat * nat))) :
  length w' = length w -> spelled w w' = true ->
  matches (lit_with ci w) (MState bef (w' ++ aft) cs) (MState (rev w' ++ bef) aft cs).
Proof.
  intros Hlen Hsp.
  pose proof (rmatch_spelled w w' bef aft cs Some Hlen Hsp) as H.
  destruct (rmatch_sound _ _ _ _ H) as [st' [Hm Hs]]. now injection Hs as ->.
Qed.

Lemma any_rounds (tail : str) (cs : list (nat * (nat * nat))) :
  forall bef,
    rounds (matches (Chr any)) (length tail) (MState bef tail cs)
      (MState (rev tail ++ bef) [] cs).
Proof.
  induction tail as [|c tail IH]; intros bef; cbn [length rounds rev app];
    [reflexivity | ].
  destruct (chr_step any c bef tail cs eq_refl) as [Hm Hp].
  eexists. split; [exact Hm | split; [exact Hp | ]].
  rewrite <- app_assoc. apply IH.
Qed.

(** A heading that matches, followed by a colon or a line break, opens a
    section that the pattern finds (it may find an earlier one). *)
Lemma section_found (heading : regex) (pre word tail : str) (c : char)
    (st_h : mstate) :
  matches heading (MState (rev pre) (word ++ c :: tail) []) st_h ->
  before st_h = rev word ++ rev pre -> after st_h = c :: tail ->
  c = 58%N \/ c = LF ->
  search (section_after heading) (pre ++ word ++ c :: tail) <> None.
Proof.
  intros Hm Hb Ha Hc. apply search_adequate.
  exists pre, (word ++ c :: tail). eexists. split; [reflexivity | ].
  unfold section_after, lazy_star. cbn [matches].
  eexists. split; [exists st_h; split; [exact Hm | reflexivity] | ].
  eexists. split.
  { exists c, tail. cbn [after close_group set_caps]. split; [exact Ha | ].
    split; [ | reflexivity]. rewrite py_colon_lf.
    destruct Hc as [-> | ->]; reflexivity. }
  eexists. split.
  { eexists. split; [ | reflexivity]. exists (length tail).
    split; [lia | split; [exact I | apply any_rounds]]. }
  right. split; reflexivity.
Qed.

Lemma ci_exact (p x : char) :
  ascii_lower (lower_char p) = false -> ci p x = true -> x = p.
Proof. unfold ci. intros ->. apply N.eqb_eq. Qed.

Lemma has_heading_inv (words : list str) (s : str) :
  has_heading words s = true ->
  exists pre rest, s = pre ++ rest /\ heading_at words rest = true.
Proof.
  induction s as [|x s IH]; cbn [has_heading]; intros H.
  - rewrite orb_false_r in H. now exists [], [].
  - apply orb_true_iff in H. destruct H as [H|H].
    + now exists [], (x :: s).
    + destruct (IH H) as [pre [rest [-> Hr]]]. now exists (x :: pre), rest.
Qed.

Lemma heading_at_inv (words : list str) (s : str) :
  heading_at words s = true ->
  exists w word c tail,
    In w words /\ s = word ++ c :: tail /\ length word = length w
    /\ spelled w word = true /\ (c = 58%N \/ c = LF).
Proof.
  unfold heading_at. intros H. apply existsb_exists in H.
  destruct H as [w [Hin H]]. apply orb_true_iff in H.
  assert (Hone : forall c, ascii_lower (lower_char c) = false ->
            spelled (w ++ [c]) s = true ->
            exists word tail, s = word ++ c :: tail /\ length word = length w
                              /\ spelled w word = true).
  { intros c Hc Hs. destruct (spelled_app _ _ _ Hs) as [a [t [-> [Hlen [Ha Ht]]]]].
    destruct t as [|y t]; cbn [spelled] in Ht; [discriminate Ht | ].
    apply andb_true_iff in Ht. destruct Ht as [Hy _].
    apply (ci_exact _ _ Hc) in Hy. subst y. now exists a, t. }
  destruct H as [H|H].
  - destruct (Hone 58%N eq_refl H) as [word [tail [Hs [Hlen Hsp]]]].
    exists w, word, 58%N, tail. repeat split; auto.
  - rewrite py_lf in H.
    destruct (Hone LF eq_refl H) as [word [tail [Hs [Hlen Hsp]]]].
    exists w, word, LF, tail. repeat split; auto.
Qed.

Lemma matches_opt_absent (base word bef aft : str) (c : char)
    (cs : list (nat * (nat * nat))) :
  length word = length base -> spelled base word = true ->
  matches (Seq (lit_with ci base) (opt (Chr (ci c))))
    (MState bef (word ++ aft) cs) (MState (rev word ++ bef) aft cs).
Proof.
  intros Hlen Hsp. cbn [matches opt]. eexists.
  split; [apply (matches_spelled _ _ _ _ _ Hlen Hsp) | ].
  exists 0. cbn [within rounds]. repeat split; lia.
Qed.

Lemma matches_opt_present (base w word bef aft : str) (c : char)
    (cs : list (nat * (nat * nat))) :
  w = base ++ [c] -> length word = length w -> spelled w word = true ->
  matches (Seq (lit_with ci base) (opt (Chr (ci c))))
    (MState bef (word ++ aft) cs) (MState (rev word ++ bef) aft cs).
Proof.
  intros -> Hlen Hsp.
  destruct (spelled_app _ _ _ Hsp) as [a [t [-> [Ha [Hsa Ht]]]]].
  rewrite !length_app in Hlen. cbn [length] in Hlen.
  destruct t as [|y [|z t]]; cbn [length] in Hlen; try lia.
  cbn [spelled] in Ht. rewrite andb_true_r in Ht.
  cbn [matches opt]. eexists.
  split; [rewrite <- app_assoc; apply (matches_spelled _ _ _ _ _ Ha Hsa) | ].
  exists 1. cbn [within rounds app].
  split; [lia | split; [lia | ]].
  destruct (chr_step (ci c) y (rev a ++ bef) aft cs Ht) as [Hm Hp].
  eexists. split; [exact Hm | split; [exact Hp | ]].
  rewrite rev_app_distr. reflexivity.
Qed.

Lemma matches_alt_l (r1 r2 : regex) (st st' : mstate) :
  matches r1 st st' -> matches (Alt r1 r2) st st'.
Proof. intros H. left. exact H. Qed.

Lemma matches_alt_r (r1 r2 : regex) (st st' : mstate) :
  matches r2 st st' -> matches (Alt r1 r2) st st'.
Proof. intros H. right. exact H. Qed.

Ltac one_heading :=
  match goal with
  | H : spelled ?w _ = true |- matches (lit_with ci ?w) _ _ =>
    apply matches_spelled; assumption
  | H : spelled ?w _ = true
    |- matches (Seq (lit_with ci ?w) (opt (Chr (ci _)))) _ _ =>
    apply matches_opt_absent; assumption
  | H : spelled ?w _ = true
    |- matches (Seq (lit_with ci ?base) (opt (Chr (ci ?c)))) _ _ =>
    apply (matches_opt_present base w);
    [vm_compute; reflexivity | assumption | assumption]
  | |- matches (Alt _ _) _ _ =>
    first [apply matches_alt_l; one_heading | apply matches_alt_r; one_heading]
  end.

Ltac one_section :=
  first
    [ apply Exists_cons_hd;
      eapply section_found; [one_heading | reflexivity | reflexivity | assumption]
    | apply Exists_cons_tl; one_section ].

(** A text with a heading has a section: the heading words are the words
    the section patterns look for, no more. *)
Lemma heading_has_section (text : str) :
  has_heading heading_words text = true ->
  Exists (fun pattern => search pattern text <> None) section_patterns.
Proof.
  intros H. destruct (has_heading_inv _ _ H) as [pre [rest [-> Hat]]].
  destruct (heading_at_inv _ _ Hat) as [w [word [c [tail [Hin [-> [Hlen [Hsp Hc]]]]]]]].
  unfold section_patterns, skills_patterns, education_pattern,
    experience_pattern, cert_pattern, lang_pattern. rewrite ilit_S.
  unfold ilit. cbn [app].
  unfold heading_words in Hin. cbn [map In] in Hin.
  repeat (destruct Hin as [<- | Hin]; [one_section | ]). destruct Hin.
Qed.

(** The section patterns find nothing exactly in the texts without
    heading. *)
Lemma no_heading_iff (text : str) :
  has_heading heading_words text = false
  <-> Forall (fun pattern => search pattern text = None) section_patterns.
Proof.
  split; [apply no_heading_no_match | ].
  intros Hnone. destruct (has_heading heading_words text) eqn:E; [ | reflexivity].
  exfalso. apply heading_has_section in E.
  apply Exists_exists in E. destruct E as [pattern [Hin Hsome]].
  rewrite Forall_forall in Hnone. apply Hsome. apply (Hnone _ Hin).
Qed.

Import Shape.

(** ** Characters consumed by a match *)

Lemma span_refl (st : mstate) : span st st [].
Proof. split; reflexivity. Qed.

Lemma span_trans (st st1 st' : mstate) (m1 m2 : str) :
  span st st1 m1 -> span st1 st' m2 -> span st st' (m1 ++ m2).
Proof.
  intros [A1 B1] [A2 B2]. split.
  - rewrite A1, A2, app_assoc. reflexivity.
  - rewrite B2, B1, rev_app_distr, app_assoc. reflexivity.
Qed.



Lemma span_set_caps (st st' : mstate) (mid : str) (cs : list (nat * (nat * nat))) :
  span st st' mid -> span st (set_caps cs st') mid.
Proof. intros H. exact H. Qed.

Lemma rounds_allows (P : char -> bool) (step : mstate -> mstate -> Prop) :
  (forall st st', step st st' ->
     exists mid, span st st' mid /\ forallb P mid = true) ->
  forall n st st', rounds step n st st' ->
    exists mid, span st st' mid /\ forallb P mid = true.
Proof.
  intros Hstep. induction n as [|n IH]; intros st st' H; cbn [rounds] in H.
  - subst st'. exists []. split; [apply span_refl | reflexivity].
  - destruct H as [st1 [H1 [_ Hn]]].
    destruct (Hstep _ _ H1) as [m1 [S1 P1]].
    destruct (IH _ _ Hn) as [m2 [S2 P2]].
    exists (m1 ++ m2). split; [apply (span_trans _ _ _ _ _ S1 S2) | ].
    rewrite forallb_app, P1, P2. reflexivity.
Qed.

(** What a pattern consumes is made of the characters its classes
    allow. *)
Lemma matches_allows (P : char -> bool) (r : regex) :
  allows P r ->
  forall st st', matches r st st' ->
    exists mid, span st st' mid /\ forallb P mid = true.
Proof.
  induction r as [ |p|r1 IH1 r2 IH2|r1 IH1 r2 IH2|g lo hi r1 IH1|n r1 IH1
                   |r1 IH1|w r1 IH1| | | | ];
    intros Hal st st' H; cbn [matches allows] in *.
  - subst st'. exists []. split; [apply span_refl | reflexivity].
  - destruct H as [c [rest [Ha [Hp ->]]]]. exists [c]. split.
    + split; [exact Ha | reflexivity].
    + cbn [forallb]. rewrite (Hal _ Hp). reflexivity.
  - destruct Hal as [Ha1 Ha2]. destruct H as [st1 [H1 H2]].
    destruct (IH1 Ha1 _ _ H1) as [m1 [S1 P1]].
    destruct (IH2 Ha2 _ _ H2) as [m2 [S2 P2]].
    exists (m1 ++ m2). split; [apply (span_trans _ _ _ _ _ S1 S2) | ].
    rewrite forallb_app, P1, P2. reflexivity.
  - destruct Hal as [Ha1 Ha2]. destruct H as [H|H]; [apply (IH1 Ha1 _ _ H) | apply (IH2 Ha2 _ _ H)].
  - destruct H as [n [_ [_ Hn]]]. apply (rounds_allows P (matches r1) (IH1 Hal) n _ _ Hn).
  - destruct H as [st1 [H1 ->]]. destruct (IH1 Hal _ _ H1) as [m [S1 P1]].
    exists m. split; [exact S1 | exact P1].
  - destruct H as [st1 [_ ->]]. exists []. split; [split; reflexivity | reflexivity].
  - destruct H as [bef [aft [st1 [_ [_ ->]]]]]. exists [].
    split; [split; reflexivity | reflexivity].
  - destruct H as [_ ->]. exists []. split; [apply span_refl | reflexivity].
  - destruct H as [_ ->]. exists []. split; [apply span_refl | reflexivity].
  - destruct H as [_ ->]. exists []. split; [apply span_refl | reflexivity].
  - destruct H as [_ ->]. exists []. split; [apply span_refl | reflexivity].
Qed.




Lemma lit_matches (w : str) (cs : list (nat * (nat * nat))) :
  forall bef aft,
    matches (lit_with exactly w) (MState bef (w ++ aft) cs)
      (MState (rev w ++ bef) aft cs).
Proof.
  induction w as [|c w IH]; intros bef aft.
  - reflexivity.
  - destruct w as [|d w].
    + cbn [lit_with matches app rev]. exists c, aft. repeat split. apply N.eqb_refl.
    + change (lit_with exactly (c :: d :: w))
        with (Seq (Chr (exactly c)) (lit_with exactly (d :: w))).
      cbn [matches]. exists (MState (c :: bef) ((d :: w) ++ aft) cs). split.
      * exists c, ((d :: w) ++ aft). repeat split. apply N.eqb_refl.
      * replace (rev (c :: d :: w) ++ bef) with (rev (d :: w) ++ c :: bef)
          by (cbn [rev]; rewrite <- !app_assoc; reflexivity).
        apply IH.
Qed.

(** ** Where [extract_experience] cuts its section *)















(** ** Splitting at a pattern that takes one character *)

Section OneCharacter.

Variable r : regex.
Variable cut : char -> str -> bool.

(** [r] takes the next character when it is a cut, and nothing else. *)
Hypothesis r_cuts : forall bef aft cs (k : cont),
  rmatch r (MState bef aft cs) k
  = match aft with
    | c :: rest => if cut c rest then k (MState (c :: bef) rest cs) else None
    | [] => None
    end.

Hypothesis r_groupless : ngroups r = 0.




Lemma split_where_not_nil (s : str) : split_where cut s <> [].
Proof.
  destruct s as [|c t]; cbn [split_where]; [discriminate | ].
  destruct (cut c t); [discriminate | ]. destruct (split_where cut t); discriminate.
Qed.





End OneCharacter.

(** ** Where [extract_education] cuts its section *)




(** ** What [re.search] returns *)


(** ** The fields of the contact *)







Lemma contains_here (p s : str) : starts_with p (p ++ s) = true.
Proof.
  induction p as [|x p IH]; [reflexivity | ]. cbn [app starts_with].
  now rewrite N.eqb_refl, IH.
Qed.

Lemma contains_middle (p a b : str) : contains p (a ++ p ++ b) = true.
Proof.
  induction a as [|x a IH]; cbn [app].
  - destruct (p ++ b) eqn:E.
    + destruct p; [reflexivity | discriminate].
    + rewrite <- E. cbn [contains]. destruct (p ++ b) eqn:E';
        cbn [contains]; rewrite <- ?E', contains_here; reflexivity.
  - cbn [contains]. rewrite IH. apply orb_true_r.
Qed.



















(** ** The text of a DOCX file *)

















(** ** The state of the parser *)









(** ** Where a section pattern finds its section *)

Lemma upto_blank_line_cons (x : char) (t : str) :
  ((x =? LF)%N && match t with d :: _ => (d =? LF)%N | [] => false end) = false ->
  forall post', x :: t <> LF :: LF :: post'.
Proof.
  intros H post' E. injection E as -> ->. cbn in H. discriminate H.
Qed.

Lemma upto_blank_line_prefix (s : str) :
  exists rest, s = upto_blank_line s ++ rest.
Proof.
  induction s as [|c t [rest E]]; [now exists [] | ]. cbn [upto_blank_line].
  destruct (_ && _).
  - now exists (c :: t).
  - exists rest. cbn [app]. now f_equal.
Qed.

Lemma lazy_upto_blank (start : nat) (cs : list (nat * (nat * nat))) :
  forall tail bef fuel count,
    length tail < fuel ->
    exists res,
      rep_loop (rmatch (Chr any)) false 0 None
        (fun st1 => rmatch (Alt (lit "\n\n") EndZ) (close_group 2 start st1) Some)
        fuel count (MState bef tail cs) = Some res
      /\ lookup 2 (caps res)
         = Some (start, length bef + length (upto_blank_line tail)).
Proof.
  induction tail as [|x t IH]; intros bef fuel count Hfuel;
    (destruct fuel as [|fuel]; [cbn [length] in Hfuel; lia | ]);
    rewrite rep_loop_lazy.
  - rewrite section_end_here by reflexivity. cbn [orelse]. eexists.
    split; [reflexivity | ]. unfold close_group, set_caps, pos.
    cbn [caps before lookup Nat.eqb upto_blank_line length]. now rewrite Nat.add_0_r.
  - cbn [upto_blank_line].
    destruct ((x =? LF)%N && match t with d :: _ => (d =? LF)%N | [] => false end)
      eqn:E.
    + apply andb_true_iff in E. destruct E as [Ex Et].
      apply N.eqb_eq in Ex. subst x. destruct t as [|d t']; [discriminate Et | ].
      apply N.eqb_eq in Et. subst d.
      unfold lit. rewrite py_lf_lf. cbn [lit_with rmatch close_group set_caps after
        before caps orelse]. replace (exactly LF LF) with true by reflexivity.
      cbn [orelse]. eexists. split; [reflexivity | ].
      unfold pos. cbn [caps before lookup Nat.eqb length]. now rewrite Nat.add_0_r.
    + rewrite (section_end_none _ _ x t); [ | reflexivity | ].
      * cbn [orelse]. rewrite rmatch_chr. unfold any at 1.
        unfold pos at 1 2. cbn [before length].
        replace (length bef <? S (length bef)) with true
          by (symmetry; apply Nat.ltb_lt; lia).
        destruct (IH (x :: bef) fuel (S count)) as [res [Hres Hcaps]];
          [cbn [length] in Hfuel; lia | ].
        exists res. split; [exact Hres | ]. rewrite Hcaps. cbn [length].
        now rewrite Nat.add_succ_r.
      * apply (upto_blank_line_cons _ _ E).
Qed.

(** After the heading: the colon or line break, and the section up to
    the first blank line. *)
Lemma after_heading (st1 : mstate) (c : char) (tail : str) :
  after st1 = c :: tail -> heading_end c = true ->
  exists res,
    rmatch (Seq (Chr (oneof (py ":\n")))
              (Seq (Grp 2 (lazy_star (Chr any))) (Alt (lit "\n\n") EndZ))) st1 Some
    = Some res
    /\ lookup 2 (caps res)
       = Some (S (pos st1), S (pos st1) + length (upto_blank_line tail)).
Proof.
  intros Ha Hc. destruct st1 as [bef aft cs]. cbn [after] in Ha. subst aft.
  rewrite rmatch_seq, rmatch_chr. unfold heading_end in Hc. rewrite Hc.
  rewrite rmatch_seq, rmatch_grp. unfold lazy_star. rewrite rmatch_rep.
  cbn [after]. unfold pos. cbn [before length].
  destruct (lazy_upto_blank (S (length bef)) cs tail (c :: bef) (S (length tail)) 0)
    as [res [Hres Hcaps]]; [lia | ].
  exists res. split; [exact Hres | ]. rewrite Hcaps. reflexivity.
Qed.

Lemma heading_end_cases (c : char) :
  heading_end c = true <-> c = 58%N \/ c = LF.
Proof.
  unfold heading_end. rewrite py_colon_lf. unfold oneof. cbn [existsb].
  rewrite orb_false_r, orb_true_iff, !N.eqb_eq. reflexivity.
Qed.

Lemma heading_end_false (c : char) :
  heading_end c = false <-> c <> 58%N /\ c <> LF.
Proof.
  unfold heading_end. rewrite py_colon_lf. unfold oneof. cbn [existsb].
  rewrite orb_false_r, orb_false_iff, !N.eqb_neq. reflexivity.
Qed.

(** A letter of a heading, in whatever case the text has it, is no colon
    and no line break. *)
Lemma ci_not_end (p c : char) :
  heading_end p = false -> ci p c = true -> heading_end c = false.
Proof.
  intros Hp. unfold ci. destruct (ascii_lower (lower_char p)) eqn:L.
  - unfold ascii_lower, between in L. apply andb_true_iff in L.
    destruct L as [L1 L2]. apply N.leb_le in L1, L2. intros H.
    apply heading_end_false. unfold LF.
    apply orb_true_iff in H. destruct H as [H|H].
    + apply orb_true_iff in H. destruct H as [H|H]; apply N.eqb_eq in H; lia.
    + unfold folds_to in H.
      destruct (lower_char p =? 105)%N;
        [ | destruct (lower_char p =? 115)%N;
            [ | destruct (lower_char p =? 107)%N ] ];
        cbn [existsb] in H; rewrite ?orb_false_r in H;
        try discriminate H;
        try (apply orb_true_iff in H; destruct H as [H|H]);
        apply N.eqb_eq in H; lia.
  - intros H. apply N.eqb_eq in H. now subst c.
Qed.

Lemma spelled_no_end (w : str) :
  forall word, no_end w = true -> length word = length w -> spelled w word = true ->
    no_end word = true.
Proof.
  unfold no_end.
  induction w as [|x w IH]; intros [|y word] Hw Hlen Hsp; try discriminate Hlen;
    [reflexivity | ].
  cbn [forallb spelled length] in *. injection Hlen as Hlen.
  apply andb_true_iff in Hw, Hsp. destruct Hw as [Hx Hw], Hsp as [Hxy Hsp].
  apply negb_true_iff in Hx. rewrite (ci_not_end _ _ Hx Hxy). cbn [negb andb].
  apply (IH _ Hw Hlen Hsp).
Qed.

Lemma first_end_unique (a : str) :
  forall b x y s t,
    no_end a = true -> no_end b = true ->
    heading_end x = true -> heading_end y = true ->
    a ++ x :: s = b ++ y :: t -> a = b /\ x = y /\ s = t.
Proof.
  unfold no_end.
  induction a as [|c a IH]; intros [|d b] x y s t Ha Hb Hx Hy E; cbn [app] in E.
  - injection E as -> ->. now repeat split.
  - injection E as -> _. cbn [forallb] in Hb. rewrite Hx in Hb. discriminate Hb.
  - injection E as -> _. cbn [forallb] in Ha. rewrite Hy in Ha. discriminate Ha.
  - injection E as -> E. cbn [forallb] in Ha, Hb.
    apply andb_true_iff in Ha, Hb. destruct Ha as [_ Ha], Hb as [_ Hb].
    destruct (IH _ _ _ _ _ Ha Hb Hx Hy E) as [-> [-> ->]]. now repeat split.
Qed.

Lemma allows_lit_ci (w : str) :
  no_end w = true -> allows (fun c => negb (heading_end c)) (lit_with ci w).
Proof.
  unfold no_end. induction w as [|c w IH]; intros H; [exact I | ].
  cbn [forallb] in H. apply andb_true_iff in H. destruct H as [Hc Hw].
  apply negb_true_iff in Hc.
  assert (Hchr : allows (fun c => negb (heading_end c)) (Chr (ci c))).
  { intros x Hx. now rewrite (ci_not_end _ _ Hc Hx). }
  destruct w as [|d w]; [exact Hchr | ].
  change (lit_with ci (c :: d :: w)) with (Seq (Chr (ci c)) (lit_with ci (d :: w))).
  split; [exact Hchr | apply (IH Hw)].
Qed.

Lemma spelled_end (c : char) (rest : str) :
  heading_end c = true -> spelled [c] (c :: rest) = true.
Proof.
  intros H. apply heading_end_cases in H. destruct H as [-> | ->]; reflexivity.
Qed.

Lemma heading_here_some (words : list str) (s w : str) :
  heading_here words s = Some w ->
  exists word c tail,
    In w words /\ s = word ++ c :: tail /\ length word = length w
    /\ spelled w word = true /\ heading_end c = true.
Proof.
  unfold heading_here. intros H. apply find_some in H. destruct H as [Hin H].
  assert (Hat : heading_at [w] s = true)
    by (unfold heading_at; cbn [existsb]; now rewrite H).
  destruct (heading_at_inv _ _ Hat) as [w' [word [c [tail [[<-|[]] [-> [Hl [Hs Hc]]]]]]]].
  exists word, c, tail. repeat split; try assumption. now apply heading_end_cases.
Qed.

Lemma heading_here_none (words : list str) (s w : str) (c : char) :
  heading_here words s = None -> In w words -> heading_end c = true ->
  spelled (w ++ [c]) s = false.
Proof.
  unfold heading_here. intros H Hin Hc.
  pose proof (find_none _ _ H _ Hin) as Hf. cbn beta in Hf.
  apply orb_false_iff in Hf. rewrite py_lf in Hf. destruct Hf as [H1 H2].
  apply heading_end_cases in Hc. destruct Hc as [-> | ->]; assumption.
Qed.

Section Locator.

Variable heading : regex.
Variables spelt words : list str.

Hypothesis heading_letters : allows (fun c => negb (heading_end c)) heading.
Hypothesis heading_spells : spells heading spelt.
Hypothesis spelt_words : forall w, In w spelt -> In w words.
Hypothesis words_letters : forall w, In w words -> no_end w = true.
Hypothesis heading_matches : forall w word bef aft cs,
  In w words -> length word = length w -> spelled w word = true ->
  matches heading (MState bef (word ++ aft) cs) (MState (rev word ++ bef) aft cs).

Lemma rmatch_at_heading (bef aft w : str) :
  heading_here words aft = Some w ->
  exists res,
    rmatch (section_after heading) (MState bef aft []) Some = Some res
    /\ lookup 2 (caps res)
       = Some (S (length bef + length w),
               S (length bef + length w)
               + length (upto_blank_line (skipn (S (length w)) aft))).
Proof.
  intros H.
  destruct (heading_here_some _ _ _ H) as [word [c [tail [Hin [-> [Hlen [Hsp Hc]]]]]]].
  pose proof (spelled_no_end _ _ (words_letters _ Hin) Hlen Hsp) as Hword.
  unfold section_after. rewrite rmatch_seq, rmatch_grp.
  set (st0 := MState bef (word ++ c :: tail) []).
  set (K1 := fun st1 : mstate =>
               rmatch (Seq (Chr (oneof (py ":\n")))
                         (Seq (Grp 2 (lazy_star (Chr any))) (Alt (lit "\n\n") EndZ)))
                 (close_group 1 (pos st0) st1) Some).
  assert (HK : forall st1 x tail',
            after st1 = x :: tail' -> heading_end x = true ->
            exists res,
              K1 st1 = Some res
              /\ lookup 2 (caps res)
                 = Some (S (pos st1), S (pos st1) + length (upto_blank_line tail'))).
  { intros st1 x tail' Ha Hx.
    apply (after_heading (close_group 1 (pos st0) st1) x tail' Ha Hx). }
  assert (Halike : succeed_alike K1 K1).
  { intros s s' Hs. unfold K1. apply rmatch_alike.
    - exact Hs.
    - intros ? ? _. split; discriminate. }
  change (exists res,
            rmatch heading st0 K1 = Some res
            /\ lookup 2 (caps res)
               = Some (S (length bef + length w),
                       S (length bef + length w)
                       + length (upto_blank_line
                                   (skipn (S (length w)) (word ++ c :: tail))))).
  destruct (rmatch heading st0 K1) as [res|] eqn:E.
  - exists res. split; [reflexivity | ].
    destruct (rmatch_sound _ _ _ _ E) as [st1 [Hm Hk]].
    destruct (matches_allows _ _ heading_letters _ _ Hm) as [mid [[A B] F]].
    cbn [after before] in A, B.
    assert (Hx : exists x tail', after st1 = x :: tail' /\ heading_end x = true).
    { unfold K1 in Hk. rewrite rmatch_seq in Hk.
      destruct st1 as [b1 a1 c1]. cbn [after]. destruct a1 as [|x tail'].
      - discriminate Hk.
      - unfold close_group, set_caps in Hk. cbn [before after caps] in Hk.
        rewrite rmatch_chr in Hk. unfold heading_end.
        destruct (oneof (py ":\n") x) eqn:Ex; [ | discriminate Hk].
        exists x, tail'. split; [reflexivity | exact Ex]. }
    destruct Hx as [x [tail' [Ha Hx]]]. rewrite Ha in A.
    destruct (first_end_unique _ _ _ _ _ _ Hword F Hc Hx A) as [<- [<- <-]].
    destruct (HK st1 c tail Ha Hc) as [res' [Hres Hcaps]].
    rewrite Hk in Hres. injection Hres as <-. rewrite Hcaps.
    unfold pos. rewrite B, length_app, length_rev, <- Hlen.
    replace (skipn (S (length word)) (word ++ c :: tail)) with tail.
    + rewrite (Nat.add_comm (length word)). reflexivity.
    + replace (word ++ c :: tail) with ((word ++ [c]) ++ tail)
        by (rewrite <- app_assoc; reflexivity).
      replace (S (length word)) with (length (word ++ [c]) + 0)
        by (rewrite length_app; cbn [length]; lia).
      rewrite skipn_app, skipn_all2 by lia.
      replace (length (word ++ [c]) + 0 - length (word ++ [c])) with 0 by lia.
      reflexivity.
  - exfalso.
    apply (rmatch_complete heading st0 (MState (rev word ++ bef) (c :: tail) []) K1);
      [exact Halike | apply (heading_matches _ _ _ _ _ Hin Hlen Hsp) | | exact E].
    destruct (HK (MState (rev word ++ bef) (c :: tail) []) c tail eq_refl Hc)
      as [res [Hres _]].
    rewrite Hres. discriminate.
Qed.

Lemma rmatch_no_heading (bef aft : str) :
  heading_here words aft = None ->
  rmatch (section_after heading) (MState bef aft []) Some = None.
Proof.
  intros H.
  destruct (rmatch (section_after heading) (MState bef aft []) Some) as [res|] eqn:E;
    [exfalso | reflexivity].
  destruct (rmatch_sound _ _ _ _ E) as [st' [Hm _]].
  unfold section_after in Hm. cbn [matches] in Hm.
  destruct Hm as [st1 [[st_h [Hh ->]] [st2 [[c [rest [Ha [Hc _]]]] _]]]].
  cbn [after close_group set_caps] in Ha.
  destruct (heading_spells _ _ Hh) as [w [Hin Hw]].
  specialize (Hw [c]). cbn [after] in Hw. rewrite Ha in Hw.
  rewrite (spelled_end c rest Hc) in Hw.
  rewrite (heading_here_none _ _ _ _ H (spelt_words _ Hin) Hc) in Hw. discriminate Hw.
Qed.

Lemma scan_locate :
  forall aft bef,
    match scan (section_after heading) false bef aft with
    | Some (start, st') => group (Match (rev bef ++ aft) start (pos st') (caps st')) 2
    | None => None
    end = locate words aft.
Proof.
  assert (Hhere : forall aft bef w,
    heading_here words aft = Some w ->
    match scan (section_after heading) false bef aft with
    | Some (start, st') => group (Match (rev bef ++ aft) start (pos st') (caps st')) 2
    | None => None
    end = Some (upto_blank_line (skipn (S (length w)) aft))).
  { intros aft bef w H. rewrite scan_eq. cbn [andb].
    destruct (rmatch_at_heading bef aft w H) as [res [Hres Hcaps]].
    change (fun st' : mstate => Some st') with (@Some mstate). rewrite Hres.
    unfold group. cbn [m_caps m_string]. rewrite Hcaps. f_equal.
    destruct (heading_here_some _ _ _ H) as [word [c [tail [_ [-> [Hlen _]]]]]].
    replace (skipn (S (length w)) (word ++ c :: tail)) with tail.
    - destruct (upto_blank_line_prefix tail) as [rest E].
      rewrite E at 1.
      replace (rev bef ++ word ++ c :: upto_blank_line tail ++ rest)
        with ((rev bef ++ word ++ [c]) ++ upto_blank_line tail ++ rest)
        by (rewrite <- !app_assoc; reflexivity).
      replace (S (length bef + length w)) with (length (rev bef ++ word ++ [c]))
        by (rewrite !length_app, length_rev; cbn [length]; lia).
      apply slice_middle.
    - replace (word ++ c :: tail) with ((word ++ [c]) ++ tail)
        by (rewrite <- app_assoc; reflexivity).
      replace (S (length w)) with (length (word ++ [c]) + 0)
        by (rewrite length_app; cbn [length]; lia).
      rewrite skipn_app, skipn_all2 by lia.
      replace (length (word ++ [c]) + 0 - length (word ++ [c])) with 0 by lia.
      reflexivity. }
  induction aft as [|x aft IH]; intros bef.
  - cbn [locate]. destruct (heading_here words []) as [w|] eqn:H.
    + apply (Hhere [] bef w H).
    + rewrite scan_eq. cbn [andb].
      change (fun st' : mstate => Some st') with (@Some mstate).
      now rewrite (rmatch_no_heading bef [] H).
  - cbn [locate]. destruct (heading_here words (x :: aft)) as [w|] eqn:H.
    + apply (Hhere (x :: aft) bef w H).
    + rewrite scan_eq. cbn [andb].
      change (fun st' : mstate => Some st') with (@Some mstate).
      rewrite (rmatch_no_heading bef (x :: aft) H).
      rewrite <- (IH (x :: bef)). cbn [rev]. rewrite <- app_assoc. reflexivity.
Qed.

(** The pattern finds the section of the first heading. *)
Lemma section_located (text : str) :
  section_of (section_after heading) text = locate words text.
Proof.
  unfold section_of, search. rewrite <- (scan_locate text []).
  destruct (scan (section_after heading) false [] text) as [[start st']|];
    reflexivity.
Qed.

End Locator.

Lemma allows_opt_ci (x : char) :
  heading_end x = false ->
  allows (fun c => negb (heading_end c)) (opt (Chr (ci x))).
Proof. intros Hx c Hc. now rewrite (ci_not_end _ _ Hx Hc). Qed.

Lemma allows_alt (P : char -> bool) (r1 r2 : regex) :
  allows P r1 -> allows P r2 -> allows P (Alt r1 r2).
Proof. intros H1 H2. split; assumption. Qed.

Lemma allows_seq (P : char -> bool) (r1 r2 : regex) :
  allows P r1 -> allows P r2 -> allows P (Seq r1 r2).
Proof. intros H1 H2. split; assumption. Qed.

Lemma allows_ilit (s : string) :
  no_end (py s) = true -> allows (fun c => negb (heading_end c)) (ilit s).
Proof. apply allows_lit_ci. Qed.

Lemma matches_ilit (s : string) (word bef aft : str) (cs : list (nat * (nat * nat))) :
  length word = length (py s) -> spelled (py s) word = true ->
  matches (ilit s) (MState bef (word ++ aft) cs) (MState (rev word ++ bef) aft cs).
Proof. apply matches_spelled. Qed.

Lemma matches_ilit_alone (s : string) (word bef aft : str) (c : char)
    (cs : list (nat * (nat * nat))) :
  length word = length (py s) -> spelled (py s) word = true ->
  matches (Seq (ilit s) (opt (Chr (ci c))))
    (MState bef (word ++ aft) cs) (MState (rev word ++ bef) aft cs).
Proof. apply matches_opt_absent. Qed.

Lemma matches_ilit_more (s : string) (w word bef aft : str) (c : char)
    (cs : list (nat * (nat * nat))) :
  w = py s ++ [c] -> length word = length w -> spelled w word = true ->
  matches (Seq (ilit s) (opt (Chr (ci c))))
    (MState bef (word ++ aft) cs) (MState (rev word ++ bef) aft cs).
Proof. apply matches_opt_present. Qed.

Ltac letters :=
  repeat match goal with
  | |- allows _ (Alt _ _) => apply allows_alt
  | |- allows _ (Seq _ (opt _)) => apply allows_seq
  | |- allows _ (ilit _) => apply allows_ilit; vm_compute; reflexivity
  | |- allows _ (opt (Chr (ci _))) => apply allows_opt_ci; vm_compute; reflexivity
  end.

Ltac heading_word :=
  match goal with
  | H : spelled (py ?s) _ = true |- matches (ilit ?s) _ _ =>
    apply matches_ilit; assumption
  | H : spelled (py ?s) _ = true |- matches (Seq (ilit ?s) (opt (Chr (ci _)))) _ _ =>
    apply matches_ilit_alone; assumption
  | H : spelled ?w _ = true |- matches (Seq (ilit ?s) (opt (Chr (ci ?c)))) _ _ =>
    apply (matches_ilit_more s w);
    [vm_compute; reflexivity | assumption | assumption]
  | |- matches (Alt _ _) _ _ =>
    first [apply matches_alt_l; heading_word | apply matches_alt_r; heading_word]
  end.

Ltac each_word Hin tac :=
  repeat (destruct Hin as [<- | Hin]; [tac | ]); destruct Hin.

Ltac located ws :=
  rewrite ?ilit_S;
  eapply (section_located _ _ ws);
  [ letters
  | spell
  | apply all_among_incl; vm_compute; reflexivity
  | let w := fresh "w" in let Hin := fresh "Hin" in
    intros w Hin; cbn [map In] in Hin; each_word Hin ltac:(vm_compute; reflexivity)
  | let w := fresh "w" in let Hin := fresh "Hin" in
    intros w word bef aft cs Hin Hlen Hsp; cbn [map In] in Hin;
    each_word Hin ltac:(idtac; heading_word) ].

Lemma skills_located (text : str) :
  section_of (nth 0 skills_patterns Eps) text = locate skills_words text.
Proof.
  unfold skills_patterns. cbn [nth]. unfold skills_words.
  located (map py [ "SKILLS"; "TECHNICAL SKILLS"; "CORE COMPETENCIES"; "EXPERTISE";
                    "QUALIFICATIONS" ]%string).
Qed.

Lemma tools_located (text : str) :
  section_of (nth 1 skills_patterns Eps) text = locate tools_words text.
Proof.
  unfold skills_patterns. cbn [nth]. unfold tools_words.
  located (map py [ "TECHNOLOGIES"; "TOOLS"; "SOFTWARE" ]%string).
Qed.








Lemma spelled_app_intro (w : str) :
  forall word t s, length word = length w -> spelled w word = true ->
    spelled (w ++ t) (word ++ s) = spelled t s.
Proof.
  induction w as [|x w IH]; intros [|y word] t s Hlen Hsp; try discriminate Hlen;
    [reflexivity | ].
  cbn [spelled app length] in *. injection Hlen as Hlen.
  apply andb_true_iff in Hsp. destruct Hsp as [Hxy Hsp].
  now rewrite Hxy, (IH _ _ _ Hlen Hsp).
Qed.

Lemma locate_eq (words : list str) (s : str) :
  locate words s
  = match heading_here words s with
    | Some w => Some (upto_blank_line (skipn (S (length w)) s))
    | None =>
      match s with
      | [] => None
      | _ :: t => locate words t
      end
    end.
Proof. destruct s; reflexivity. Qed.



Lemma contains_none (p s : str) :
  contains p s = false -> forall a b, s <> a ++ p ++ b.
Proof.
  intros H a b E. subst s. rewrite contains_middle in H. discriminate H.
Qed.




(** ** A heading in capitals with a colon, in a DOCX file *)






(** * The question generator *)

Section QuestionGeneratorProperties.
Import Values QuestionGenerator Answers.




Lemma lstrip_trimmed (q : str) : strip q = q -> lstrip q = q.
Proof.
  intros H. rewrite <- H at 2. rewrite <- H at 1. unfold strip.
  apply lstrip_rstrip. apply lstrip_idem.
Qed.

Lemma rstrip_trimmed (q : str) : strip q = q -> rstrip q = q.
Proof. intros H. rewrite <- H at 2. unfold strip. now rewrite (lstrip_trimmed _ H). Qed.


Lemma trimmed_edges (q : str) : q <> [] -> strip q = q -> edges q = true.
Proof.
  intros Hq H. unfold edges. apply andb_true_iff. split.
  - pose proof (lstrip_head q) as Hh. rewrite (lstrip_trimmed _ H) in Hh.
    destruct q as [|c t]; [contradiction | ]. now rewrite Hh.
  - pose proof (lstrip_head (rev q)) as Hh.
    assert (E : lstrip (rev q) = rev q).
    { pose proof (rstrip_trimmed _ H) as Hr. unfold rstrip in Hr.
      rewrite <- Hr at 2. now rewrite rev_involutive. }
    rewrite E in Hh. destruct (rev q) as [|d t] eqn:Er.
    + apply (f_equal (@rev char)) in Er. rewrite rev_involutive in Er.
      contradiction.
    + now rewrite Hh.
Qed.




















End QuestionGeneratorProperties.

(** ** The application: [src/app.py] *)

Section AppProperties.
Import Values App.



Lemma get_app (k : str) (a b : dict) :
  get k (a ++ b) = match get k a with Some v => Some v | None => get k b end.
Proof.
  induction a as [|[k' v'] a IH]; cbn [app get]; [reflexivity | ].
  destruct (str_eqb k' k); [reflexivity | exact IH].
Qed.

Lemma set_absent (k : str) (v : value) (d : dict) :
  has k d = false -> set k v d = d ++ [(k, v)].
Proof.
  unfold has. induction d as [|[k' v'] d IH]; cbn [get set app]; [reflexivity | ].
  destruct (str_eqb k' k); [discriminate | ].
  intros H. now rewrite IH.
Qed.

Lemma unless_present_adds (k : str) (v : value) (d : dict) :
  unless_present k v d = d ++ (if has k d then [] else [(k, v)]).
Proof.
  unfold unless_present. destruct (has k d) eqn:E; cbn [negb].
  - now rewrite app_nil_r.
  - now apply set_absent.
Qed.

Lemma get_filter_absent (f : str * value -> bool) (k : str) (d : dict) :
  get k d = None -> get k (filter f d) = None.
Proof.
  induction d as [|[k' v'] d IH]; cbn [get filter]; [reflexivity | ].
  destruct (str_eqb k' k) eqn:E; [discriminate | ].
  intros H. destruct (f (k', v')); cbn [get]; [rewrite E | ]; now apply IH.
Qed.

Lemma unless_present_after (k : str) (v : value) (s added : dict) :
  get k added = None ->
  unless_present k v (s ++ added)
  = s ++ added ++ (if has k s then [] else [(k, v)]).
Proof.
  intros H. rewrite unless_present_adds, <- app_assoc. unfold has.
  rewrite get_app, H. destruct (get k s); reflexivity.
Qed.









End AppProperties.

(** ** The separators of the skills *)

Lemma swapped_refl (s : str) : swapped s s.
Proof.
  induction s as [|a s IH]; constructor; [now left | reflexivity | exact IH].
Qed.

Lemma swapped_skipn (n : nat) : forall s t, swapped s t -> swapped (skipn n s) (skipn n t).
Proof.
  induction n as [|n IH]; intros s t H; [exact H | ].
  destruct H; cbn [skipn]; [constructor | now apply IH].
Qed.

Lemma upto_blank_line_eq (s : str) :
  upto_blank_line s
  = match s with
    | [] => []
    | c :: t => if blank_line_at s then [] else c :: upto_blank_line t
    end.
Proof. destruct s as [|c [|d t]]; cbn [upto_blank_line blank_line_at]; try reflexivity.
  now rewrite andb_false_r. Qed.

Lemma swapped_upto_blank_line (s t : str) :
  swapped s t -> swapped (upto_blank_line s) (upto_blank_line t).
Proof.
  induction 1 as [|a b s t Hab Hblank H IH]; [constructor | ].
  rewrite (upto_blank_line_eq (a :: s)), (upto_blank_line_eq (b :: t)), Hblank.
  destruct (blank_line_at (b :: t)) eqn:E; [constructor | ].
  constructor; [exact Hab | | exact IH].
  (* the blank lines of the sections *)
  clear IH. destruct H as [|a' b' s t Hab' Hblank' H].
  - reflexivity.
  - rewrite (upto_blank_line_eq (a' :: s)), (upto_blank_line_eq (b' :: t)), Hblank'.
    destruct (blank_line_at (b' :: t)); [reflexivity | ].
    cbn [blank_line_at] in Hblank, E |- *. now rewrite Hblank, E.
Qed.

Lemma swapped_split (s t : str) :
  swapped s t -> split_at skill_sep s = split_at skill_sep t.
Proof.
  induction 1 as [|a b s t Hab _ _ IH]; [reflexivity | ].
  cbn [split_at]. rewrite IH. destruct Hab as [-> | [Ha Hb]]; [reflexivity | ].
  now rewrite Ha, Hb.
Qed.

Lemma locate_swapped (words : list str) (s t : str) :
  swapped s t -> same_headings words s t ->
  option_map (split_at skill_sep) (locate words s)
  = option_map (split_at skill_sep) (locate words t).
Proof.
  induction 1 as [|a b s t Hab Hblank H IH]; intros Hsame.
  - reflexivity.
  - assert (Ha : swapped (a :: s) (b :: t)) by (now constructor).
    destruct Hsame as [Hh Hrest].
    rewrite (locate_eq words (a :: s)), (locate_eq words (b :: t)), <- Hh.
    destruct (heading_here words (a :: s)) as [w|].
    + cbn [option_map]. f_equal. apply swapped_split, swapped_upto_blank_line.
      now apply swapped_skipn.
    + now apply IH.
Qed.

Lemma same_headings_refl (words : list str) (s : str) : same_headings words s s.
Proof.
  induction s as [|a s IH]; cbn [same_headings].
  - split; [reflexivity | ]. now destruct (heading_here words []).
  - split; [reflexivity | ]. now destruct (heading_here words (a :: s)).
Qed.

Lemma same_headings_cons (words : list str) (a b : char) (s t : str) :
  heading_here words (a :: s) = heading_here words (b :: t) ->
  same_headings words s t ->
  same_headings words (a :: s) (b :: t).
Proof.
  intros H Hst. cbn [same_headings]. split; [exact H | ].
  now destruct (heading_here words (a :: s)).
Qed.

Lemma spelled_across (u : str) :
  forall x y,
    spelled u (x ++ y)
    = spelled (firstn (length x) u) x && spelled (skipn (length x) u) y.
Proof.
  induction u as [|k u IH]; intros [|a x] y; cbn [app length firstn skipn spelled];
    try reflexivity.
  rewrite IH. now rewrite andb_assoc.
Qed.

Lemma plain_letter (w : str) (k c : char) :
  plain w = true -> In k w ->
  skill_sep c = true \/ heading_end c = true ->
  ci k c = false.
Proof.
  unfold plain. intros H Hk Hc. apply andb_true_iff in H. destruct H as [_ H].
  rewrite forallb_forall in H. specialize (H k Hk). rewrite forallb_forall in H.
  assert (Hin : In c (py ",•|/\n:")).
  { destruct Hc as [Hc | Hc].
    - unfold skill_sep, oneof in Hc. apply existsb_exists in Hc.
      destruct Hc as [d [Hd E]]. apply N.eqb_eq in E. subst d.
      replace (py ",•|/\n:") with (py ",•|/\n" ++ [58%N]) by (vm_compute; reflexivity).
      apply in_or_app. now left.
    - apply heading_end_cases in Hc. destruct Hc as [-> | ->]; vm_compute; tauto. }
  specialize (H c Hin). now apply negb_true_iff in H.
Qed.

(** A heading word with its colon or line break, against two texts that
    are the same up to a character that no letter of the word can be. *)
Lemma heading_word_agrees (w x y y' : str) (c c' e : char) :
  plain w = true ->
  skill_sep c = true \/ heading_end c = true ->
  skill_sep c' = true \/ heading_end c' = true ->
  (length w = length x -> spelled w x = false \/ (c = c')) ->
  spelled (w ++ [e]) (x ++ c :: y) = spelled (w ++ [e]) (x ++ c' :: y').
Proof.
  intros Hw Hc Hc' Hsame. rewrite !spelled_across.
  destruct (Nat.lt_trichotomy (length x) (length w)) as [Hlt | [Heq | Hgt]].
  - rewrite skipn_app. replace (length x - length w) with 0 by lia.
    destruct (skipn (length x) w) as [|k rest] eqn:E.
    + apply (f_equal (@length char)) in E. rewrite length_skipn in E.
      cbn [length] in E. lia.
    + assert (Hk : In k w)
        by (rewrite <- (firstn_skipn (length x) w), E; apply in_or_app; right; now left).
      cbn [app spelled skipn].
      rewrite (plain_letter w k c Hw Hk Hc), (plain_letter w k c' Hw Hk Hc').
      reflexivity.
  - rewrite Heq, firstn_app, Nat.sub_diag, firstn_all, skipn_app, skipn_all,
      Nat.sub_diag. cbn [firstn skipn app]. rewrite app_nil_r.
    destruct (Hsame (eq_sym Heq)) as [H | ->]; [ | reflexivity].
    rewrite H. reflexivity.
  - rewrite (skipn_all2 (n := length x)) by (rewrite length_app; cbn [length]; lia).
    reflexivity.
Qed.

Lemma find_agrees {A} (f g : A -> bool) (l : list A) :
  (forall a, In a l -> f a = g a) -> find f l = find g l.
Proof.
  induction l as [|a l IH]; intros H; cbn [find]; [reflexivity | ].
  rewrite <- (H a (or_introl eq_refl)). destruct (f a); [reflexivity | ].
  apply IH. intros b Hb. apply H. now right.
Qed.

Lemma py_colon : py ":" = [58%N].
Proof. vm_compute. reflexivity. Qed.

Lemma heading_agrees (words : list str) (x y y' : str) (c c' : char) :
  Forall (fun w => plain w = true) words ->
  skill_sep c = true \/ heading_end c = true ->
  skill_sep c' = true \/ heading_end c' = true ->
  (forall w, In w words -> length w = length x -> spelled w x = false \/ (c = c')) ->
  heading_here words (x ++ c :: y) = heading_here words (x ++ c' :: y').
Proof.
  intros Hwords Hc Hc' Hsame. unfold heading_here. apply find_agrees.
  intros w Hw. rewrite Forall_forall in Hwords. cbv beta. rewrite py_colon, py_lf.
  f_equal; apply heading_word_agrees; auto.
Qed.

Lemma skill_sep_lf : skill_sep LF = true.
Proof. vm_compute. reflexivity. Qed.

Lemma not_sep_not_lf (a : char) : skill_sep a = false -> (a =? LF)%N = false.
Proof.
  intros H. destruct (N.eqb_spec a LF) as [-> | ]; [ | reflexivity].
  rewrite skill_sep_lf in H. discriminate H.
Qed.

Lemma blank_line_at_other (a : char) (s : str) :
  (a =? LF)%N = false -> blank_line_at (a :: s) = false.
Proof. intros H. destruct s; cbn [blank_line_at]; [reflexivity | now rewrite H]. Qed.

Lemma blank_line_at_next (c a : char) (s : str) :
  (a =? LF)%N = false -> blank_line_at (c :: a :: s) = false.
Proof. intros H. cbn [blank_line_at]. now rewrite H, andb_false_r. Qed.

Lemma ends_with_suffix (w x1 x2 : str) :
  ends_with w (x1 ++ x2) = false -> length w = length x2 -> spelled w x2 = false.
Proof.
  unfold ends_with. intros H Hlen. rewrite length_app in H.
  replace (length w <=? length x1 + length x2) with true in H
    by (symmetry; apply Nat.leb_le; lia).
  replace (length x1 + length x2 - length w) with (length x1) in H by lia.
  rewrite skipn_app, skipn_all, Nat.sub_diag in H. exact H.
Qed.

(** An item with the separator after it. *)
Lemma swapped_item (x : str) :
  forall R R' c c',
    free_of skill_sep x = true ->
    skill_sep c = true -> skill_sep c' = true ->
    swapped R R' ->
    blank_line_at (c :: R) = false -> blank_line_at (c' :: R') = false ->
    swapped (x ++ c :: R) (x ++ c' :: R').
Proof.
  induction x as [|a x IH]; intros R R' c c' Hfree Hc Hc' HR Hb Hb'; cbn [app].
  - constructor; [now right | now rewrite Hb, Hb' | exact HR].
  - unfold free_of in Hfree. cbn [forallb] in Hfree.
    apply andb_true_iff in Hfree. destruct Hfree as [Ha Hfree].
    apply negb_true_iff in Ha. apply not_sep_not_lf in Ha.
    constructor; [now left | | now apply IH].
    now rewrite !blank_line_at_other.
Qed.

Lemma headings_item (words : list str) (x : str) :
  forall R R' c c',
    Forall (fun w => plain w = true) words ->
    skill_sep c = true -> skill_sep c' = true ->
    (forall w x1 x2, In w words -> x = x1 ++ x2 -> length w = length x2 ->
       spelled w x2 = false) ->
    same_headings words R R' ->
    same_headings words (x ++ c :: R) (x ++ c' :: R').
Proof.
  induction x as [|a x IH]; intros R R' c c' Hwords Hc Hc' Hno HR.
  - apply same_headings_cons; [ | exact HR].
    apply (heading_agrees words [] R R' c c' Hwords); [now left | now left | ].
    intros w Hw Hlen. left. now apply (Hno w [] []).
  - cbn [app]. apply same_headings_cons.
    + apply (heading_agrees words (a :: x) R R' c c' Hwords); [now left | now left | ].
      intros w Hw Hlen. left. now apply (Hno w [] (a :: x)).
    + apply IH; try assumption. intros w x1 x2 Hw E Hlen.
      apply (Hno w (a :: x1) x2 Hw); [now rewrite E | exact Hlen].
Qed.

Lemma interleave_head (post : str) (r0 : char) (item : str) (rest : list str)
    (seps : list char) :
  exists T, interleave ((r0 :: item) :: rest) seps ++ post = r0 :: T.
Proof. destruct seps; cbn [interleave app]; eexists; reflexivity. Qed.

Lemma items_blank_line (post : str) (c : char) (items : list str) (seps : list char) :
  items <> [] ->
  Forall (fun item => item <> [] /\ free_of skill_sep item = true) items ->
  blank_line_at (c :: interleave items seps ++ post) = false.
Proof.
  intros Hne Hitems. destruct items as [|[|r0 item] rest]; [contradiction | | ].
  - inversion_clear Hitems as [|? ? [H _] _]. contradiction.
  - inversion_clear Hitems as [|? ? [_ H] _].
    assert (Hr : (r0 =? LF)%N = false).
    { apply not_sep_not_lf. unfold free_of in H. cbn [forallb] in H.
      apply andb_true_iff in H. now apply negb_true_iff. }
    destruct seps; cbn [interleave app]; now apply blank_line_at_next.
Qed.

(** The items, whichever separators stand between them. *)
Lemma swapped_items (post : str) :
  forall items seps seps',
    length items = S (length seps) -> length seps' = length seps ->
    Forall (fun item => item <> [] /\ free_of skill_sep item = true) items ->
    Forall (fun c => skill_sep c = true) seps ->
    Forall (fun c => skill_sep c = true) seps' ->
    swapped (interleave items seps ++ post) (interleave items seps' ++ post).
Proof.
  intros items; induction items as [|item rest IH]; intros seps seps' Hlen Hlen' Hitems Hseps Hseps';
    [discriminate Hlen | ].
  destruct seps as [|c seps]; destruct seps' as [|c' seps']; try discriminate Hlen'.
  - apply swapped_refl.
  - cbn [interleave]. rewrite <- !app_assoc. cbn [app].
    inversion_clear Hitems as [|? ? [_ Hfree] Hrest].
    inversion_clear Hseps as [|? ? Hc Hseps1].
    inversion_clear Hseps' as [|? ? Hc' Hseps1'].
    cbn [length] in Hlen, Hlen'.
    assert (Hne : rest <> []) by (intros ->; discriminate Hlen).
    apply swapped_item; try assumption.
    + apply IH; try assumption; lia.
    + now apply items_blank_line.
    + now apply items_blank_line.
Qed.

Lemma headings_items (words : list str) (post : str) :
  Forall (fun w => plain w = true) words ->
  forall items seps seps',
    length items = S (length seps) -> length seps' = length seps ->
    Forall (fun item => ends_with_one words item = false) (removelast items) ->
    Forall (fun c => skill_sep c = true) seps ->
    Forall (fun c => skill_sep c = true) seps' ->
    same_headings words (interleave items seps ++ post)
      (interleave items seps' ++ post).
Proof.
  intros Hwords.
  intros items; induction items as [|item rest IH]; intros seps seps' Hlen Hlen' Hitems Hseps Hseps';
    [discriminate Hlen | ].
  destruct seps as [|c seps]; destruct seps' as [|c' seps']; try discriminate Hlen'.
  - apply same_headings_refl.
  - cbn [interleave]. rewrite <- !app_assoc. cbn [app].
    inversion_clear Hseps as [|? ? Hc Hseps1].
    inversion_clear Hseps' as [|? ? Hc' Hseps1'].
    cbn [length] in Hlen, Hlen'.
    destruct rest as [|item2 rest]; [discriminate Hlen | ].
    change (removelast (item :: item2 :: rest))
      with (item :: removelast (item2 :: rest)) in Hitems.
    inversion_clear Hitems as [|? ? Hitem Hrest].
    apply headings_item; try assumption.
    + intros w x1 x2 Hw -> Hl. apply (ends_with_suffix w x1 x2); [ | exact Hl].
      unfold ends_with_one in Hitem.
      destruct (ends_with w (x1 ++ x2)) eqn:E; [ | reflexivity].
      exfalso. assert (H : existsb (fun w => ends_with w (x1 ++ x2)) words = true)
        by (apply existsb_exists; now exists w).
      rewrite H in Hitem. discriminate Hitem.
    + apply IH; try assumption; lia.
Qed.

(** What stands before the items. *)
Lemma swapped_before (pre : str) (c : char) (B B' : str) :
  swapped B B' ->
  blank_line_at (c :: B) = blank_line_at (c :: B') ->
  swapped (pre ++ c :: B) (pre ++ c :: B').
Proof.
  intros H Hb. induction pre as [|a pre IH]; cbn [app].
  - constructor; [now left | exact Hb | exact H].
  - constructor; [now left | | exact IH].
    destruct pre; reflexivity.
Qed.

Lemma headings_before (words : list str) (pre : str) (c : char) (B B' : str) :
  Forall (fun w => plain w = true) words ->
  heading_end c = true ->
  same_headings words B B' ->
  same_headings words (pre ++ c :: B) (pre ++ c :: B').
Proof.
  intros Hwords Hc HB. induction pre as [|a pre IH]; cbn [app].
  - apply same_headings_cons; [ | exact HB].
    apply (heading_agrees words [] B B' c c Hwords); [now right | now right | ].
    intros w _ _. now right.
  - apply same_headings_cons; [ | exact IH].
    apply (heading_agrees words (a :: pre) B B' c c Hwords); [now right | now right | ].
    intros w _ _. now right.
Qed.

(** A heading that stands before the items is the first or comes after the
    first, whatever the separators. *)
Lemma headings_until (words : list str) (pre word : str) (c : char) (B B' : str) :
  Forall (fun w => plain w = true) words ->
  heading_end c = true ->
  heading_here words (word ++ c :: B) <> None ->
  same_headings words (pre ++ word ++ c :: B) (pre ++ word ++ c :: B').
Proof.
  intros Hwords Hc Hsome.
  assert (Hag : forall x, heading_here words (x ++ c :: B)
                          = heading_here words (x ++ c :: B')).
  { intros x. apply (heading_agrees words x B B' c c Hwords); [now right | now right | ].
    intros w _ _. now right. }
  induction pre as [|a pre IH]; cbn [app].
  - destruct word as [|y word]; cbn [app same_headings] in *.
    + split; [apply (Hag []) | ]. destruct (heading_here words (c :: B)); [exact I | ].
      now contradiction Hsome.
    + split; [apply (Hag (y :: word)) | ].
      destruct (heading_here words (y :: word ++ c :: B)); [exact I | ].
      now contradiction Hsome.
  - apply same_headings_cons; [ | exact IH].
    rewrite !(app_assoc pre word). apply (Hag (a :: pre ++ word)).
Qed.

Lemma heading_here_found (words : list str) (w word rest : str) (c : char) :
  In w words -> length word = length w -> spelled w word = true ->
  heading_end c = true ->
  heading_here words (word ++ c :: rest) <> None.
Proof.
  intros Hw Hlen Hsp Hc H. unfold heading_here in H.
  pose proof (find_none _ _ H w Hw) as Hf. cbv beta in Hf.
  rewrite !(spelled_app_intro w word _ _ Hlen Hsp) in Hf.
  apply heading_end_cases in Hc. destruct Hc as [-> | ->]; vm_compute in Hf;
    discriminate Hf.
Qed.

Lemma skills_from_pieces (text : str) (acc : list str) (pattern : regex) :
  skills_from text acc pattern
  = match option_map (split_at skill_sep) (section_of pattern text) with
    | Some pieces => fold_left add_piece pieces acc
    | None => acc
    end.
Proof. unfold skills_from. destruct (section_of pattern text); reflexivity. Qed.

Lemma fold_skills_patterns {A} (f : A -> regex -> A) (acc : A) :
  fold_left f skills_patterns acc
  = f (f acc (nth 0 skills_patterns Eps)) (nth 1 skills_patterns Eps).
Proof. reflexivity. Qed.

(** The skills, in terms of the two sections. *)
Lemma extract_skills_located (self : CVParser) :
  extract_skills self
  = Ok (sorted
          (let found :=
             match option_map (split_at skill_sep)
                     (locate skills_words (extracted_text self)) with
             | Some pieces => fold_left add_piece pieces []
             | None => []
             end in
           match option_map (split_at skill_sep)
                   (locate tools_words (extracted_text self)) with
           | Some pieces => fold_left add_piece pieces found
           | None => found
           end)).
Proof.
  rewrite extract_skills_eq, fold_skills_patterns, !skills_from_pieces,
    skills_located, tools_located. reflexivity.
Qed.

Lemma skills_words_plain : Forall (fun w => plain w = true) skills_words.
Proof. repeat constructor. Qed.

Lemma tools_words_plain : Forall (fun w => plain w = true) tools_words.
Proof. repeat constructor. Qed.

(** Items right after a skills heading: the separators between them do
    not show in the result, unless an item with its line break is read as
    a heading of the second family. *)
Lemma separators_between (self : CVParser) (pre w word post : str) (c : char)
    (items : list str) (seps seps' : list char) :
  In w skills_words -> length word = length w -> spelled w word = true ->
  heading_end c = true ->
  length items = S (length seps) -> length seps' = length seps ->
  Forall (fun item => item <> [] /\ free_of skill_sep item = true) items ->
  Forall (fun item => ends_with_one tools_words item = false) (removelast items) ->
  Forall (fun k => skill_sep k = true) seps ->
  Forall (fun k => skill_sep k = true) seps' ->
  extract_skills
    (with_text (pre ++ word ++ c :: interleave items seps ++ post) self)
  = extract_skills
      (with_text (pre ++ word ++ c :: interleave items seps' ++ post) self).
Proof.
  intros Hw Hlen Hsp Hc Hn Hn' Hitems Hends Hseps Hseps'.
  set (B := interleave items seps ++ post).
  set (B' := interleave items seps' ++ post).
  assert (Hne : items <> []) by (intros E; rewrite E in Hn; discriminate Hn).
  assert (HB : swapped B B') by (now apply swapped_items).
  assert (Halike : swapped (pre ++ word ++ c :: B) (pre ++ word ++ c :: B')).
  { rewrite !(app_assoc pre word). apply swapped_before; [exact HB | ].
    unfold B, B'. now rewrite !items_blank_line. }
  assert (Hskills : same_headings skills_words (pre ++ word ++ c :: B)
                      (pre ++ word ++ c :: B')).
  { apply headings_until; [exact skills_words_plain | exact Hc | ].
    now apply (heading_here_found skills_words w). }
  assert (Htools : same_headings tools_words (pre ++ word ++ c :: B)
                     (pre ++ word ++ c :: B')).
  { rewrite !(app_assoc pre word).
    apply headings_before; [exact tools_words_plain | exact Hc | ].
    now apply headings_items; [exact tools_words_plain | ..]. }
  rewrite !extract_skills_located. cbn [extracted_text with_text].
  rewrite (locate_swapped skills_words _ _ Halike Hskills),
    (locate_swapped tools_words _ _ Halike Htools).
  reflexivity.
Qed.

Lemma strip_around (s : str) :
  exists left right,
    s = left ++ strip s ++ right
    /\ forallb isspace left = true /\ forallb isspace right = true.
Proof.
  destruct (lstrip_split s) as [a [Ea Fa]].
  destruct (lstrip_split (rev (lstrip s))) as [b [Eb Fb]].
  exists a, (rev b). split; [ | split; [exact Fa | ]].
  - unfold strip, rstrip. rewrite <- rev_app_distr, <- Eb, rev_involutive. exact Ea.
  - apply forallb_forall. intros x Hx. apply in_rev in Hx.
    rewrite forallb_forall in Fb. now apply Fb.
Qed.

(** C4, as stated, fails: which separator stands between the items can
    show in the result.  A line break after the item [Tools] makes it a
    heading of the second family of patterns, whose section is then what
    follows the item and no longer the section [TOOLS:Git] further down,
    the only one found when a comma stands there. *)
Lemma separators_can_matter :
  extract_skills
    (with_text (py "SKILLS:" ++ interleave [py "Python"; py "Tools"; py "Go"] [LF; LF]
                ++ py "\n\nTOOLS:Git") __init__)
  = Ok [py "Go"; py "Python"; py "Tools"]
  /\ extract_skills
       (with_text (py "SKILLS:"
                   ++ interleave [py "Python"; py "Tools"; py "Go"] [44%N; 44%N]
                   ++ py "\n\nTOOLS:Git") __init__)
     = Ok [py "Git"; py "Go"; py "Python"; py "Tools"]
  /\ py "SKILLS:" ++ interleave [py "Python"; py "Tools"; py "Go"] [LF; LF]
     ++ py "\n\nTOOLS:Git"
     = py "SKILLS:Python\nTools\nGo\n\nTOOLS:Git"
  /\ py "SKILLS:" ++ interleave [py "Python"; py "Tools"; py "Go"] [44%N; 44%N]
     ++ py "\n\nTOOLS:Git"
     = py "SKILLS:Python,Tools,Go\n\nTOOLS:Git"
  /\ extract_skills (reading "SKILLS:Python\nTools\nGo\n\nTOOLS:Git")
     <> extract_skills (reading "SKILLS:Python,Tools,Go\n\nTOOLS:Git").
Proof.
  repeat split; try (vm_compute; reflexivity). vm_compute. discriminate.
Qed.

(** C4, amended: whatever the text, [extract_skills] returns; what it
    returns is in increasing order (the order of Python's strings, by code
    point, so [Zebra] comes before [apple]) without duplicates, and each
    element is a piece of the text of a skills section without the white
    space around it: it has two characters at least, no white space at
    either end, and only white space stands between it and the ends of
    its piece.  For items right after a skills heading, in any text,
    that are not empty and hold no separator, the result is the same
    whichever of the comma, the bullet, the bar, the slash and the line
    break stands between them, when no item but the last ends with
    [TECHNOLOGIES], [TOOLS] or [SOFTWARE] in any letter case.  When the
    text is [SKILLS:] and such items with no colon, the result is the
    sorted set of the trimmed items of two characters at least.  So
    [Python, Go\nRust] and [Python,Go,Rust] both give [Go], [Python],
    [Rust], and so does [Python , Go  ,Rust ]. *)
Theorem skills_are_a_sorted_set :
  (forall self,
     exists skills,
       extract_skills self = Ok skills
       /\ StronglySorted str_lt skills
       /\ NoDup skills
       /\ forall skill, In skill skills ->
            2 <= length skill
            /\ edges skill = true
            /\ strip skill = skill
            /\ exists pattern section piece left right,
                 In pattern skills_patterns
                 /\ section_of pattern (extracted_text self) = Some section
                 /\ In piece (split_at (oneof (py ",•|/\n")) section)
                 /\ skill = strip piece
                 /\ piece = left ++ skill ++ right
                 /\ forallb isspace left = true
                 /\ forallb isspace right = true)
  /\ (forall self pre w word post c items seps seps',
        In w skills_words -> length word = length w -> spelled w word = true ->
        heading_end c = true ->
        length items = S (length seps) -> length seps' = length seps ->
        Forall (fun item => item <> [] /\ free_of skill_sep item = true) items ->
        Forall (fun item => ends_with_one tools_words item = false)
          (removelast items) ->
        Forall (fun k => skill_sep k = true) seps ->
        Forall (fun k => skill_sep k = true) seps' ->
        extract_skills
          (with_text (pre ++ word ++ c :: interleave items seps ++ post) self)
        = extract_skills
            (with_text (pre ++ word ++ c :: interleave items seps' ++ post) self))
  /\ (forall self items seps,
        length items = S (length seps) ->
        Forall (fun item => item <> []
                            /\ free_of (oneof (py ",•|/\n")) item = true
                            /\ free_of (exactly 58%N) item = true) items ->
        Forall (fun c => oneof (py ",•|/\n") c = true) seps ->
        extract_skills (with_text (py "SKILLS:" ++ interleave items seps) self)
        = Ok (skills_among items))
  /\ extract_skills (reading "SKILLS:Python, Go\nRust")
     = Ok [py "Go"; py "Python"; py "Rust"]
  /\ extract_skills (reading "SKILLS:Python,Go,Rust")
     = Ok [py "Go"; py "Python"; py "Rust"]
  /\ extract_skills (reading "SKILLS:Python , Go  ,Rust ")
     = Ok [py "Go"; py "Python"; py "Rust"]
  /\ extract_skills (reading "SKILLS:apple,Zebra,C")
     = Ok [py "Zebra"; py "apple"].
Proof.
  split; [ | split; [ | split; [ | repeat split; vm_compute; reflexivity]]].
  - intros self. rewrite extract_skills_eq. eexists. split; [reflexivity | ].
    unfold skills_patterns. cbn [fold_left].
    match goal with |- context [sorted ?l] => set (skills_set := l) end.
    assert (Hnd : NoDup skills_set)
      by (apply skills_from_nodup, skills_from_nodup; constructor).
    destruct (sorted_set _ Hnd) as [Hsorted [Hnd' Hin]].
    split; [exact Hsorted | split; [exact Hnd' | ]].
    assert (Hpiece : forall piece,
              2 <= length (strip piece) ->
              edges (strip piece) = true
              /\ strip (strip piece) = strip piece
              /\ exists left right,
                   piece = left ++ strip piece ++ right
                   /\ forallb isspace left = true
                   /\ forallb isspace right = true).
    { intros piece Hlen. split; [ | split; [apply strip_idem | apply strip_around]].
      apply trimmed_edges; [ | apply strip_idem].
      intros E. rewrite E in Hlen. cbn [length] in Hlen. lia. }
    intros skill Hskill. apply Hin in Hskill. unfold skills_set in Hskill.
    apply skills_from_in in Hskill.
    destruct Hskill as [Hskill | [section [piece [Hsec [Hp [-> Hlen]]]]]].
    + apply skills_from_in in Hskill.
      destruct Hskill as [[] | [section [piece [Hsec [Hp [-> Hlen]]]]]].
      destruct (Hpiece piece Hlen) as [He [Hs [left [right [E [Hl Hr]]]]]].
      split; [exact Hlen | split; [exact He | split; [exact Hs | ]]].
      eexists. exists section, piece, left, right.
      split; [left; reflexivity | repeat split; assumption].
    + destruct (Hpiece piece Hlen) as [He [Hs [left [right [E [Hl Hr]]]]]].
      split; [exact Hlen | split; [exact He | split; [exact Hs | ]]].
      eexists. exists section, piece, left, right.
      split; [right; left; reflexivity | repeat split; assumption].
  - intros self pre w word post c items seps seps'. apply separators_between.
  - intros self items seps Hlen Hitems Hseps. rewrite extract_skills_eq.
    cbn [extracted_text with_text].
    rewrite (skills_of_items _ _ Hlen Hitems Hseps). reflexivity.
Qed.

Lemma skills_are_a_sorted_set_witness :
  extract_skills
    (with_text (py "Jane Doe\n\n" ++ py "Technical Skills"
                ++ (58%N : char) :: interleave [py " Python "; py "Go"; py "Rust"]
                                      [44%N; LF]
                ++ py "\n\nTOOLS:Git") __init__)
  = extract_skills
      (with_text (py "Jane Doe\n\n" ++ py "Technical Skills"
                  ++ (58%N : char) :: interleave [py " Python "; py "Go"; py "Rust"]
                                        [bullet; 47%N]
                  ++ py "\n\nTOOLS:Git") __init__)
  /\ extract_skills (reading "Jane Doe\n\nTechnical Skills: Python ,Go\nRust\n\nTOOLS:Git")
     = Ok [py "Git"; py "Go"; py "Python"; py "Rust"]
  /\ extract_skills
       (with_text (py "SKILLS:" ++ interleave [py "Python"; py " Go"; py "Rust"]
                                     [44%N; LF]) __init__)
     = Ok (skills_among [py "Python"; py " Go"; py "Rust"])
  /\ skills_among [py "Python"; py " Go"; py "Rust"]
     = [py "Go"; py "Python"; py "Rust"].
Proof.
  destruct skills_are_a_sorted_set as [_ [H [H' _]]].
  split; [ | split; [vm_compute; reflexivity | split; [ | vm_compute; reflexivity]]].
  - apply (H __init__ (py "Jane Doe\n\n") (py "TECHNICAL SKILLS")
             (py "Technical Skills") (py "\n\nTOOLS:Git") 58%N
             [py " Python "; py "Go"; py "Rust"] [44%N; LF] [bullet; 47%N]).
    + vm_compute. tauto.
    + reflexivity.
    + vm_compute. reflexivity.
    + vm_compute. reflexivity.
    + reflexivity.
    + reflexivity.
    + repeat constructor; try (vm_compute; reflexivity); vm_compute; discriminate.
    + repeat constructor.
    + repeat constructor.
    + repeat constructor.
  - apply (H' __init__ [py "Python"; py " Go"; py "Rust"] [44%N; LF] eq_refl).
    + repeat constructor; try (vm_compute; reflexivity); vm_compute; discriminate.
    + repeat constructor.
Defined.
